(** * Wyze client core: token lifecycle, request signing, error classification

    A shallow embedding of [src/auth.ts], of [src/api.ts] and of the
    device listing of the tool layer.

    Conventions of the embedding.
    - A response body is whatever [JSON.parse] can deliver.  Converting
      such a value to a string throws when the value is an object with a
      [toString] property of its own, and the embedding throws where
      the program does: in template literals, [join], [String] and
      property names.
    - A JavaScript string is a [string]; this is exact for ASCII text,
      where code units, UTF-8 bytes and characters coincide, and every
      text the program itself produces (URLs, parameter names, methods,
      messages, digests, decimal numbers) is ASCII.
    - [Date.now()] and the HTTP endpoints are the outside world: an
      [env] answers the n-th clock read and the n-th request.
    - [async] functions are run to completion one at a time: a computation
      is a function from the module state to an outcome (a value or a
      thrown exception) and the next state.  What [console.error] prints
      is left out. *)

From Stdlib Require Import ZArith List String Ascii Bool Lia.
From Stdlib Require Import Permutation Sorted DecimalString QArith Qround Lqa.
Import ListNotations.

Set Warnings "-register-all".

Local Open Scope string_scope.
Local Open Scope Z_scope.

(** ** The digest of Node's [crypto.createHash("md5")] (RFC 1321)

    The digest itself is library code; it is written out here so that
    [hashPassword] and [createFordSignature] compute, and so that the
    shape of a digest (32 lowercase hexadecimal characters) is a theorem
    and not an assumption. *)

Module MD5.

Definition w32 (x : Z) : Z := x mod 2 ^ 32.

Definition rotl (x n : Z) : Z :=
  w32 (Z.lor (Z.shiftl x n) (Z.shiftr x (32 - n))).

Definition lnot32 (x : Z) : Z := Z.lxor x 0xffffffff.

Definition K : list Z :=
[ 0xd76aa478; 0xe8c7b756; 0x242070db; 0xc1bdceee;
  0xf57c0faf; 0x4787c62a; 0xa8304613; 0xfd469501;
  0x698098d8; 0x8b44f7af; 0xffff5bb1; 0x895cd7be;
  0x6b901122; 0xfd987193; 0xa679438e; 0x49b40821;
  0xf61e2562; 0xc040b340; 0x265e5a51; 0xe9b6c7aa;
  0xd62f105d; 0x02441453; 0xd8a1e681; 0xe7d3fbc8;
  0x21e1cde6; 0xc33707d6; 0xf4d50d87; 0x455a14ed;
  0xa9e3e905; 0xfcefa3f8; 0x676f02d9; 0x8d2a4c8a;
  0xfffa3942; 0x8771f681; 0x6d9d6122; 0xfde5380c;
  0xa4beea44; 0x4bdecfa9; 0xf6bb4b60; 0xbebfbc70;
  0x289b7ec6; 0xeaa127fa; 0xd4ef3085; 0x04881d05;
  0xd9d4d039; 0xe6db99e5; 0x1fa27cf8; 0xc4ac5665;
  0xf4292244; 0x432aff97; 0xab9423a7; 0xfc93a039;
  0x655b59c3; 0x8f0ccc92; 0xffeff47d; 0x85845dd1;
  0x6fa87e4f; 0xfe2ce6e0; 0xa3014314; 0x4e0811a1;
  0xf7537e82; 0xbd3af235; 0x2ad7d2bb; 0xeb86d391 ].

Definition shifts : list Z :=
[ 7; 12; 17; 22; 7; 12; 17; 22; 7; 12; 17; 22; 7; 12; 17; 22;
  5;  9; 14; 20; 5;  9; 14; 20; 5;  9; 14; 20; 5;  9; 14; 20;
  4; 11; 16; 23; 4; 11; 16; 23; 4; 11; 16; 23; 4; 11; 16; 23;
  6; 10; 15; 21; 6; 10; 15; 21; 6; 10; 15; 21; 6; 10; 15; 21 ].

Definition at_ (l : list Z) (i : Z) : Z := nth (Z.to_nat i) l 0.

(** The four working registers. *)
Record regs := Regs { ra : Z; rb : Z; rc : Z; rd : Z }.

Definition init : regs :=
  Regs 0x67452301 0xefcdab89 0x98badcfe 0x10325476.

(** The round function and the index of the message word it mixes in. *)
Definition mix (i b c d : Z) : Z * Z :=
  if i <? 16 then (Z.lor (Z.land b c) (Z.land (lnot32 b) d), i)
  else if i <? 32 then
    (Z.lor (Z.land d b) (Z.land (lnot32 d) c), (5 * i + 1) mod 16)
  else if i <? 48 then (Z.lxor b (Z.lxor c d), (3 * i + 5) mod 16)
  else (Z.lxor c (Z.lor b (lnot32 d)), (7 * i) mod 16).

Definition step (M : list Z) (r : regs) (i : Z) : regs :=
  let '(f, g) := mix i (rb r) (rc r) (rd r) in
  let f' := w32 (f + ra r + at_ K i + at_ M g) in
  Regs (rd r) (w32 (rb r + rotl f' (at_ shifts i))) (rb r) (rc r).

Definition rounds : list Z := map Z.of_nat (seq 0 64).

Definition compress (h : regs) (M : list Z) : regs :=
  let r := fold_left (step M) rounds h in
  Regs (w32 (ra h + ra r)) (w32 (rb h + rb r))
       (w32 (rc h + rc r)) (w32 (rd h + rd r)).

(** Little-endian bytes of a word and back. *)
Definition le_bytes (n : nat) (x : Z) : list Z :=
  map (fun k => (x / 2 ^ (8 * Z.of_nat k)) mod 256) (seq 0 n).

Definition le_word (bs : list Z) : Z :=
  fold_right (fun b acc => b + 256 * acc) 0 bs.

(** Padding: a 1 bit, zeros up to 56 mod 64, the bit length on 64 bits. *)
Definition pad (msg : list Z) : list Z :=
  let len := Z.of_nat (List.length msg) in
  (msg ++ [0x80]
       ++ repeat 0 (Z.to_nat ((55 - len) mod 64))
       ++ le_bytes 8 ((8 * len) mod 2 ^ 64))%list.

(** The padded message cut in 64-byte blocks of sixteen words; the
    fuel is the number of blocks. *)
Fixpoint words (n : nat) (bs : list Z) : list Z :=
  match n with
  | O => []
  | S n' => le_word (firstn 4 bs) :: words n' (skipn 4 bs)
  end.

Fixpoint blocks (n : nat) (bs : list Z) : list (list Z) :=
  match n with
  | O => []
  | S n' => words 16 (firstn 64 bs) :: blocks n' (skipn 64 bs)
  end.

Definition digest (msg : list Z) : regs :=
  let p := pad msg in
  fold_left compress (blocks (List.length p / 64) p) init.

Definition hexdigit (n : Z) : ascii :=
  ascii_of_nat (Z.to_nat (if n mod 16 <? 10 then 48 + n mod 16
                          else 87 + n mod 16)).

Definition hex_byte (b : Z) : string :=
  String (hexdigit (b / 16)) (String (hexdigit b) EmptyString).

Definition hex_word (w : Z) : string :=
  concat "" (map hex_byte (le_bytes 4 w)).

Definition hex (r : regs) : string :=
  hex_word (ra r) ++ hex_word (rb r) ++ hex_word (rc r) ++ hex_word (rd r).

Definition bytes_of_string (s : string) : list Z :=
  map (fun c => Z.of_nat (nat_of_ascii c)) (list_ascii_of_string s).

(** [crypto.createHash("md5").update(s).digest("hex")] *)
Definition md5_hex (s : string) : string := hex (digest (bytes_of_string s)).

End MD5.

(** ** JavaScript values

    What [JSON.parse] can deliver and what the program then stores and
    passes on: the response bodies are typed by a cast only, so the code
    below never relies on their declared shape.  Numbers of response
    bodies are integers here, [Num n] standing for the double that [n]
    is (the program only compares them with [1] and prints them). *)

Module JS.

Inductive value :=
| Undefined
| Null
| Bool (b : bool)
| Num (n : Z)
| Str (s : string)
| Arr (elts : list value)
| Obj (props : list (string * value)).

(** The decimal form of an integer, which is what JavaScript prints
    for an integer of magnitude below 2^53: the clock values, HTTP
    statuses, counts and clamped values that the program prints are of
    that kind. *)
Definition decimal (n : Z) : string := NilZero.string_of_int (Z.to_int n).

(** [String(n)] for a number of a response body.  From 2^53 on
    JavaScript prints the decimal with the fewest significant digits
    that reads back as the same double, filled up with zeros below
    10^21 and in exponent form from there on. *)
Definition width (a : Z) : Z := Z.of_nat (String.length (decimal a)).

(** Whether the decimal [c] reads back as the double [a], which is at
    least 2^53: it lies within half the distance to either neighbour
    of [a], the bounds included when the mantissa of [a] is even. *)
Definition reads_back (a c : Z) : bool :=
  let e := Z.log2 a - 52 in
  let m := a / 2 ^ e in
  let above := 2 * 2 ^ e in
  let below := if m =? 2 ^ 52 then 2 ^ e else 2 * 2 ^ e in
  let d := 4 * (c - a) in
  if Z.even m then (- below <=? d) && (d <=? above)
  else (- below <? d) && (d <? above).

(** The decimal with the fewest significant digits that reads back as
    [a], the closest to [a] among those, looked for with [k] digits
    and then with more. *)
Fixpoint shortest (fuel : nat) (k a : Z) : Z :=
  match fuel with
  | O => a
  | S fuel' =>
      let p := 10 ^ (width a - k) in
      let c1 := a / p * p in
      let c2 := c1 + p in
      match reads_back a c1, reads_back a c2 with
      | true, true =>
          if a - c1 <? c2 - a then c1
          else if c2 - a <? a - c1 then c2
          else if Z.even (c1 / p) then c1 else c2
      | true, false => c1
      | false, true => c2
      | false, false => shortest fuel' (k + 1) a
      end
  end.

Fixpoint strip_zeros (s : string) : string :=
  match s with
  | EmptyString => EmptyString
  | String c rest =>
      match strip_zeros rest with
      | EmptyString =>
          if Ascii.eqb c "0" then EmptyString else String c EmptyString
      | rest' => String c rest'
      end
  end.

Definition exponential (c : Z) : string :=
  match strip_zeros (decimal c) with
  | EmptyString => "0"
  | String d EmptyString => String d ("e+" ++ decimal (width c - 1))
  | String d rest => String d ("." ++ rest ++ "e+" ++ decimal (width c - 1))
  end.

Definition Number_text (n : Z) : string :=
  let a := Z.abs n in
  if a <? 2 ^ 53 then decimal n
  else
    let c := shortest (Z.to_nat (width a)) 1 a in
    let text := if width c <=? 21 then decimal c else exponential c in
    if n <? 0 then "-" ++ text else text.

(** [!!v] *)
Definition truthy (v : value) : bool :=
  match v with
  | Undefined | Null => false
  | Bool b => b
  | Num n => negb (n =? 0)
  | Str s => negb (s =? "")%string
  | Arr _ | Obj _ => true
  end.

(** [a || b] and [a ?? b] *)
Definition or_ (a b : value) : value := if truthy a then a else b.

Definition nullish (a b : value) : value :=
  match a with Undefined | Null => b | _ => a end.

(** [a === b] against a primitive: objects and arrays are compared by
    identity, and no operand of the program's comparisons is one. *)
Definition strict_eq (a b : value) : bool :=
  match a, b with
  | Undefined, Undefined | Null, Null => true
  | Bool x, Bool y => Bool.eqb x y
  | Num x, Num y => x =? y
  | Str x, Str y => (x =? y)%string
  | _, _ => false
  end.

Fixpoint lookup (k : string) (ps : list (string * value)) : option value :=
  match ps with
  | [] => None
  | (k', v) :: ps' => if (k =? k')%string then Some v else lookup k ps'
  end.

Definition own (k : string) (ps : list (string * value)) : value :=
  match lookup k ps with Some v => v | None => Undefined end.

(** [v.k] for the property names the program reads; [None] is the
    TypeError of reading a property of [undefined] or [null]. *)
Definition get (v : value) (k : string) : option value :=
  match v with
  | Undefined | Null => None
  | Obj ps => Some (own k ps)
  | Arr l =>
      Some (if (k =? "length")%string then Num (Z.of_nat (List.length l))
            else Undefined)
  | Str s =>
      Some (if (k =? "length")%string then Num (Z.of_nat (String.length s))
            else Undefined)
  | Bool _ | Num _ => Some Undefined
  end.

(** [v?.k] *)
Definition get_opt (v : value) (k : string) : value :=
  match get v k with Some x => x | None => Undefined end.

(** Whether a value can be converted to a primitive: an object that
    has a property of its own named [toString] cannot (the property
    hides [Object.prototype.toString] and, coming from [JSON.parse], is
    not a function), and an array cannot when one of its elements
    cannot, as arrays are printed by [join]. *)
Fixpoint printable (v : value) : bool :=
  match v with
  | Arr l => forallb printable l
  | Obj ps => negb (existsb (fun kv => (fst kv =? "toString")%string) ps)
  | _ => true
  end.

(** What [String(v)] and a template literal print for a value that
    can be converted; [Array.prototype.join] prints [undefined] and
    [null] elements as the empty string. *)
Fixpoint to_string (v : value) : string :=
  match v with
  | Undefined => "undefined"
  | Null => "null"
  | Bool true => "true"
  | Bool false => "false"
  | Num n => Number_text n
  | Str s => s
  | Arr l =>
      concat ","
        (map (fun e => match e with
                       | Undefined | Null => ""
                       | _ => to_string e
                       end) l)
  | Obj _ => "[object Object]"
  end.

Definition join (sep : string) (l : list value) : string :=
  concat sep
    (map (fun e => match e with
                   | Undefined | Null => ""
                   | _ => to_string e
                   end) l).

(** [Number(v)] for a value that can be converted, where the result
    is an integer; [None] for NaN.  Of the numeric strings only plain
    digit sequences are read. *)
Definition to_number (v : value) : option Z :=
  let of_str s :=
    match NilEmpty.uint_of_string s with
    | Some d => Some (Z.of_uint d)
    | None => None
    end in
  match v with
  | Undefined => None
  | Null => Some 0
  | Bool b => Some (if b then 1 else 0)
  | Num n => Some n
  | Str s => of_str s
  | Arr _ | Obj _ => of_str (to_string v)
  end.

(** [v > 0] for a value that can be converted. *)
Definition gt0 (v : value) : bool :=
  match to_number v with Some n => 0 <? n | None => false end.

(** [JSON.stringify] *)
Definition dquote : ascii := ascii_of_nat 34.

Definition hex4 (n : Z) : string :=
  String "0" (String "0" (MD5.hex_byte n)).

Definition escape_char (c : ascii) : string :=
  let n := Z.of_nat (nat_of_ascii c) in
  if n =? 34 then String "\" (String dquote "")
  else if n =? 92 then "\\"
  else if n =? 8 then "\b"
  else if n =? 9 then "\t"
  else if n =? 10 then "\n"
  else if n =? 12 then "\f"
  else if n =? 13 then "\r"
  else if n <? 32 then "\u" ++ hex4 n
  else String c "".

Definition quote (s : string) : string :=
  String dquote
    (concat "" (map escape_char (list_ascii_of_string s))
     ++ String dquote "").

Fixpoint json (v : value) : option string :=
  match v with
  | Undefined => None
  | Null => Some "null"
  | Bool true => Some "true"
  | Bool false => Some "false"
  | Num n => Some (Number_text n)
  | Str s => Some (quote s)
  | Arr l =>
      Some ("[" ++ concat ","
              (map (fun e => match json e with
                             | Some t => t
                             | None => "null"
                             end) l) ++ "]")
  | Obj ps =>
      Some ("{" ++ concat ","
              (flat_map (fun kv => match json (snd kv) with
                                   | Some t => [quote (fst kv) ++ ":" ++ t]
                                   | None => []
                                   end) ps) ++ "}")
  end.

Definition JSON_stringify (v : value) : value :=
  match json v with Some t => Str t | None => Undefined end.

(** [s.toUpperCase()] on ASCII letters. *)
Definition upper_char (c : ascii) : ascii :=
  let n := nat_of_ascii c in
  if (97 <=? n)%nat && (n <=? 122)%nat then ascii_of_nat (n - 32) else c.

Definition toUpperCase (s : string) : string :=
  string_of_list_ascii (map upper_char (list_ascii_of_string s)).

(** What a [throw] or a rejected promise carries. *)
Record http_response := { status : Z; data : value }.

Record axios_error := {
  response : option http_response;
  code : option string;
  message : string
}.

Inductive exn :=
| AxiosError (e : axios_error)
| Error (msg : string)
| TypeError (msg : string)
| Thrown (v : value).

End JS.
Import JS.

(** ** [src/constants.ts] *)

Definition AUTH_BASE_URL := "https://auth-prod.api.wyze.com".
Definition API_BASE_URL := "https://api.wyzecam.com".
Definition LOCK_BASE_URL := "https://yd-saas-toc.wyzecam.com".
Definition AUTH_API_KEY := "WMXHYf79Nr5gIlt3r0r7p9Tcw5bvs6BB4U8O8nGJ".
Definition APP_NAME := "com.hualai.WyzeCam".
Definition APP_VER := "wyze_developer_api".
Definition APP_VERSION := "wyze_developer_api".
Definition PHONE_ID := "wyze_developer_api".
Definition SC := "wyze_developer_api".
Definition SV := "wyze_developer_api".
Definition PHONE_SYSTEM_TYPE := "1".
Definition FORD_APP_KEY := "275965684684dbdaf29a0ed9".
Definition FORD_APP_SECRET := "4deekof1ba311c5c33a9cb8e12787e8c".
Definition TOKEN_REFRESH_INTERVAL : Z := 48 * 60 * 60 * 1000.

Module PropertyId.
Definition POWER := "P3".
Definition BRIGHTNESS := "P1501".
Definition COLOR_TEMP := "P1502".
End PropertyId.

Module PropertyValue.
Definition ON := "1".
Definition OFF := "0".
End PropertyValue.

(** ** [src/types.ts]

    The token fields hold whatever the response carried when the pair
    was stored. *)

Module Types.

Record WyzeCredentials := {
  email : string;
  password : string;
  apiKey : string;
  keyId : string
}.

Record WyzeTokens := {
  accessToken : value;
  refreshToken : value;
  expiresAt : Z
}.

End Types.
Import Types.

(** ** The outside world and the module state *)

Record request := {
  verb : string;
  url : string;
  headers : list (string * string);
  payload : value
}.

(** How a request ends: a 2xx response with its parsed body, or a
    rejection (an [AxiosError] for a status outside 2xx, a timeout or a
    network fault). *)
Inductive reply :=
| Responded (body : value)
| Rejected (e : exn).

Record env := {
  clock : nat -> Z;
  server : nat -> reply
}.

(** The two module-level variables of [auth.ts], the number of clock
    reads so far and the requests sent so far, newest first. *)
Record state := {
  currentTokens : option WyzeTokens;
  credentials : option WyzeCredentials;
  reads : nat;
  sent : list request
}.

Inductive outcome (A : Type) :=
| Ok (a : A)
| Throw (e : exn).
Arguments Ok {A} a.
Arguments Throw {A} e.

Definition M (A : Type) : Type := state -> outcome A * state.

Definition ret {A} (a : A) : M A := fun s => (Ok a, s).

Definition throw {A} (e : exn) : M A := fun s => (Throw e, s).

Definition bind {A B} (m : M A) (k : A -> M B) : M B :=
  fun s => match m s with
           | (Ok a, s') => k a s'
           | (Throw e, s') => (Throw e, s')
           end.

Definition try_catch {A} (m : M A) (handler : exn -> M A) : M A :=
  fun s => match m s with
           | (Ok a, s') => (Ok a, s')
           | (Throw e, s') => handler e s'
           end.

Declare Scope js_scope.
Delimit Scope js_scope with js.
Notation "x <- m ;; k" := (bind m (fun x => k))
  (at level 61, m at next level, right associativity) : js_scope.
Notation "m ;; k" := (bind m (fun _ => k))
  (at level 61, right associativity) : js_scope.
Local Open Scope js_scope.

Definition gets {A} (f : state -> A) : M A := fun s => (Ok (f s), s).

(** Conversions that throw.  [String(v)], a template literal, a
    property key, [join] and a comparison with a number all convert
    their operand to a primitive first, and throw a TypeError when
    that cannot be done. *)
Definition unprintable : exn :=
  TypeError "Cannot convert object to primitive value".

Definition and_then {A B} (o : outcome A) (k : A -> outcome B) : outcome B :=
  match o with Ok a => k a | Throw e => Throw e end.

Definition ToString (v : value) : outcome string :=
  if printable v then Ok (to_string v) else Throw unprintable.

Definition Array_join (sep : string) (l : list value) : outcome string :=
  if forallb printable l then Ok (join sep l) else Throw unprintable.

Definition greater_than_0 (v : value) : outcome bool :=
  if printable v then Ok (gt0 v) else Throw unprintable.

(** A computation that only returns or throws. *)
Definition lift {A} (o : outcome A) : M A := fun s => (o, s).

Definition set_tokens (t : WyzeTokens) : M unit :=
  fun s => (Ok tt, {| currentTokens := Some t; credentials := credentials s;
                      reads := reads s; sent := sent s |}).

(** The property read [v.k], throwing as JavaScript does on [undefined]
    and [null]. *)
Definition prop (v : value) (k : string) : M value :=
  match get v k with
  | Some x => ret x
  | None =>
      throw (TypeError ("Cannot read properties of " ++ to_string v
                        ++ " (reading '" ++ k ++ "')"))
  end.

Section World.

Variable w : env.

(** [Date.now()] *)
Definition Date_now : M Z :=
  fun s => (Ok (clock w (reads s)),
            {| currentTokens := currentTokens s;
               credentials := credentials s;
               reads := S (reads s); sent := sent s |}).

(** [await axios.post(url, body, {headers})] and [await axios.get]:
    the request is recorded and the world answers the n-th request. *)
Definition axios (r : request) : M value :=
  fun s =>
    let s' := {| currentTokens := currentTokens s;
                 credentials := credentials s;
                 reads := reads s; sent := r :: sent s |} in
    match server w (List.length (sent s)) with
    | Responded body => (Ok body, s')
    | Rejected e => (Throw e, s')
    end.

Definition axios_post (u : string) (body : value)
    (hs : list (string * string)) : M value :=
  axios {| verb := "POST"; url := u; headers := hs; payload := body |}.

Definition axios_get (u : string) (params : value) : M value :=
  axios {| verb := "GET"; url := u; headers := []; payload := params |}.

(** ** [src/auth.ts] *)

(** Triple MD5 hash for password *)
Definition hashPassword (password : string) : string :=
  fold_left (fun hash _ => MD5.md5_hex hash) (seq 0 3) password.

Definition setCredentials (creds : WyzeCredentials) : M unit :=
  fun s => (Ok tt, {| currentTokens := currentTokens s;
                      credentials := Some creds;
                      reads := reads s; sent := sent s |}).

Definition getTokens : M (option WyzeTokens) := gets currentTokens.

Definition isTokenExpired : M bool :=
  t <- gets currentTokens ;;
  match t with
  | None => ret true
  | Some tk => now <- Date_now ;; ret (expiresAt tk <=? now)
  end.

Definition isTokenNearExpiry : M bool :=
  t <- gets currentTokens ;;
  match t with
  | None => ret true
  | Some tk =>
      now <- Date_now ;; ret (expiresAt tk - 60 * 60 * 1000 <=? now)
  end.

Definition auth_headers (creds : WyzeCredentials)
  : list (string * string) :=
  [("Content-Type", "application/json"); ("x-api-key", AUTH_API_KEY);
   ("keyid", keyId creds); ("apikey", apiKey creds)].

Definition mfa_message (options : string) : string :=
  "MFA is required for this account. MFA options: " ++ options ++ ". "
  ++ "MFA is not yet supported. Please disable MFA or use a different authentication method.".

(** The body of the [try] block of [login] after the response has
    arrived, in its three parts.  First, where the token pair is. *)
Definition login_extract (data : value) : M (value * value) :=
  top <- prop data "access_token" ;;
  if truthy top then
    r <- prop data "refresh_token" ;; ret (top, r)
  else
    d <- prop data "data" ;;
    if truthy (get_opt d "access_token") then
      a <- prop d "access_token" ;;
      r <- prop d "refresh_token" ;; ret (a, r)
    else ret (Undefined, Undefined).

(** Check for errors (wrapped format only) *)
Definition login_check (data accessToken : value) : M unit :=
  if negb (truthy accessToken) then
    code <- prop data "code" ;;
    if negb (strict_eq code (Str "1")) && negb (strict_eq code (Num 1))
    then
      d <- prop data "data" ;;
      let options := get_opt d "mfa_options" in
      required <- (if truthy options then
                     len <- prop options "length" ;;
                     lift (greater_than_0 len)
                   else ret false) ;;
      (if required then
         match options with
         | Arr l =>
             offered <- lift (Array_join ", " l) ;;
             throw (Error (mfa_message offered))
         | _ => throw (TypeError
                  "data.data.mfa_options.join is not a function")
         end
       else ret tt) ;;
      msg <- prop data "msg" ;;
      let errorMsg :=
        or_ (or_ (or_ msg (get_opt data "message"))
                 (get_opt data "description"))
            (JSON_stringify data) in
      code_text <- lift (ToString code) ;;
      msg_text <- lift (ToString errorMsg) ;;
      throw (Error ("Login failed (code " ++ code_text ++ "): "
                    ++ msg_text))
    else ret tt
  else ret tt.

(** The last test, and the store of the new pair. *)
Definition login_store (accessToken refreshToken : value) : M WyzeTokens :=
  if negb (truthy accessToken) || negb (truthy refreshToken) then
    throw (Error "Login failed: No access token in response")
  else
    now <- Date_now ;;
    let tokens := {| accessToken := accessToken;
                     Types.refreshToken := refreshToken;
                     expiresAt := now + TOKEN_REFRESH_INTERVAL |} in
    set_tokens tokens ;;
    ret tokens.

Definition login_parse (data : value) : M WyzeTokens :=
  pair <- login_extract data ;;
  login_check data (fst pair) ;;
  login_store (fst pair) (snd pair).

(** The [catch] block of [login]. *)
Definition login_catch (error : exn) : M WyzeTokens :=
  match error with
  | AxiosError e =>
      match response e with
      | Some r =>
          if status r =? 401 then
            throw (Error "Invalid credentials. Please check your email, password, API key, and key ID.")
          else
            let errorMsg :=
              or_ (or_ (or_ (get_opt (data r) "msg")
                            (get_opt (data r) "message"))
                       (get_opt (data r) "description"))
                  (Str (message e)) in
            msg_text <- lift (ToString errorMsg) ;;
            throw (Error ("Login request failed (" ++ decimal (status r)
                          ++ "): " ++ msg_text))
      | None =>
          throw (Error ("Login request failed (undefined): " ++ message e))
      end
  | _ => throw error
  end.

(** Login to Wyze API *)
Definition login : M WyzeTokens :=
  c <- gets credentials ;;
  match c with
  | None => throw (Error "Credentials not set. Call setCredentials first.")
  | Some creds =>
      let hashedPassword := hashPassword (password creds) in
      t <- Date_now ;;
      let nonce := decimal t in
      try_catch
        (data <- axios_post (AUTH_BASE_URL ++ "/api/user/login")
                   (Obj [("email", Str (email creds));
                         ("password", Str hashedPassword);
                         ("nonce", Str nonce)])
                   (auth_headers creds) ;;
         login_parse data)
        login_catch
  end.

(** The [try] block of [refreshToken], from the arrival of the response
    on.  [return login()] hands back the promise of [login] without
    awaiting it, so a rejection of that promise is not caught by the
    enclosing [try]: the block reports [None] and [login] runs after
    it, like the [login] of the [catch] block. *)
Definition refresh_parse (data : value) : M (option WyzeTokens) :=
  code <- prop data "code" ;;
  if negb (strict_eq code (Str "1")) && negb (strict_eq code (Num 1))
  then ret None
  else
    d <- prop data "data" ;;
    a <- prop d "access_token" ;;
    r <- prop d "refresh_token" ;;
    now <- Date_now ;;
    let tokens := {| accessToken := a;
                     Types.refreshToken := r;
                     expiresAt := now + TOKEN_REFRESH_INTERVAL |} in
    set_tokens tokens ;;
    ret (Some tokens).

Definition refresh_try (tk : WyzeTokens) (creds : WyzeCredentials)
  : M (option WyzeTokens) :=
  ts <- Date_now ;;
  data <- axios_post (API_BASE_URL ++ "/app/user/refresh_token")
            (Obj [("refresh_token", Types.refreshToken tk);
                  ("app_name", Str APP_NAME);
                  ("app_ver", Str APP_VER);
                  ("app_version", Str APP_VERSION);
                  ("phone_id", Str PHONE_ID);
                  ("phone_system_type", Str PHONE_SYSTEM_TYPE);
                  ("sc", Str SC);
                  ("sv", Str SV);
                  ("ts", Num ts)])
            (auth_headers creds) ;;
  refresh_parse data.

(** Refresh access token *)
Definition refreshToken : M WyzeTokens :=
  t <- gets currentTokens ;;
  match t with
  | None => login
  | Some tk =>
      c <- gets credentials ;;
      match c with
      | None =>
          throw (Error "Credentials not set. Call setCredentials first.")
      | Some creds =>
          r <- try_catch (refresh_try tk creds) (fun _ => ret None) ;;
          match r with
          | Some tokens => ret tokens
          | None => login
          end
      end
  end.

(** The last statements of [ensureValidToken]: the access token now
    in the store. *)
Definition current_access_token : M value :=
  t <- gets currentTokens ;;
  match t with
  | None => throw (Error "Failed to obtain access token")
  | Some tk => ret (accessToken tk)
  end.

(** Ensure we have a valid token *)
Definition ensureValidToken : M value :=
  t <- gets currentTokens ;;
  (match t with
   | None => login ;; ret tt
   | Some _ =>
       expired <- isTokenExpired ;;
       if expired then login ;; ret tt
       else
         near <- isTokenNearExpiry ;;
         if near then refreshToken ;; ret tt else ret tt
   end) ;;
  current_access_token.

End World.

(** ** JavaScript numbers as arguments

    A [number] argument is NaN, an infinity or a finite value; every
    finite double is a rational, so the finite case takes any rational.
    [Math.round] yields NaN, an infinity or an integer (the negative
    zero it can yield is not told apart from zero: the lower bounds of
    the clamps below are positive and absorb either). *)

Inductive number :=
| NaN
| Infinity (negative : bool)
| Finite (q : Q).

Inductive integral :=
| INaN
| IInfinity (negative : bool)
| Int (z : Z).

(** The integer closest to the argument, the one closer to +Infinity on
    a tie. *)
Definition Math_round (x : number) : integral :=
  match x with
  | NaN => INaN
  | Infinity b => IInfinity b
  | Finite q => Int (Qfloor (q + (1 # 2)))
  end.

Definition Math_min (a b : integral) : integral :=
  match a, b with
  | INaN, _ | _, INaN => INaN
  | IInfinity true, _ | _, IInfinity true => IInfinity true
  | IInfinity false, y => y
  | x, IInfinity false => x
  | Int x, Int y => Int (Z.min x y)
  end.

Definition Math_max (a b : integral) : integral :=
  match a, b with
  | INaN, _ | _, INaN => INaN
  | IInfinity false, _ | _, IInfinity false => IInfinity false
  | IInfinity true, y => y
  | x, IInfinity true => x
  | Int x, Int y => Int (Z.max x y)
  end.

(** [value.toString()]; an integer it is applied to has been clamped,
    and is printed in its decimal form. *)
Definition Number_toString (x : integral) : string :=
  match x with
  | INaN => "NaN"
  | IInfinity false => "Infinity"
  | IInfinity true => "-Infinity"
  | Int z => decimal z
  end.

(** ** [src/api.ts] *)

(** [Array.prototype.sort()] with the default comparison: the strings
    in ascending order of their code units. *)
Fixpoint insert (k : string) (l : list string) : list string :=
  match l with
  | [] => [k]
  | h :: t => if (k <=? h)%string then k :: l else h :: insert k t
  end.

Definition sort (l : list string) : list string := fold_right insert [] l.

(** [array.map(f)] for a function that only returns or throws. *)
Fixpoint Array_map_pure {A B} (f : A -> outcome B) (l : list A)
  : outcome (list B) :=
  match l with
  | [] => Ok []
  | x :: rest =>
      and_then (f x)
        (fun y => and_then (Array_map_pure f rest) (fun ys => Ok (y :: ys)))
  end.

(** A [Record<string, string>] is its list of own properties in the
    order [Object.keys] enumerates them; [params[k]] is [own k params]. *)
Definition Object_keys (params : list (string * value)) : list string :=
  map fst params.

(** Ford signature for lock API *)
Definition createFordSignature (method path : string)
    (params : list (string * value)) (timestamp : string)
  : outcome string :=
  let sortedKeys := sort (Object_keys params) in
  and_then
    (Array_map_pure
       (fun k => and_then (ToString (own k params))
                   (fun v => Ok (k ++ "=" ++ v)))
       sortedKeys)
    (fun parts =>
       let paramString := concat "&" parts in
       let signString :=
         toUpperCase method ++ path ++ paramString ++ FORD_APP_SECRET in
       Ok (MD5.md5_hex signString)).

(** Handle API errors *)
Definition handleApiError (error : exn) : outcome string :=
  match error with
  | AxiosError e =>
      match response e with
      | Some r =>
          let status := status r in
          let msg := nullish (nullish (get_opt (data r) "msg")
                                      (get_opt (data r) "message"))
                             (Str "Unknown error") in
          if status =? 401 then
            Ok "Error: Authentication failed. Please check your credentials."
          else if status =? 403 then
            Ok "Error: Access denied. You may not have permission for this operation."
          else if status =? 404 then
            Ok "Error: Resource not found. Please check the device MAC address."
          else if status =? 429 then
            Ok "Error: Rate limit exceeded. Please wait before making more requests."
          else
            and_then (ToString msg)
              (fun msg_text =>
                 Ok ("Error: API request failed (" ++ decimal status ++ "): "
                     ++ msg_text))
      | None =>
          match code e with
          | Some c =>
              if (c =? "ECONNABORTED")%string then
                Ok "Error: Request timed out. Please try again."
              else if (c =? "ENOTFOUND")%string then
                Ok "Error: Unable to reach Wyze servers. Please check your internet connection."
              else Ok ("Error: Network error: " ++ message e)
          | None => Ok ("Error: Network error: " ++ message e)
          end
      end
  | Error m | TypeError m => Ok ("Error: " ++ m)
  | Thrown v => and_then (ToString v) (fun text => Ok ("Error: " ++ text))
  end.

Inductive lock_action := lock | unlock.

Definition action_name (a : lock_action) : string :=
  match a with lock => "lock" | unlock => "unlock" end.

Section Api.

Variable w : env.

(** Standard request payload *)
Definition createBasePayload (accessToken : value)
  : M (list (string * value)) :=
  ts <- Date_now w ;;
  ret [("access_token", accessToken);
       ("app_name", Str APP_NAME);
       ("app_ver", Str APP_VER);
       ("app_version", Str APP_VERSION);
       ("phone_id", Str PHONE_ID);
       ("phone_system_type", Str PHONE_SYSTEM_TYPE);
       ("sc", Str SC);
       ("sv", Str SV);
       ("ts", Num ts)].

Definition json_headers : list (string * string) :=
  [("Content-Type", "application/json")].

(** The check every call makes on the envelope of the response. *)
Definition check_code (what : string) (data : value) : M unit :=
  code <- prop data "code" ;;
  if negb (strict_eq code (Str "1")) && negb (strict_eq code (Num 1))
  then
    msg <- prop data "msg" ;;
    msg_text <- lift (ToString msg) ;;
    throw (Error (what ++ ": " ++ msg_text))
  else ret tt.

(** Set device property *)
Definition setDeviceProperty (deviceMac deviceModel propertyId
    propertyValue : string) : M unit :=
  accessToken <- ensureValidToken w ;;
  base <- createBasePayload accessToken ;;
  let payload :=
    Obj (base ++ [("device_mac", Str deviceMac);
                  ("device_model", Str deviceModel);
                  ("pid", Str propertyId);
                  ("pvalue", Str propertyValue)])%list in
  data <- axios_post w (API_BASE_URL ++ "/app/v2/device/set_property")
            payload json_headers ;;
  check_code "Failed to set property" data.

(** Control lock *)
Definition controlLock (deviceMac deviceModel : string)
    (action : lock_action) : M unit :=
  accessToken <- ensureValidToken w ;;
  t <- Date_now w ;;
  let timestamp := decimal t in
  let path := "/openapi/lock/v1/control" in
  let params :=
    [("access_token", accessToken);
     ("key", Str FORD_APP_KEY);
     ("timestamp", Str timestamp);
     ("action", Str (action_name action));
     ("uuid", Str deviceMac)] in
  sign <- lift (createFordSignature "POST" path params timestamp) ;;
  data <- axios_post w (LOCK_BASE_URL ++ path)
            (Obj (params ++ [("sign", Str sign)])%list) json_headers ;;
  check_code ("Failed to " ++ action_name action ++ " lock") data.

(** Get lock info *)
Definition getLockInfo (deviceMac : string) : M value :=
  accessToken <- ensureValidToken w ;;
  t <- Date_now w ;;
  let timestamp := decimal t in
  let path := "/openapi/lock/v1/info" in
  let params :=
    [("access_token", accessToken);
     ("key", Str FORD_APP_KEY);
     ("timestamp", Str timestamp);
     ("uuid", Str deviceMac);
     ("with_keypad", Str "1")] in
  sign <- lift (createFordSignature "GET" path params timestamp) ;;
  data <- axios_get w (LOCK_BASE_URL ++ path)
            (Obj (params ++ [("sign", Str sign)])%list) ;;
  check_code "Failed to get lock info" data ;;
  prop data "data".

(** Helper: Turn device on/off *)
Definition setDevicePower (deviceMac deviceModel : string) (on : bool)
  : M unit :=
  setDeviceProperty deviceMac deviceModel PropertyId.POWER
    (if on then PropertyValue.ON else PropertyValue.OFF).

(** Helper: Set brightness (1-100) *)
Definition setDeviceBrightness (deviceMac deviceModel : string)
    (brightness : number) : M unit :=
  let value := Math_max (Int 1) (Math_min (Int 100) (Math_round brightness)) in
  setDeviceProperty deviceMac deviceModel PropertyId.BRIGHTNESS
    (Number_toString value).

(** Helper: Set color temperature (2700-6500 Kelvin) *)
Definition setDeviceColorTemp (deviceMac deviceModel : string)
    (colorTemp : number) : M unit :=
  let value :=
    Math_max (Int 2700) (Math_min (Int 6500) (Math_round colorTemp)) in
  setDeviceProperty deviceMac deviceModel PropertyId.COLOR_TEMP
    (Number_toString value).

End Api.

(** ** [src/auth.ts]: the start-up configuration *)

(** [!v] for a variable of [process.env], which is a string or
    undefined. *)
Definition env_present (v : option string) : bool :=
  match v with Some s => negb (s =? "")%string | None => false end.

Definition env_text (v : option string) : string :=
  match v with Some s => s | None => "" end.

(** Initialize authentication from environment variables *)
Definition initAuthFromEnv (process_env : string -> option string)
  : M unit :=
  let email := process_env "WYZE_EMAIL" in
  let password := process_env "WYZE_PASSWORD" in
  let apiKey := process_env "WYZE_API_KEY" in
  let keyId := process_env "WYZE_KEY_ID" in
  if negb (env_present email) then
    throw (Error "WYZE_EMAIL environment variable is required")
  else if negb (env_present password) then
    throw (Error "WYZE_PASSWORD environment variable is required")
  else if negb (env_present apiKey) then
    throw (Error "WYZE_API_KEY environment variable is required")
  else if negb (env_present keyId) then
    throw (Error "WYZE_KEY_ID environment variable is required")
  else
    setCredentials {| Types.email := env_text email;
                      Types.password := env_text password;
                      Types.apiKey := env_text apiKey;
                      Types.keyId := env_text keyId |}.

(** ** [src/api.ts]: the device catalogue

    The fields of a device are read from the parsed response as they
    are, so the functions that receive them take values.
    [String.prototype.toLowerCase] is a parameter: device names are
    user text in any script. *)

(** [properties[k] = v] on an object created as [{}]: an existing
    property keeps its place, a new one comes last, and the name
    [__proto__] reaches the setter of the prototype and creates no own
    property.  (Names that are array indices, which JavaScript
    enumerates first, keep their place of creation here; what a name
    reads is not affected.) *)
Fixpoint assign (k : string) (v : value) (ps : list (string * value))
  : list (string * value) :=
  match ps with
  | [] => [(k, v)]
  | (k', v') :: ps' =>
      if (k =? k')%string then (k, v) :: ps' else (k', v') :: assign k v ps'
  end.

Definition set_property (k : string) (v : value)
    (ps : list (string * value)) : list (string * value) :=
  if (k =? "__proto__")%string then ps else assign k v ps.

(** What [for (const x of v)] goes through; [None] when [v] is not
    iterable. *)
Definition iterate (v : value) : option (list value) :=
  match v with
  | Arr l => Some l
  | Str s => Some (map (fun c => Str (String c "")) (list_ascii_of_string s))
  | _ => None
  end.

(** The loop of [getDeviceStatus]: it stops at the first item whose
    [pid] cannot be read or cannot be made a property name, and what it
    has written by then stays. *)
Fixpoint collect (items : list value) (properties : list (string * value))
  : list (string * value) :=
  match items with
  | [] => properties
  | item :: rest =>
      match get item "pid" with
      | None => properties
      | Some pid =>
          match ToString pid with
          | Throw _ => properties
          | Ok name =>
              collect rest
                (set_property name (get_opt item "value") properties)
          end
      end
  end.

(** The own properties a spread [{...v}] copies from an object. *)
Definition spread (v : value) : list (string * value) :=
  match v with Obj ps => ps | _ => [] end.

(** Convert device to simplified info *)
Definition toDeviceInfo (device : value) : M value :=
  mac <- prop device "mac" ;;
  nickname <- prop device "nickname" ;;
  product_type <- prop device "product_type" ;;
  product_model <- prop device "product_model" ;;
  is_online <- prop device "is_online" ;;
  firmware_ver <- prop device "firmware_ver" ;;
  ret (Obj [("mac", mac);
            ("nickname", nickname);
            ("product_type", product_type);
            ("product_model", product_model);
            ("is_online", is_online);
            ("firmware_ver", firmware_ver)]).

Section Catalog.

Variable w : env.
Variable toLowerCase : string -> string.

(** Get list of all devices *)
Definition getDeviceList : M value :=
  accessToken <- ensureValidToken w ;;
  base <- createBasePayload w accessToken ;;
  data <- axios_post w (API_BASE_URL ++ "/app/v2/home_page/get_object_list")
            (Obj base) json_headers ;;
  check_code "Failed to get device list" data ;;
  d <- prop data "data" ;;
  device_list <- prop d "device_list" ;;
  ret (or_ device_list (Arr [])).

(** Get device properties *)
Definition getDeviceProperties (deviceMac deviceModel : value) : M value :=
  accessToken <- ensureValidToken w ;;
  base <- createBasePayload w accessToken ;;
  let payload :=
    Obj (base ++ [("device_mac", deviceMac);
                  ("device_model", deviceModel)])%list in
  data <- axios_post w (API_BASE_URL ++ "/app/v2/device/get_property_list")
            payload json_headers ;;
  check_code "Failed to get device properties" data ;;
  prop data "data".

(** Run device action *)
Definition runDeviceAction (instanceId providerKey actionKey : string)
    (actionParams : value) : M unit :=
  accessToken <- ensureValidToken w ;;
  base <- createBasePayload w accessToken ;;
  let payload :=
    Obj (base ++ [("instance_id", Str instanceId);
                  ("provider_key", Str providerKey);
                  ("action_key", Str actionKey);
                  ("action_params", or_ actionParams (Obj []))])%list in
  data <- axios_post w (API_BASE_URL ++ "/app/v2/auto/run_action")
            payload json_headers ;;
  check_code "Failed to run action" data.

(** [v.toLowerCase()] *)
Definition lower (what : string) (v : value) : M string :=
  match v with
  | Str s => ret (toLowerCase s)
  | Undefined | Null =>
      throw (TypeError ("Cannot read properties of " ++ to_string v
                        ++ " (reading 'toLowerCase')"))
  | _ => throw (TypeError (what ++ ".toLowerCase is not a function"))
  end.

(** The test of [findDevice]; the nickname is looked at only when the
    MAC address does not match. *)
Definition device_matches (searchLower : string) (d : value) : M bool :=
  mac <- prop d "mac" ;;
  m <- lower "d.mac" mac ;;
  if (m =? searchLower)%string then ret true
  else
    nickname <- prop d "nickname" ;;
    n <- lower "d.nickname" nickname ;;
    ret (n =? searchLower)%string.

(** [Array.prototype.find] *)
Fixpoint Array_find (test : value -> M bool) (l : list value) : M value :=
  match l with
  | [] => ret Undefined
  | d :: rest =>
      found <- test d ;;
      if found then ret d else Array_find test rest
  end.

(** Find device by MAC or nickname *)
Definition findDevice (identifier : string) : M value :=
  devices <- getDeviceList ;;
  let searchLower := toLowerCase identifier in
  found <- match devices with
           | Arr l => Array_find (device_matches searchLower) l
           | _ => throw (TypeError "devices.find is not a function")
           end ;;
  ret (or_ found Null).

(** Get device status with properties *)
Definition getDeviceStatus (device : value) : M value :=
  properties <-
    try_catch
      (mac <- prop device "mac" ;;
       product_model <- prop device "product_model" ;;
       props <- getDeviceProperties mac product_model ;;
       property_list <- prop props "property_list" ;;
       match iterate (or_ property_list (Arr [])) with
       | Some items => ret (collect items [])
       | None => throw (TypeError "props.property_list is not iterable")
       end)
      (fun _ => ret []) ;;
  info <- toDeviceInfo device ;;
  ret (Obj (spread info ++ [("properties", Obj properties)])%list).

End Catalog.

(** ** The tool layer ([src/index.ts]): listing the devices *)

Definition CHARACTER_LIMIT : Z := 25000.

Definition nl : string := String (ascii_of_nat 10) "".

(** [JSON.stringify(v, null, 2)] *)
Fixpoint json_pretty (indent : string) (v : value) : option string :=
  match v with
  | Undefined => None
  | Null => Some "null"
  | Bool true => Some "true"
  | Bool false => Some "false"
  | Num n => Some (Number_text n)
  | Str s => Some (quote s)
  | Arr l =>
      match l with
      | [] => Some "[]"
      | _ =>
          Some ("[" ++ nl
                ++ concat ("," ++ nl)
                     (map (fun e => indent ++ "  "
                                    ++ match json_pretty (indent ++ "  ") e with
                                       | Some t => t
                                       | None => "null"
                                       end) l)
                ++ nl ++ indent ++ "]")
      end
  | Obj ps =>
      match flat_map
              (fun kv => match json_pretty (indent ++ "  ") (snd kv) with
                         | Some t => [indent ++ "  " ++ quote (fst kv)
                                      ++ ": " ++ t]
                         | None => []
                         end) ps with
      | [] => Some "{}"
      | entries =>
          Some ("{" ++ nl ++ concat ("," ++ nl) entries
                ++ nl ++ indent ++ "}")
      end
  end.

Definition JSON_stringify_2 (v : value) : value :=
  match json_pretty "" v with Some t => Str t | None => Undefined end.

(** The map [byType] of [formatDevicesMarkdown]: its entries in the
    order of their creation.  Keys are compared as [Map] compares
    them, which for the primitive values is [strict_eq]. *)
Fixpoint byType_add (key device : value)
    (groups : list (value * list value)) : list (value * list value) :=
  match groups with
  | [] => [(key, [device])]
  | (k, ds) :: rest =>
      if strict_eq k key then (k, (ds ++ [device])%list) :: rest
      else (k, ds) :: byType_add key device rest
  end.

Fixpoint byType_fill (devices : list value)
    (groups : list (value * list value)) : M (list (value * list value)) :=
  match devices with
  | [] => ret groups
  | device :: rest =>
      product_type <- prop device "product_type" ;;
      byType_fill rest
        (byType_add (or_ product_type (Str "Unknown")) device groups)
  end.

(** The lines of one device. *)
Definition device_lines (device : value) : M (list string) :=
  is_online <- prop device "is_online" ;;
  let status := if truthy is_online then "Online" else "Offline" in
  nickname <- prop device "nickname" ;;
  nickname_text <- lift (ToString nickname) ;;
  mac <- prop device "mac" ;;
  mac_text <- lift (ToString mac) ;;
  product_model <- prop device "product_model" ;;
  model_text <- lift (ToString product_model) ;;
  firmware_ver <- prop device "firmware_ver" ;;
  firmware <- (if truthy firmware_ver then
                 firmware_text <- lift (ToString firmware_ver) ;;
                 ret ["- **Firmware**: " ++ firmware_text]
               else ret []) ;;
  ret (("### " ++ nickname_text)
       :: ("- **MAC**: " ++ mac_text)
       :: ("- **Model**: " ++ model_text)
       :: ("- **Status**: " ++ status)
       :: List.app firmware [""]).

Fixpoint devices_lines (devices : list value) : M (list string) :=
  match devices with
  | [] => ret []
  | device :: rest =>
      lines <- device_lines device ;;
      more <- devices_lines rest ;;
      ret (lines ++ more)%list
  end.

Fixpoint groups_lines (groups : list (value * list value))
  : M (list string) :=
  match groups with
  | [] => ret []
  | (type, typeDevices) :: rest =>
      type_text <- lift (ToString type) ;;
      lines <- devices_lines typeDevices ;;
      more <- groups_lines rest ;;
      ret (("## " ++ type_text ++ " ("
            ++ decimal (Z.of_nat (List.length typeDevices)) ++ ")")
           :: "" :: List.app lines more)
  end.

(** Helper: Format devices list as markdown *)
Definition formatDevicesMarkdown (devices : list value) : M string :=
  match devices with
  | [] => ret "No devices found."
  | _ =>
      byType <- byType_fill devices [] ;;
      lines <- groups_lines byType ;;
      ret (concat nl
             (("# Wyze Devices ("
               ++ decimal (Z.of_nat (List.length devices)) ++ " total)")
              :: "" :: lines))
  end.

Inductive ResponseFormat := MARKDOWN | JSON.

Record ListDevicesParams := {
  device_type : option string;
  response_format : ResponseFormat
}.

(** What a tool hands back: its text, its structured content
    ([Undefined] when it has none) and the error flag. *)
Record tool_result := {
  text : string;
  structuredContent : value;
  isError : bool
}.

(** [array.filter(test)] and [array.map(f)] *)
Fixpoint Array_filter (test : value -> M bool) (l : list value)
  : M (list value) :=
  match l with
  | [] => ret []
  | d :: rest =>
      keep <- test d ;;
      kept <- Array_filter test rest ;;
      ret (if keep then d :: kept else kept)
  end.

Fixpoint Array_map (f : value -> M value) (l : list value)
  : M (list value) :=
  match l with
  | [] => ret []
  | d :: rest =>
      x <- f d ;;
      xs <- Array_map f rest ;;
      ret (x :: xs)
  end.

(** Truncate if needed *)
Definition truncate (textContent : string) : string :=
  if CHARACTER_LIMIT <? Z.of_nat (String.length textContent) then
    substring 0 (Z.to_nat CHARACTER_LIMIT) textContent
    ++ nl ++ nl
    ++ "... (truncated, use device_type filter to see fewer results)"
  else textContent.

Section Tools.

Variable w : env.
Variable toLowerCase : string -> string.

(** The handler of [wyze_list_devices]. *)
Definition wyze_list_devices (params : ListDevicesParams) : M tool_result :=
  try_catch
    (devices <- getDeviceList w ;;
     devices <-
       (if env_present (device_type params) then
          let filterType := toLowerCase (env_text (device_type params)) in
          match devices with
          | Arr l =>
              kept <- Array_filter
                        (fun d =>
                           product_type <- prop d "product_type" ;;
                           t <- lower toLowerCase "d.product_type"
                                  product_type ;;
                           ret (t =? filterType)%string) l ;;
              ret (Arr kept)
          | _ => throw (TypeError "devices.filter is not a function")
          end
        else ret devices) ;;
     deviceInfos <-
       match devices with
       | Arr l => Array_map toDeviceInfo l
       | _ => throw (TypeError "devices.map is not a function")
       end ;;
     let output :=
       Obj [("count", Num (Z.of_nat (List.length deviceInfos)));
            ("devices", Arr deviceInfos)] in
     textContent <-
       match response_format params with
       | MARKDOWN => formatDevicesMarkdown deviceInfos
       | JSON => ret (to_string (JSON_stringify_2 output))
       end ;;
     ret {| text := truncate textContent;
            structuredContent := output;
            isError := false |})
    (fun error =>
       error_text <- lift (handleApiError error) ;;
       ret {| text := error_text;
              structuredContent := Undefined;
              isError := true |}).

End Tools.

(** ** Vocabulary of the statements *)

(** The state after [n] more clock reads. *)
Definition tick (n : nat) (s : state) : state :=
  {| currentTokens := currentTokens s; credentials := credentials s;
     reads := (n + reads s)%nat; sent := sent s |}.

(** The state after one more request. *)
Definition sending (r : request) (s : state) : state :=
  {| currentTokens := currentTokens s; credentials := credentials s;
     reads := reads s; sent := r :: sent s |}.

(** The state after the store has taken a new pair. *)
Definition storing (t : WyzeTokens) (s : state) : state :=
  {| currentTokens := Some t; credentials := credentials s;
     reads := reads s; sent := sent s |}.

Fixpoint string_forall (p : ascii -> bool) (s : string) : bool :=
  match s with
  | EmptyString => true
  | String c s' => p c && string_forall p s'
  end.

Definition is_lower_hex (c : ascii) : bool :=
  match index 0 (String c "") "0123456789abcdef" with
  | Some _ => true
  | None => false
  end.


(** A token field is populated when the program itself would accept it
    as a token: the test [!accessToken || !refreshToken] of [login]. *)
Definition populated (t : WyzeTokens) : bool :=
  truthy (accessToken t) && truthy (Types.refreshToken t).

(** The request [login] sends when the clock reads [t], and the one
    [refreshToken] sends for the pair [tk]. *)
Definition login_request (creds : WyzeCredentials) (t : Z) : request :=
  {| verb := "POST";
     url := AUTH_BASE_URL ++ "/api/user/login";
     headers := auth_headers creds;
     payload := Obj [("email", Str (email creds));
                     ("password", Str (hashPassword (password creds)));
                     ("nonce", Str (decimal t))] |}.

Definition refresh_request (tk : WyzeTokens) (creds : WyzeCredentials)
    (t : Z) : request :=
  {| verb := "POST";
     url := API_BASE_URL ++ "/app/user/refresh_token";
     headers := auth_headers creds;
     payload := Obj [("refresh_token", Types.refreshToken tk);
                     ("app_name", Str APP_NAME);
                     ("app_ver", Str APP_VER);
                     ("app_version", Str APP_VERSION);
                     ("phone_id", Str PHONE_ID);
                     ("phone_system_type", Str PHONE_SYSTEM_TYPE);
                     ("sc", Str SC);
                     ("sv", Str SV);
                     ("ts", Num t)] |}.

(** [code === "1" || code === 1] *)
Definition success_code (c : value) : bool :=
  strict_eq c (Str "1") || strict_eq c (Num 1).

Definition is_nullish (v : value) : bool :=
  match v with Undefined | Null => true | _ => false end.

(** The order of [sort]. *)
Definition str_le (a b : string) : Prop := (a <=? b)%string = true.

(** The integer nearest to a rational, the upper one on a tie, and the
    clamp of an integer to an interval. *)
Definition nearest_integer (q : Q) (z : Z) : Prop :=
  (q - (1 # 2) < inject_Z z /\ inject_Z z <= q + (1 # 2))%Q.

Definition clamp (lo hi z : Z) : Z := Z.max lo (Z.min hi z).

(** Computations that leave the state alone. *)
Definition stateless {A} (m : M A) : Prop :=
  forall s, exists o, m s = (o, s).

(** Sample data for the scenarios of the specification: a world whose
    clock stands at [now] and whose server gives every request the same
    reply, and a store holding a pair issued at [T]. *)
Definition frozen (now : Z) (r : reply) : env :=
  {| clock := fun _ => now; server := fun _ => r |}.

(** A world whose clock stands at [now] and whose server gives the
    replies of a list in turn, then [Rejected (Error "offline")]. *)
Definition scripted (now : Z) (replies : list reply) : env :=
  {| clock := fun _ => now;
     server := fun n => nth n replies (Rejected (Error "offline")) |}.

Definition timed_out : exn :=
  AxiosError {| response := None; code := Some "ECONNABORTED";
                message := "timeout of 30000ms exceeded" |}.

Definition sample_credentials : WyzeCredentials :=
  {| email := "user@example.com"; password := "password";
     apiKey := "api-key"; keyId := "key-id" |}.

Definition issued_at (T : Z) : WyzeTokens :=
  {| accessToken := Str "access-1"; Types.refreshToken := Str "refresh-1";
     expiresAt := T + TOKEN_REFRESH_INTERVAL |}.

Definition holding (t : option WyzeTokens) : state :=
  {| currentTokens := t; credentials := Some sample_credentials;
     reads := 0; sent := [] |}.

Definition hour : Z := 60 * 60 * 1000.
Definition minute : Z := 60 * 1000.

(** The variables [initAuthFromEnv] requires, in the order it checks
    them. *)
Definition required_variables : list string :=
  ["WYZE_EMAIL"; "WYZE_PASSWORD"; "WYZE_API_KEY"; "WYZE_KEY_ID"].

Definition is_axios_error (e : exn) : bool :=
  match e with AxiosError _ => true | _ => false end.

(** The text that follows ["Error: "] when [handleApiError] reports an
    exception that is not an [AxiosError]: the message of an error
    object, and what [String] makes of any other value. *)
Definition exn_text (e : exn) : outcome string :=
  match e with
  | Error m | TypeError m => Ok m
  | Thrown v => ToString v
  | AxiosError a => Ok (message a)
  end.

Definition login_url : string := AUTH_BASE_URL ++ "/api/user/login".
Definition refresh_url : string := API_BASE_URL ++ "/app/user/refresh_token".

(** A device whose MAC address and nickname are strings, and the test
    of [findDevice] on such a device, for a case mapping [lc]. *)
Definition named (d : value) : bool :=
  match get d "mac", get d "nickname" with
  | Some (Str _), Some (Str _) => true
  | _, _ => false
  end.

Definition mac_is (lc : string -> string) (identifier : string) (d : value)
  : bool :=
  match get d "mac" with
  | Some (Str m) => (lc m =? lc identifier)%string
  | _ => false
  end.

Definition nickname_is (lc : string -> string) (identifier : string)
    (d : value) : bool :=
  match get d "nickname" with
  | Some (Str n) => (lc n =? lc identifier)%string
  | _ => false
  end.

Definition answers_to (lc : string -> string) (identifier : string)
    (d : value) : bool :=
  mac_is lc identifier d || nickname_is lc identifier d.

(** The names [toDeviceInfo] keeps. *)
Definition info_names : list string :=
  ["mac"; "nickname"; "product_type"; "product_model"; "is_online";
   "firmware_ver"].

(** The items of a property list that the loop of [getDeviceStatus]
    gets to, which are those before the first item that is [null] or
    whose [pid] cannot be made a name, and the last of the items of a
    list that is filed under the name [k]. *)
Definition readable (item : value) : bool :=
  negb (is_nullish item) && printable (get_opt item "pid").

Fixpoint reached (items : list value) : list value :=
  match items with
  | [] => []
  | item :: rest => if readable item then item :: reached rest else []
  end.

Definition last_filed (k : string) (items : list value) : option value :=
  find (fun item => (to_string (get_opt item "pid") =? k)%string)
       (rev items).

(** A case mapping for the examples: ASCII capitals to small
    letters. *)
Definition ascii_lower (s : string) : string :=
  string_of_list_ascii
    (map (fun c => let n := nat_of_ascii c in
                   if (65 <=? n)%nat && (n <=? 90)%nat
                   then ascii_of_nat (n + 32) else c)
         (list_ascii_of_string s)).

(** A response of the device-list endpoint. *)
Definition listing (devices : list value) : reply :=
  Responded (Obj [("code", Num 1); ("msg", Str "SUCCESS");
                  ("data", Obj [("device_list", Arr devices)])]).

Definition porch : value :=
  Obj [("mac", Str "AA11"); ("nickname", Str "Porch");
       ("product_type", Str "Camera"); ("product_model", Str "WYZE_CAKP2JFUS");
       ("is_online", Bool true); ("enr", Str "secret-enr");
       ("p2p_id", Str "secret-p2p")].

Definition kitchen : value :=
  Obj [("mac", Str "BB22"); ("nickname", Str "Kitchen Plug");
       ("product_type", Str "Plug"); ("product_model", Str "WLPP1");
       ("is_online", Bool false); ("firmware_ver", Str "1.2.0.80")].

Definition decoy : value :=
  Obj [("mac", Str "CC33"); ("nickname", Str "bb22");
       ("product_type", Str "Plug"); ("product_model", Str "WLPP1");
       ("is_online", Bool true)].

(** The heading a device is listed under by [formatDevicesMarkdown],
    the values that [Map] compares by content, the devices whose
    [product_type] is such a value, the distinct headings of a list in
    the order of their first appearance, and the sections that go with
    them: every heading with the devices under it, in the order of the
    list. *)
Definition heading (d : value) : value :=
  or_ (get_opt d "product_type") (Str "Unknown").

Definition primitive (v : value) : bool :=
  match v with Arr _ | Obj _ => false | _ => true end.

Definition typed (d : value) : bool :=
  negb (is_nullish d) && primitive (get_opt d "product_type").

Fixpoint firsts (keys : list value) : list value :=
  match keys with
  | [] => []
  | k :: rest => k :: filter (fun k' => negb (strict_eq k k')) (firsts rest)
  end.

Definition under (k d : value) : bool := strict_eq k (heading d).

Definition sections (devices : list value) : list (value * list value) :=
  map (fun k => (k, filter (under k) devices)) (firsts (map heading devices)).

(** A device whose [product_type] is a string, the test of the filter
    of [wyze_list_devices] on such a device, and what [toDeviceInfo]
    makes of a device. *)
Definition has_type (d : value) : bool :=
  match get d "product_type" with Some (Str _) => true | _ => false end.

Definition type_is (lc : string -> string) (wanted : string) (d : value)
  : bool :=
  match get d "product_type" with
  | Some (Str t) => (lc t =? lc wanted)%string
  | _ => false
  end.

Definition summary (d : value) : value :=
  Obj (map (fun k => (k, get_opt d k)) info_names).

Definition listed (lc : string -> string) (wanted : option string)
    (devices : list value) : list value :=
  if env_present wanted then filter (type_is lc (env_text wanted)) devices
  else devices.

(** A device whose printed fields can all be converted to strings. *)
Definition presentable (d : value) : bool :=
  forallb (fun k => printable (get_opt d k))
    ["nickname"; "mac"; "product_model"; "product_type"; "firmware_ver"].

(** An exception the program makes itself, and the computations that
    throw nothing but such exceptions and those that requests were
    rejected with. *)
Definition own_error (e : exn) : bool :=
  match e with Error _ | TypeError _ => true | _ => false end.

Definition traced {A} (w : env) (m : M A) : Prop :=
  forall s e s',
    m s = (Throw e, s') ->
    own_error e = true \/ exists n, server w n = Rejected e.

(** The structured content of an answer. *)
Definition structuredContent_of (o : outcome tool_result) : option value :=
  match o with Ok res => Some (structuredContent res) | Throw _ => None end.

(** ** The digest *)

Example md5_empty : MD5.md5_hex "" = "d41d8cd98f00b204e9800998ecf8427e".
Proof. vm_compute. reflexivity. Qed.

Example md5_abc : MD5.md5_hex "abc" = "900150983cd24fb0d6963f7d28e17f72".
Proof. vm_compute. reflexivity. Qed.

Example md5_full_block :
  MD5.md5_hex
    "aaaaaaaaaaaaaaaaaaaaaaaaaaaaaaaaaaaaaaaaaaaaaaaaaaaaaaaaaaaaaaaa"
  = "014842d480b571495a4a0363793f7367".
Proof. vm_compute. reflexivity. Qed.

Example md5_two_blocks :
  MD5.md5_hex "aaaaaaaaaaaaaaaaaaaaaaaaaaaaaaaaaaaaaaaaaaaaaaaaaaaaaaaa"
  = "3b0c8ac703f828b04c6c197006d17218".
Proof. vm_compute. reflexivity. Qed.

(** [String] of 2^60, 10^21 and -2^70. *)
Example Number_text_vectors :
  Number_text 1152921504606846976 = "1152921504606847000"
  /\ Number_text 1000000000000000000000 = "1e+21"
  /\ Number_text (-1180591620717411303424) = "-1.1805916207174113e+21"
  /\ Number_text 9007199254740992 = "9007199254740992"
  /\ Number_text 2001 = "2001".
Proof. vm_compute. repeat split. Qed.

Example stringify_sample :
  JSON_stringify (Obj [("code", Num 2); ("msg", Str ""); ("x", Undefined);
                       ("l", Arr [Null; Undefined; Bool true])])
  = Str (String "{" (String dquote ("code" ++ String dquote (":2,"
      ++ String dquote ("msg" ++ String dquote (":" ++ String dquote
      (String dquote ("," ++ String dquote ("l" ++ String dquote
      ":[null,null,true]}"))))))))).
Proof. vm_compute. reflexivity. Qed.

Lemma length_append (a b : string) :
  String.length (a ++ b) = (String.length a + String.length b)%nat.
Proof. induction a as [|c a IH]; simpl; [reflexivity | now rewrite IH]. Qed.

Lemma string_forall_append p (a b : string) :
  string_forall p (a ++ b) = string_forall p a && string_forall p b.
Proof.
  induction a as [|c a IH]; simpl; [reflexivity|].
  now rewrite IH, andb_assoc.
Qed.

Lemma hexdigit_lower_hex (n : Z) : is_lower_hex (MD5.hexdigit n) = true.
Proof.
  unfold MD5.hexdigit.
  assert (H : 0 <= n mod 16 < 16) by (apply Z.mod_pos_bound; lia).
  remember (n mod 16) as m eqn:E. clear E.
  assert (C : m = 0 \/ m = 1 \/ m = 2 \/ m = 3 \/ m = 4 \/ m = 5 \/ m = 6
              \/ m = 7 \/ m = 8 \/ m = 9 \/ m = 10 \/ m = 11 \/ m = 12
              \/ m = 13 \/ m = 14 \/ m = 15) by lia.
  repeat (destruct C as [C | C]; [subst m; reflexivity|]).
  subst m; reflexivity.
Qed.

Lemma hex_byte_shape (b : Z) :
  String.length (MD5.hex_byte b) = 2%nat
  /\ string_forall is_lower_hex (MD5.hex_byte b) = true.
Proof.
  unfold MD5.hex_byte; split; [reflexivity|].
  cbn [string_forall]. now rewrite !hexdigit_lower_hex.
Qed.

Lemma hex_word_shape (x : Z) :
  String.length (MD5.hex_word x) = 8%nat
  /\ string_forall is_lower_hex (MD5.hex_word x) = true.
Proof.
  unfold MD5.hex_word, MD5.le_bytes.
  cbn [seq map concat].
  rewrite !length_append, !string_forall_append.
  repeat match goal with
         | |- context [MD5.hex_byte ?b] =>
             let H := fresh in
             destruct (hex_byte_shape b) as [? H];
             generalize dependent (MD5.hex_byte b); intros
         end.
  split; [cbn; lia|].
  repeat match goal with H : string_forall _ _ = true |- _ =>
    rewrite H; clear H end.
  reflexivity.
Qed.

(** Every digest is 32 lowercase hexadecimal characters. *)
Lemma md5_hex_shape (s : string) :
  String.length (MD5.md5_hex s) = 32%nat
  /\ string_forall is_lower_hex (MD5.md5_hex s) = true.
Proof.
  unfold MD5.md5_hex, MD5.hex.
  generalize (MD5.digest (MD5.bytes_of_string s)); intros r.
  rewrite !length_append, !string_forall_append.
  destruct (hex_word_shape (MD5.ra r)) as [-> ->].
  destruct (hex_word_shape (MD5.rb r)) as [-> ->].
  destruct (hex_word_shape (MD5.rc r)) as [-> ->].
  destruct (hex_word_shape (MD5.rd r)) as [-> ->].
  split; reflexivity.
Qed.

(** ** The password hash *)

Example hashPassword_vector :
  hashPassword "password" = "5a22e6c339c96c9c0513a46e44c39683".
Proof. vm_compute. reflexivity. Qed.

(** C5. [hashPassword] applies the digest exactly three times, the
    first time to the plaintext and then to the hexadecimal digest of
    the pass before, and its result is always a string of 32
    hexadecimal characters.  [hashPassword] is a function of the
    plaintext alone: it has no salt and no iteration count among its
    arguments, so equal plaintexts have equal hashes. *)
Theorem hashPassword_triple_digest :
  forall p : string,
    hashPassword p = MD5.md5_hex (MD5.md5_hex (MD5.md5_hex p))
    /\ String.length (hashPassword p) = 32%nat
    /\ string_forall is_lower_hex (hashPassword p) = true.
Proof.
  intros p.
  assert (E : hashPassword p = MD5.md5_hex (MD5.md5_hex (MD5.md5_hex p)))
    by reflexivity.
  split; [exact E|]. rewrite E.
  destruct (md5_hex_shape (MD5.md5_hex (MD5.md5_hex p))) as [L H].
  repeat split; assumption.
Qed.

(** ** Sorting the parameter names *)

Lemma str_leb_trans (a b c : string) :
  str_le a b -> str_le b c -> str_le a c.
Proof.
  unfold str_le, String.leb.
  revert b c; induction a as [|x a IH]; intros [|y b] [|z c]; simpl;
    try congruence.
  unfold Ascii.compare.
  destruct (N.compare_spec (N_of_ascii x) (N_of_ascii y)) as [E1|L1|G1];
    destruct (N.compare_spec (N_of_ascii y) (N_of_ascii z)) as [E2|L2|G2];
    try congruence; intros H1 H2.
  - rewrite E1, E2, N.compare_refl. now apply IH with b.
  - rewrite E1. now apply N.compare_lt_iff in L2 as ->.
  - rewrite <- E2. now apply N.compare_lt_iff in L1 as ->.
  - assert (L : (N_of_ascii x < N_of_ascii z)%N) by lia.
    now apply N.compare_lt_iff in L as ->.
Qed.

Lemma insert_perm (k : string) (l : list string) :
  Permutation (insert k l) (k :: l).
Proof.
  induction l as [|h t IH]; simpl; [reflexivity|].
  destruct (k <=? h)%string; [reflexivity|].
  rewrite IH. apply perm_swap.
Qed.

Lemma sort_perm (l : list string) : Permutation (sort l) l.
Proof.
  induction l as [|h t IH]; simpl; [reflexivity|].
  rewrite insert_perm. now constructor.
Qed.

Lemma insert_sorted (k : string) (l : list string) :
  Sorted str_le l -> Sorted str_le (insert k l).
Proof.
  induction 1 as [|h t St IH Hd]; simpl.
  - repeat constructor.
  - destruct (k <=? h)%string eqn:E.
    + constructor; [now constructor | now constructor].
    + assert (Hk : str_le h k).
      { destruct (String.leb_total k h) as [C|C]; [congruence | exact C]. }
      constructor; [exact IH|].
      destruct t as [|h' t']; simpl.
      * now constructor.
      * destruct (k <=? h')%string; constructor; [exact Hk|].
        now inversion Hd.
Qed.

Lemma sort_sorted (l : list string) : Sorted str_le (sort l).
Proof.
  induction l as [|h t IH]; simpl; [constructor | now apply insert_sorted].
Qed.

Lemma strongly_sorted (l : list string) :
  Sorted str_le l -> StronglySorted str_le l.
Proof.
  apply Sorted_StronglySorted. intros a b c. apply str_leb_trans.
Qed.

(** A list of strings has one sorted arrangement. *)
Lemma sorted_perm_unique (l1 l2 : list string) :
  Sorted str_le l1 -> Sorted str_le l2 -> Permutation l1 l2 -> l1 = l2.
Proof.
  intros S1 S2. apply strongly_sorted in S1. apply strongly_sorted in S2.
  revert l2 S2.
  induction S1 as [|a l1 S1 IH F1]; intros l2 S2 P.
  - now apply Permutation_nil in P.
  - destruct S2 as [|b l2 S2 F2].
    + symmetry in P. now apply Permutation_nil in P.
    + assert (E : a = b).
      { assert (Ia : In a (b :: l2))
          by (eapply Permutation_in; [exact P | now left]).
        assert (Ib : In b (a :: l1))
          by (eapply Permutation_in; [symmetry; exact P | now left]).
        destruct Ia as [->|Ia]; [reflexivity|].
        destruct Ib as [->|Ib]; [reflexivity|].
        rewrite Forall_forall in F1, F2.
        apply String.leb_antisym; [apply F1, Ib | apply F2, Ia]. }
      subst b. f_equal. apply IH; [exact S2|].
      now apply Permutation_cons_inv in P.
Qed.

Lemma sort_unique (ks l : list string) :
  Permutation ks l -> Sorted str_le ks -> sort l = ks.
Proof.
  intros P S. apply sorted_perm_unique; [apply sort_sorted | exact S|].
  rewrite sort_perm. now symmetry.
Qed.

Lemma lookup_in (k : string) (v : value) (ps : list (string * value)) :
  NoDup (map fst ps) -> In (k, v) ps -> lookup k ps = Some v.
Proof.
  induction ps as [|[k' v'] ps IH]; simpl; [tauto|].
  intros N [E|I].
  - injection E as -> ->. now rewrite String.eqb_refl.
  - inversion N as [|? ? Nin N']; subst.
    destruct (String.eqb_spec k k') as [->|_].
    + exfalso. apply Nin. change k' with (fst (k', v)). now apply in_map.
    + now apply IH.
Qed.

Lemma lookup_some_in (k : string) (v : value) (ps : list (string * value)) :
  lookup k ps = Some v -> In (k, v) ps.
Proof.
  induction ps as [|[k' v'] ps IH]; simpl; [discriminate|].
  destruct (String.eqb_spec k k') as [->|_].
  - intros [= ->]. now left.
  - intros H. right. now apply IH.
Qed.

Lemma lookup_none (k : string) (ps : list (string * value)) :
  lookup k ps = None -> ~ In k (map fst ps).
Proof.
  induction ps as [|[k' v'] ps IH]; simpl; [tauto|].
  destruct (String.eqb_spec k k') as [->|Hne]; [discriminate|].
  intros H [E|I]; [now apply Hne | now apply IH].
Qed.

(** With distinct names, what [params[k]] reads does not depend on the
    order of the properties. *)
Lemma own_perm (k : string) (ps ps' : list (string * value)) :
  NoDup (map fst ps) -> Permutation ps ps' -> own k ps = own k ps'.
Proof.
  intros N P. unfold own.
  assert (N' : NoDup (map fst ps'))
    by (eapply Permutation_NoDup; [apply Permutation_map; exact P | exact N]).
  destruct (lookup k ps) as [v|] eqn:E.
  - apply lookup_some_in in E.
    now rewrite (lookup_in k v ps' N' (Permutation_in _ P E)).
  - destruct (lookup k ps') as [v'|] eqn:E'; [|reflexivity].
    apply lookup_some_in in E'. apply lookup_none in E. exfalso. apply E.
    change k with (fst (k, v')). apply in_map.
    eapply Permutation_in; [symmetry; exact P | exact E'].
Qed.

(** ** The lock-API signature *)

Lemma sorted_entries_exist (params : list (string * value)) :
  NoDup (Object_keys params) ->
  exists entries,
    Permutation entries params /\ Sorted str_le (map fst entries).
Proof.
  intros N.
  exists (map (fun k => (k, own k params)) (sort (Object_keys params))).
  split.
  - rewrite (Permutation_map _ (sort_perm (Object_keys params))).
    unfold Object_keys. rewrite map_map.
    rewrite (map_ext_in _ (fun kv => kv)); [now rewrite map_id|].
    intros [k v] I. simpl. unfold own. now rewrite (lookup_in _ _ _ N I).
  - rewrite map_map. simpl. rewrite map_id. apply sort_sorted.
Qed.

Lemma Array_map_pure_printed {A} (g : A -> value) (h : A -> string -> string)
    (l : list A) :
  Array_map_pure (fun k => and_then (ToString (g k)) (fun v => Ok (h k v))) l
  = if forallb (fun k => printable (g k)) l
    then Ok (map (fun k => h k (to_string (g k))) l)
    else Throw unprintable.
Proof.
  induction l as [|k l IH]; [reflexivity|]. cbn [Array_map_pure forallb map].
  unfold ToString at 1. destruct (printable (g k)); [|reflexivity].
  cbn [and_then andb]. rewrite IH.
  now destruct (forallb (fun k => printable (g k)) l).
Qed.

Lemma forallb_mapped {A B} (f : A -> B) (p : B -> bool) (l : list A) :
  forallb p (map f l) = forallb (fun x => p (f x)) l.
Proof. induction l as [|x l IH]; [reflexivity|]. simpl. now rewrite IH. Qed.

Lemma forallb_agree {A} (p q : A -> bool) (l : list A) :
  (forall x, In x l -> p x = q x) -> forallb p l = forallb q l.
Proof.
  induction l as [|x l IH]; intros E; [reflexivity|]. simpl.
  rewrite (E x (or_introl eq_refl)), IH; [reflexivity|].
  intros y I. apply E. now right.
Qed.

Lemma createFordSignature_sorted_entries
    (method path : string) (params entries : list (string * value))
    (timestamp : string) :
  NoDup (Object_keys params) ->
  Permutation entries params -> Sorted str_le (map fst entries) ->
  createFordSignature method path params timestamp
  = if forallb printable (map snd entries)
    then Ok (MD5.md5_hex
               (toUpperCase method ++ path
                ++ concat "&"
                     (map (fun kv => fst kv ++ "=" ++ to_string (snd kv))
                          entries)
                ++ FORD_APP_SECRET))
    else Throw unprintable.
Proof.
  intros N P S. unfold createFordSignature.
  rewrite (Array_map_pure_printed (fun k => own k params)
             (fun k v => k ++ "=" ++ v)).
  rewrite (sort_unique (map fst entries) (Object_keys params));
    [|now apply Permutation_map | exact S].
  assert (O : forall kv, In kv entries -> own (fst kv) params = snd kv).
  { intros [k v] I. simpl. unfold own.
    now rewrite (lookup_in _ _ _ N (Permutation_in _ P I)). }
  rewrite !forallb_mapped, map_map.
  rewrite (forallb_agree (fun kv => printable (own (fst kv) params))
             (fun kv => printable (snd kv)) entries)
    by (intros kv I; now rewrite (O kv I)).
  rewrite (map_ext_in _ (fun kv => fst kv ++ "=" ++ to_string (snd kv)))
    by (intros kv I; now rewrite (O kv I)).
  now destruct (forallb (fun kv => printable (snd kv)) entries).
Qed.

(** C4. The signature is the digest, in 32 lowercase hexadecimal
    characters, of UPPERCASE(method) + path + paramString + secret with
    nothing in between, where paramString lists the entries of the
    mapping as key=value joined by "&", in ascending order of their
    names and with each value as it is (no encoding); so it is the same
    for every order in which the mapping enumerates its entries.  A
    string is its own text; a value that cannot be converted to a
    string makes the function throw, in every order alike. *)
Theorem createFordSignature_canonical :
  forall (method path : string) (params : list (string * value))
         (timestamp : string),
    NoDup (Object_keys params) ->
    (forall entries,
        Permutation entries params -> Sorted str_le (map fst entries) ->
        createFordSignature method path params timestamp
        = if forallb printable (map snd entries)
          then Ok (MD5.md5_hex
                     (toUpperCase method ++ path
                      ++ concat "&"
                           (map (fun kv => fst kv ++ "=" ++ to_string (snd kv))
                                entries)
                      ++ FORD_APP_SECRET))
          else Throw unprintable)
    /\ (exists entries,
          Permutation entries params /\ Sorted str_le (map fst entries))
    /\ (forall s : string, printable (Str s) = true /\ to_string (Str s) = s)
    /\ (forall params' timestamp',
          Permutation params params' ->
          createFordSignature method path params' timestamp'
          = createFordSignature method path params timestamp)
    /\ (forallb printable (map snd params) = true ->
        exists sign,
          createFordSignature method path params timestamp = Ok sign
          /\ String.length sign = 32%nat
          /\ string_forall is_lower_hex sign = true).
Proof.
  intros method path params timestamp N.
  split; [intros; now apply createFordSignature_sorted_entries|].
  split; [now apply sorted_entries_exist|].
  split; [now split|].
  destruct (sorted_entries_exist _ N) as (entries & Pe & Se).
  split.
  - intros params' timestamp' P.
    rewrite (createFordSignature_sorted_entries _ _ params entries timestamp
               N Pe Se).
    apply createFordSignature_sorted_entries; [|now rewrite Pe | exact Se].
    eapply Permutation_NoDup; [apply Permutation_map; exact P | exact N].
  - intros Pr.
    rewrite (createFordSignature_sorted_entries _ _ params entries timestamp
               N Pe Se).
    assert (Pr' : forallb printable (map snd entries) = true).
    { rewrite forallb_forall in *. intros v I. apply Pr.
      eapply Permutation_in; [apply Permutation_map; exact Pe | exact I]. }
    rewrite Pr'. eexists. split; [reflexivity|]. apply md5_hex_shape.
Qed.

(** The example of the specification: [{a: "1", z: "2"}] is signed as
    [a=1&z=2] whichever of the two entries was inserted first. *)
Lemma createFordSignature_canonical_witness :
  NoDup (Object_keys [("z", Str "2"); ("a", Str "1")])
  /\ createFordSignature "post" "/openapi/lock/v1/control"
       [("z", Str "2"); ("a", Str "1")] "1700000000000"
     = Ok (MD5.md5_hex
             ("POST/openapi/lock/v1/controla=1&z=2" ++ FORD_APP_SECRET))
  /\ createFordSignature "post" "/openapi/lock/v1/control"
       [("a", Str "1"); ("z", Str "2")] "1700000000001"
     = createFordSignature "post" "/openapi/lock/v1/control"
         [("z", Str "2"); ("a", Str "1")] "1700000000000".
Proof.
  assert (N : NoDup (Object_keys [("z", Str "2"); ("a", Str "1")])).
  { repeat constructor; simpl; intuition discriminate. }
  split; [exact N|].
  destruct (createFordSignature_canonical "post"
              "/openapi/lock/v1/control"
              [("z", Str "2"); ("a", Str "1")] "1700000000000" N)
    as (Hcanon & _ & _ & Hperm & _).
  split.
  - apply (Hcanon [("a", Str "1"); ("z", Str "2")]).
    + apply perm_swap.
    + repeat constructor.
  - apply Hperm. apply perm_swap.
Defined.

Example createFordSignature_vector :
  createFordSignature "POST" "/openapi/lock/v1/control"
    [("z", Str "2"); ("a", Str "1")] "0"
  = Ok "731696fe054c4cfe9998ba6a675a7c8c".
Proof. vm_compute. reflexivity. Qed.

(** C10. The fourth argument of [createFordSignature] is ignored: any
    two timestamps give the same signature, which is the digest of a
    text made of the method, the path, the mapping and the fixed secret
    only (and the same TypeError when a value of the mapping cannot be
    converted to a string); [controlLock], which passes its timestamp
    both as an entry of the mapping and as fourth argument, sends the
    same request whatever is passed fourth. *)
Theorem createFordSignature_ignores_timestamp :
  forall (method path : string) (params : list (string * value))
         (t1 t2 : string),
    createFordSignature method path params t1
    = createFordSignature method path params t2
    /\ createFordSignature method path params t1
       = (if forallb (fun k => printable (own k params))
               (sort (Object_keys params))
          then Ok (MD5.md5_hex
                     (toUpperCase method ++ path
                      ++ concat "&"
                           (map (fun k => k ++ "=" ++ to_string (own k params))
                                (sort (Object_keys params)))
                      ++ FORD_APP_SECRET))
          else Throw unprintable)
    /\ forall (w : env) (deviceMac deviceModel : string)
              (action : lock_action),
         controlLock w deviceMac deviceModel action
         = (accessToken <- ensureValidToken w ;;
            t <- Date_now w ;;
            let params :=
              [("access_token", accessToken);
               ("key", Str FORD_APP_KEY);
               ("timestamp", Str (decimal t));
               ("action", Str (action_name action));
               ("uuid", Str deviceMac)] in
            sign <- lift (createFordSignature "POST"
                            "/openapi/lock/v1/control" params t2) ;;
            data <- axios_post w (LOCK_BASE_URL ++ "/openapi/lock/v1/control")
                      (Obj (params ++ [("sign", Str sign)])%list)
                      json_headers ;;
            check_code ("Failed to " ++ action_name action ++ " lock") data).
Proof.
  intros. split; [reflexivity|]. split; [|reflexivity].
  unfold createFordSignature.
  rewrite (Array_map_pure_printed (fun k => own k params)
             (fun k v => k ++ "=" ++ v)).
  now destruct (forallb (fun k => printable (own k params))
                  (sort (Object_keys params))).
Qed.

(** ** Which path [ensureValidToken] takes *)

Lemma then_unit {A B} (m : M A) (k : M B) (s : state) :
  ((m ;; ret tt) ;; k) s = (m ;; k) s.
Proof. unfold bind, ret. now destruct (m s) as [[a|e] s']. Qed.

(** One step of a computation at a time. *)
Lemma bind_ret {A B} (a : A) (k : A -> M B) (s : state) :
  (x <- ret a ;; k x) s = k a s.
Proof. reflexivity. Qed.

Lemma bind_gets {A B} (f : state -> A) (k : A -> M B) (s : state) :
  (x <- gets f ;; k x) s = k (f s) s.
Proof. reflexivity. Qed.

Lemma bind_Date_now {B} (w : env) (k : Z -> M B) (s : state) :
  (x <- Date_now w ;; k x) s = k (clock w (reads s)) (tick 1 s).
Proof. reflexivity. Qed.

Lemma bind_throw {A B} (e : exn) (k : A -> M B) (s : state) :
  (x <- throw e ;; k x) s = (Throw e, s).
Proof. reflexivity. Qed.

Lemma bind_set_tokens {B} (t : WyzeTokens) (k : unit -> M B) (s : state) :
  (x <- set_tokens t ;; k x) s = k tt (storing t s).
Proof. reflexivity. Qed.

Lemma bind_bind {A B C} (m : M A) (k : A -> M B) (h : B -> M C) (s : state) :
  (y <- (x <- m ;; k x) ;; h y) s = (x <- m ;; y <- k x ;; h y) s.
Proof. unfold bind. now destruct (m s) as [[a|e] s']. Qed.

Lemma bind_axios {B} (w : env) (r : request) (k : value -> M B) (s : state) :
  (x <- axios w r ;; k x) s
  = match server w (List.length (sent s)) with
    | Responded body => k body (sending r s)
    | Rejected e => (Throw e, sending r s)
    end.
Proof.
  unfold bind, axios. now destruct (server w (List.length (sent s))).
Qed.

Lemma bind_ok {A B} (m : M A) (k : A -> M B) (s s' : state) (a : A) :
  m s = (Ok a, s') -> (x <- m ;; k x) s = k a s'.
Proof. intros E. unfold bind. now rewrite E. Qed.

Lemma bind_thrown {A B} (m : M A) (k : A -> M B) (s s' : state) (e : exn) :
  m s = (Throw e, s') -> (x <- m ;; k x) s = (Throw e, s').
Proof. intros E. unfold bind. now rewrite E. Qed.

Lemma bind_lift_ok {A B} (a : A) (k : A -> M B) (s : state) :
  (x <- lift (Ok a) ;; k x) s = k a s.
Proof. reflexivity. Qed.

Lemma bind_lift_throw {A B} (e : exn) (k : A -> M B) (s : state) :
  (x <- lift (@Throw A e) ;; k x) s = (Throw e, s).
Proof. reflexivity. Qed.

Lemma ToString_printable (v : value) :
  printable v = true -> ToString v = Ok (to_string v).
Proof. intros P. unfold ToString. now rewrite P. Qed.

Ltac step :=
  first [ rewrite bind_bind
        | rewrite bind_ret
        | rewrite bind_gets
        | rewrite bind_Date_now
        | rewrite bind_set_tokens
        | rewrite bind_throw
        | rewrite bind_lift_ok
        | rewrite bind_lift_throw ].

(** The decision in terms of the two clock reads it makes. *)
Lemma ensureValidToken_decision (w : env) (s : state) :
  match currentTokens s with
  | None => ensureValidToken w s = (login w ;; current_access_token) s
  | Some tk =>
      if expiresAt tk <=? clock w (reads s) then
        ensureValidToken w s
        = (login w ;; current_access_token) (tick 1 s)
      else if expiresAt tk - 60 * 60 * 1000 <=? clock w (S (reads s)) then
        ensureValidToken w s
        = (refreshToken w ;; current_access_token) (tick 2 s)
      else ensureValidToken w s = (Ok (accessToken tk), tick 2 s)
  end.
Proof.
  unfold ensureValidToken.
  destruct (currentTokens s) as [tk|] eqn:E.
  - rewrite bind_gets, E. unfold isTokenExpired.
    rewrite !bind_bind, bind_gets, E, bind_bind, bind_Date_now, bind_ret.
    destruct (expiresAt tk <=? clock w (reads s)).
    + apply then_unit.
    + unfold isTokenNearExpiry.
      rewrite !bind_bind, bind_gets. cbn [tick currentTokens]. rewrite E.
      rewrite bind_bind, bind_Date_now, bind_ret.
      cbn [tick reads Nat.add].
      destruct (expiresAt tk - 60 * 60 * 1000 <=? clock w (S (reads s))).
      * apply (then_unit (refreshToken w) current_access_token (tick 2 s)).
      * rewrite bind_ret. unfold current_access_token.
        rewrite bind_gets. cbn [tick currentTokens]. now rewrite E.
  - rewrite bind_gets, E. apply then_unit.
Qed.

(** C1. With the clock standing at [now] while the decision is taken:
    [ensureValidToken] runs [login] when the store is empty or [now] is
    at or past the expiry estimate, runs [refreshToken] when [now] is
    within the hour before the estimate, and otherwise hands back the
    stored access token, sending nothing and leaving the store as it
    was.  For a pair issued at [T], so expiring at [T] + 48h: a call at
    [T] + 47h01 refreshes, a call at [T] + 49h logs in, and a call at
    [T] + 1h returns the stored token. *)
Theorem ensureValidToken_paths :
  forall (w : env) (s : state) (now : Z),
    clock w (reads s) = now ->
    clock w (S (reads s)) = now ->
    (currentTokens s = None ->
     ensureValidToken w s = (login w ;; current_access_token) s)
    /\ (forall tk,
          currentTokens s = Some tk ->
          (expiresAt tk <= now ->
           ensureValidToken w s
           = (login w ;; current_access_token) (tick 1 s))
          /\ (expiresAt tk - 60 * 60 * 1000 <= now < expiresAt tk ->
              ensureValidToken w s
              = (refreshToken w ;; current_access_token) (tick 2 s))
          /\ (now < expiresAt tk - 60 * 60 * 1000 ->
              ensureValidToken w s = (Ok (accessToken tk), tick 2 s)
              /\ sent (snd (ensureValidToken w s)) = sent s
              /\ currentTokens (snd (ensureValidToken w s)) = Some tk))
    /\ (forall tk T,
          currentTokens s = Some tk ->
          expiresAt tk = T + TOKEN_REFRESH_INTERVAL ->
          (now = T + 47 * hour + minute ->
           ensureValidToken w s
           = (refreshToken w ;; current_access_token) (tick 2 s))
          /\ (now = T + 49 * hour ->
              ensureValidToken w s
              = (login w ;; current_access_token) (tick 1 s))
          /\ (now = T + hour ->
              ensureValidToken w s = (Ok (accessToken tk), tick 2 s))).
Proof.
  intros w s now H0 H1.
  pose proof (ensureValidToken_decision w s) as D.
  rewrite H0, H1 in D.
  assert (Cases : forall tk,
            currentTokens s = Some tk ->
            (expiresAt tk <= now ->
             ensureValidToken w s
             = (login w ;; current_access_token) (tick 1 s))
            /\ (expiresAt tk - 60 * 60 * 1000 <= now < expiresAt tk ->
                ensureValidToken w s
                = (refreshToken w ;; current_access_token) (tick 2 s))
            /\ (now < expiresAt tk - 60 * 60 * 1000 ->
                ensureValidToken w s = (Ok (accessToken tk), tick 2 s))).
  { intros tk E. rewrite E in D.
    destruct (Z.leb_spec (expiresAt tk) now) as [Le|Gt].
    - split; [|split]; intros; solve [exact D | lia].
    - destruct (Z.leb_spec (expiresAt tk - 60 * 60 * 1000) now) as [Le'|Gt'];
        (split; [|split]); intros; solve [exact D | lia]. }
  split; [|split].
  - intros E. now rewrite E in D.
  - intros tk E. destruct (Cases tk E) as (C1 & C2 & C3).
    split; [exact C1|]. split; [exact C2|].
    intros Lt. rewrite (C3 Lt). split; [reflexivity|]. split; [reflexivity|].
    exact E.
  - intros tk T E X. destruct (Cases tk E) as (C1 & C2 & C3).
    unfold TOKEN_REFRESH_INTERVAL, hour, minute in *.
    split; [|split]; intros ->; [apply C2 | apply C1 | apply C3]; lia.
Qed.

(** The three moments of the specification for a pair issued at
    1 700 000 000 000 ms. *)
Lemma ensureValidToken_paths_witness :
  let T := 1700000000000 in
  let offline := Rejected (Error "offline") in
  let s := holding (Some (issued_at T)) in
  ensureValidToken (frozen (T + 47 * hour + minute) offline) s
  = (refreshToken (frozen (T + 47 * hour + minute) offline) ;;
     current_access_token) (tick 2 s)
  /\ ensureValidToken (frozen (T + 49 * hour) offline) s
     = (login (frozen (T + 49 * hour) offline) ;; current_access_token)
         (tick 1 s)
  /\ ensureValidToken (frozen (T + hour) offline) s
     = (Ok (Str "access-1"), tick 2 s).
Proof.
  intros T offline s.
  split; [|split].
  - destruct (ensureValidToken_paths
                (frozen (T + 47 * hour + minute) offline) s
                (T + 47 * hour + minute) eq_refl eq_refl) as (_ & _ & Sc).
    destruct (Sc (issued_at T) T eq_refl eq_refl) as (R & _ & _).
    apply R. reflexivity.
  - destruct (ensureValidToken_paths (frozen (T + 49 * hour) offline) s
                (T + 49 * hour) eq_refl eq_refl) as (_ & _ & Sc).
    destruct (Sc (issued_at T) T eq_refl eq_refl) as (_ & L & _).
    apply L. reflexivity.
  - destruct (ensureValidToken_paths (frozen (T + hour) offline) s
                (T + hour) eq_refl eq_refl) as (_ & _ & Sc).
    destruct (Sc (issued_at T) T eq_refl eq_refl) as (_ & _ & C).
    apply C. reflexivity.
Defined.

(** ** What [login] makes of a response *)

Lemma prop_defined (v : value) (k : string) :
  is_nullish v = false -> prop v k = ret (get_opt v k).
Proof. destruct v; simpl; try discriminate; reflexivity. Qed.

Lemma get_opt_truthy_defined (v : value) (k : string) :
  truthy (get_opt v k) = true -> is_nullish v = false.
Proof. destruct v; simpl; try discriminate; reflexivity. Qed.

Lemma not_success_code (c : value) :
  negb (strict_eq c (Str "1")) && negb (strict_eq c (Num 1))
  = negb (success_code c).
Proof. unfold success_code. now rewrite negb_orb. Qed.

(** [login] up to the arrival of a response. *)
Lemma login_responded (w : env) (s : state) (creds : WyzeCredentials)
    (body : value) :
  credentials s = Some creds ->
  server w (List.length (sent s)) = Responded body ->
  login w s
  = try_catch (login_parse w body) login_catch
      (sending (login_request creds (clock w (reads s))) (tick 1 s)).
Proof.
  intros C R. unfold login.
  rewrite bind_gets, C, bind_Date_now.
  unfold try_catch, axios_post.
  rewrite bind_axios. cbn [tick sent]. now rewrite R.
Qed.

(** [login] when the request is rejected. *)
Lemma login_rejected (w : env) (s : state) (creds : WyzeCredentials)
    (e : exn) :
  credentials s = Some creds ->
  server w (List.length (sent s)) = Rejected e ->
  login w s
  = login_catch e
      (sending (login_request creds (clock w (reads s))) (tick 1 s)).
Proof.
  intros C R. unfold login.
  rewrite bind_gets, C, bind_Date_now.
  unfold try_catch, axios_post.
  rewrite bind_axios. cbn [tick sent]. now rewrite R.
Qed.

Lemma login_store_ok (w : env) (s : state) (a r : value) :
  truthy a = true -> truthy r = true ->
  let tokens := {| accessToken := a; Types.refreshToken := r;
                   expiresAt := clock w (reads s) + TOKEN_REFRESH_INTERVAL |} in
  login_store w a r s = (Ok tokens, storing tokens (tick 1 s)).
Proof.
  intros Ta Tr. unfold login_store. rewrite Ta, Tr. cbn [negb orb].
  now rewrite bind_Date_now, bind_set_tokens.
Qed.

Lemma login_check_present (data a : value) :
  truthy a = true -> login_check data a = ret tt.
Proof. intros T. unfold login_check. now rewrite T. Qed.

(** The pair [login_extract] finds, from the top level first. *)
Lemma login_extract_found (s : state) (body a r : value) :
  truthy a = true ->
  (get_opt body "access_token" = a /\ get_opt body "refresh_token" = r)
  \/ (truthy (get_opt body "access_token") = false
      /\ get_opt (get_opt body "data") "access_token" = a
      /\ get_opt (get_opt body "data") "refresh_token" = r) ->
  login_extract body s = (Ok (a, r), s).
Proof.
  intros Ta H. unfold login_extract.
  destruct H as [[Ha Hr] | (Hn & Ha & Hr)].
  - assert (D : is_nullish body = false).
    { apply get_opt_truthy_defined with "access_token". now rewrite Ha. }
    rewrite (prop_defined body "access_token" D), bind_ret, Ha, Ta.
    now rewrite (prop_defined body "refresh_token" D), bind_ret, Hr.
  - assert (D' : is_nullish (get_opt body "data") = false).
    { apply get_opt_truthy_defined with "access_token". now rewrite Ha. }
    assert (D : is_nullish body = false).
    { destruct body; try reflexivity; discriminate. }
    rewrite (prop_defined body "access_token" D), bind_ret, Hn.
    rewrite (prop_defined body "data" D), bind_ret, Ha, Ta.
    rewrite (prop_defined _ "access_token" D'), bind_ret.
    now rewrite (prop_defined _ "refresh_token" D'), bind_ret, Ha, Hr.
Qed.

Lemma login_parse_stores (w : env) (s : state) (body a r : value) :
  truthy a = true -> truthy r = true ->
  (get_opt body "access_token" = a /\ get_opt body "refresh_token" = r)
  \/ (truthy (get_opt body "access_token") = false
      /\ get_opt (get_opt body "data") "access_token" = a
      /\ get_opt (get_opt body "data") "refresh_token" = r) ->
  let tokens := {| accessToken := a; Types.refreshToken := r;
                   expiresAt := clock w (reads s) + TOKEN_REFRESH_INTERVAL |} in
  login_parse w body s = (Ok tokens, storing tokens (tick 1 s)).
Proof.
  intros Ta Tr H. unfold login_parse.
  rewrite (bind_ok _ _ _ _ _ (login_extract_found s body a r Ta H)).
  cbn [fst snd]. rewrite (login_check_present body a Ta), bind_ret.
  now apply login_store_ok.
Qed.

(** C6. [login] looks for the token pair at the top level of the
    response body first and under [data] second.  A pair found at the
    top level is taken whatever [data] holds; a pair found under [data]
    is taken when the top level has no access token; and in both cases
    [login] succeeds with the same result: it stores and returns that
    pair with the expiry estimate of the moment. *)
Theorem login_token_locations :
  forall (w : env) (s : state) (creds : WyzeCredentials)
         (body a r : value),
    credentials s = Some creds ->
    server w (List.length (sent s)) = Responded body ->
    truthy a = true ->
    truthy r = true ->
    (get_opt body "access_token" = a /\ get_opt body "refresh_token" = r)
    \/ (truthy (get_opt body "access_token") = false
        /\ get_opt (get_opt body "data") "access_token" = a
        /\ get_opt (get_opt body "data") "refresh_token" = r) ->
    let tokens :=
      {| accessToken := a; Types.refreshToken := r;
         expiresAt := clock w (S (reads s)) + TOKEN_REFRESH_INTERVAL |} in
    login w s
    = (Ok tokens,
       storing tokens
         (tick 1 (sending (login_request creds (clock w (reads s)))
                          (tick 1 s)))).
Proof.
  intros w s creds body a r C R Ta Tr H tokens.
  rewrite (login_responded w s creds body C R).
  unfold try_catch.
  now rewrite (login_parse_stores w _ body a r Ta Tr H).
Qed.

(** The same pair at the top level, under [data], and at the top level
    with another pair under [data]: the same result each time. *)
Lemma login_token_locations_witness :
  let a := Str "access-2" in
  let r := Str "refresh-2" in
  let top := Obj [("access_token", a); ("refresh_token", r)] in
  let nested :=
    Obj [("code", Num 1); ("msg", Str "");
         ("data", Obj [("access_token", a); ("refresh_token", r)])] in
  let both :=
    Obj [("access_token", a); ("refresh_token", r);
         ("data", Obj [("access_token", Str "other");
                       ("refresh_token", Str "other")])] in
  let s := holding None in
  let tokens := {| accessToken := a; Types.refreshToken := r;
                   expiresAt := 5000 + TOKEN_REFRESH_INTERVAL |} in
  fst (login (frozen 5000 (Responded top)) s) = Ok tokens
  /\ login (frozen 5000 (Responded nested)) s
     = login (frozen 5000 (Responded top)) s
  /\ login (frozen 5000 (Responded both)) s
     = login (frozen 5000 (Responded top)) s.
Proof.
  intros a r top nested both s tokens.
  assert (Top := login_token_locations (frozen 5000 (Responded top)) s
                   sample_credentials top a r eq_refl eq_refl eq_refl eq_refl
                   (or_introl (conj eq_refl eq_refl))).
  assert (Nested := login_token_locations (frozen 5000 (Responded nested)) s
                      sample_credentials nested a r eq_refl eq_refl eq_refl
                      eq_refl
                      (or_intror (conj eq_refl (conj eq_refl eq_refl)))).
  assert (Both := login_token_locations (frozen 5000 (Responded both)) s
                    sample_credentials both a r eq_refl eq_refl eq_refl
                    eq_refl (or_introl (conj eq_refl eq_refl))).
  cbv zeta in Top, Nested, Both.
  rewrite Top, Nested, Both. repeat split.
Defined.

(** ** [login] on a response without a token *)

Lemma login_extract_absent (s : state) (body : value) :
  is_nullish body = false ->
  truthy (get_opt body "access_token") = false ->
  truthy (get_opt (get_opt body "data") "access_token") = false ->
  login_extract body s = (Ok (Undefined, Undefined), s).
Proof.
  intros D T1 T2. unfold login_extract.
  rewrite (prop_defined body "access_token" D), bind_ret, T1.
  now rewrite (prop_defined body "data" D), bind_ret, T2.
Qed.

Lemma login_catch_rethrows (msg : string) (s : state) :
  login_catch (Error msg) s = (Throw (Error msg), s).
Proof. reflexivity. Qed.

(** What [login] throws when [login_extract] found nothing. *)
Lemma login_absent (w : env) (s : state) (creds : WyzeCredentials)
    (body : value) :
  credentials s = Some creds ->
  server w (List.length (sent s)) = Responded body ->
  is_nullish body = false ->
  truthy (get_opt body "access_token") = false ->
  truthy (get_opt (get_opt body "data") "access_token") = false ->
  login w s
  = try_catch
      (login_check body Undefined ;; login_store w Undefined Undefined)
      login_catch
      (sending (login_request creds (clock w (reads s))) (tick 1 s)).
Proof.
  intros C R D T1 T2.
  rewrite (login_responded w s creds body C R).
  unfold try_catch, login_parse.
  now rewrite (bind_ok _ _ _ _ _ (login_extract_absent _ body D T1 T2)).
Qed.

Lemma gt0_length_cons (x : value) (l : list value) :
  gt0 (Num (Z.of_nat (List.length (x :: l)))) = true.
Proof. unfold gt0, to_number. apply Z.ltb_lt. simpl List.length. lia. Qed.

(** C2, as the code has it.  A response whose body is [null] makes
    [login] fail with a TypeError.  For a response with a body and no
    access token at either place: when its code is neither ["1"] nor
    [1] and [data.mfa_options] is a non-empty list, [login] fails with
    the MFA-required error, whose message lists the options, or, when
    an option cannot be converted to a string, with the TypeError of
    the conversion; when its code is neither ["1"] nor [1] and there
    are no MFA options, it fails with the generic "Login failed
    (code ...)" error, or, when the code or the message cannot be
    converted to a string, with that TypeError; and when its code is
    ["1"] or [1], it fails with the generic "Login failed: No access
    token in response" error whatever MFA options it carries.  No
    generic message is an MFA message. *)
Theorem login_mfa_required :
  forall (w : env) (s : state) (creds : WyzeCredentials) (body : value),
    credentials s = Some creds ->
    server w (List.length (sent s)) = Responded body ->
    let code := get_opt body "code" in
    let options := get_opt (get_opt body "data") "mfa_options" in
    let errorMsg :=
      or_ (or_ (or_ (get_opt body "msg") (get_opt body "message"))
               (get_opt body "description"))
          (JSON_stringify body) in
    let s' := sending (login_request creds (clock w (reads s))) (tick 1 s) in
    (is_nullish body = true ->
     exists m, login w s = (Throw (TypeError m), s'))
    /\ (is_nullish body = false ->
        truthy (get_opt body "access_token") = false ->
        truthy (get_opt (get_opt body "data") "access_token") = false ->
        (success_code code = false ->
         forall l, options = Arr l -> l <> [] ->
           login w s
           = (Throw (if forallb printable l
                     then Error (mfa_message (join ", " l))
                     else unprintable), s'))
        /\ (success_code code = false ->
            truthy options = false \/ options = Arr [] ->
            login w s
            = (Throw (if printable code && printable errorMsg
                      then Error ("Login failed (code " ++ to_string code
                                  ++ "): " ++ to_string errorMsg)
                      else unprintable), s'))
        /\ (success_code code = true ->
            login w s
            = (Throw (Error "Login failed: No access token in response"),
               s')))
    /\ (forall options' rest : string,
          mfa_message options' <> "Login failed" ++ rest).
Proof.
  intros w s creds body C R code options errorMsg s'.
  split; [|split].
  - intros N. rewrite (login_responded w s creds body C R). fold s'.
    unfold try_catch, login_parse, login_extract.
    destruct body; try discriminate N; eexists; reflexivity.
  - intros D T1 T2.
    rewrite (login_absent w s creds body C R D T1 T2). fold s'.
    unfold try_catch, login_check. cbn [truthy negb].
    rewrite !bind_bind, (prop_defined body "code" D), bind_ret.
    rewrite not_success_code. fold code.
    split; [|split].
    + intros NS l E Ne. rewrite NS. cbn [negb].
      rewrite !bind_bind, (prop_defined body "data" D), bind_ret.
      fold options. rewrite E. cbn [truthy].
      destruct l as [|x l]; [congruence|].
      rewrite !bind_bind. unfold prop at 1.
      cbn [get String.eqb Ascii.eqb Bool.eqb].
      rewrite bind_ret. unfold greater_than_0. cbn [printable].
      rewrite bind_lift_ok, gt0_length_cons.
      rewrite !bind_bind. unfold Array_join.
      destruct (forallb printable (x :: l)); now repeat step.
    + intros NS H. rewrite NS. cbn [negb].
      rewrite !bind_bind, (prop_defined body "data" D), bind_ret.
      fold options.
      assert (G : forall k : bool -> M WyzeTokens,
                 (required <- (if truthy options
                               then len <- prop options "length" ;;
                                    lift (greater_than_0 len)
                               else ret false) ;; k required) s'
                 = k false s').
      { intros k. destruct H as [F | E].
        - now rewrite F, bind_ret.
        - rewrite E. cbn [truthy]. rewrite bind_bind. unfold prop at 1.
          cbn [get String.eqb Ascii.eqb Bool.eqb List.length].
          rewrite bind_ret. reflexivity. }
      rewrite !bind_bind, G. repeat step.
      rewrite (prop_defined body "msg" D). repeat step. fold errorMsg.
      unfold ToString.
      destruct (printable code); [|now repeat step]. repeat step.
      destruct (printable errorMsg); now repeat step.
    + intros Sc. rewrite Sc. cbn [negb]. rewrite bind_ret. reflexivity.
  - intros options' rest. unfold mfa_message. simpl. discriminate.
Qed.

(** The scenario of the specification: [data.mfa_options = ["sms"]] and
    no access token. *)
Lemma login_mfa_required_witness :
  let body := Obj [("data", Obj [("mfa_options", Arr [Str "sms"])])] in
  fst (login (frozen 5000 (Responded body)) (holding None))
  = Throw (Error ("MFA is required for this account. MFA options: sms. "
                  ++ "MFA is not yet supported. Please disable MFA or use a different authentication method.")).
Proof.
  intros body.
  destruct (login_mfa_required (frozen 5000 (Responded body)) (holding None)
              sample_credentials body eq_refl eq_refl) as (_ & Absent & _).
  destruct (Absent eq_refl eq_refl eq_refl) as (Mfa & _).
  rewrite (Mfa eq_refl [Str "sms"] eq_refl); [reflexivity | discriminate].
Defined.

(** C2 as stated fails: a response with code [1], no access token and
    the MFA options ["sms"] makes [login] fail with the generic error,
    not with the MFA-required one. *)
Lemma login_mfa_counterexample :
  let body := Obj [("code", Num 1);
                   ("data", Obj [("mfa_options", Arr [Str "sms"])])] in
  truthy (get_opt body "access_token") = false
  /\ truthy (get_opt (get_opt body "data") "access_token") = false
  /\ get_opt (get_opt body "data") "mfa_options" = Arr [Str "sms"]
  /\ fst (login (frozen 5000 (Responded body)) (holding None))
     = Throw (Error "Login failed: No access token in response")
  /\ fst (login (frozen 5000 (Responded body)) (holding None))
     <> Throw (Error (mfa_message (join ", " [Str "sms"]))).
Proof.
  intros body. repeat split; try reflexivity.
  vm_compute. discriminate.
Qed.

(** ** [refreshToken] and its fallback *)

Lemma prop_nullish (v : value) (k : string) (s : state) :
  is_nullish v = true -> exists e, prop v k s = (Throw e, s).
Proof. destruct v; try discriminate; intros _; eexists; reflexivity. Qed.

(** The four ways [refresh_parse] can go. *)
Lemma refresh_parse_cases (w : env) (body : value) (s : state) :
  (is_nullish body = true -> exists e, refresh_parse w body s = (Throw e, s))
  /\ (is_nullish body = false ->
      success_code (get_opt body "code") = false ->
      refresh_parse w body s = (Ok None, s))
  /\ (success_code (get_opt body "code") = true ->
      is_nullish (get_opt body "data") = true ->
      exists e, refresh_parse w body s = (Throw e, s))
  /\ (success_code (get_opt body "code") = true ->
      is_nullish (get_opt body "data") = false ->
      let d := get_opt body "data" in
      let tokens :=
        {| accessToken := get_opt d "access_token";
           Types.refreshToken := get_opt d "refresh_token";
           expiresAt := clock w (reads s) + TOKEN_REFRESH_INTERVAL |} in
      refresh_parse w body s = (Ok (Some tokens), storing tokens (tick 1 s))).
Proof.
  assert (Sn : forall b, success_code (get_opt b "code") = true ->
                         is_nullish b = false).
  { intros b. destruct b; try reflexivity; discriminate. }
  unfold refresh_parse. split; [|split; [|split]].
  - intros N. destruct (prop_nullish body "code" s N) as [e E].
    exists e. now apply bind_thrown.
  - intros D F. rewrite (prop_defined body "code" D), bind_ret.
    now rewrite not_success_code, F.
  - intros Sc N. rewrite (prop_defined body "code" (Sn _ Sc)), bind_ret.
    rewrite not_success_code, Sc. cbn [negb].
    rewrite (prop_defined body "data" (Sn _ Sc)), bind_ret.
    destruct (prop_nullish (get_opt body "data") "access_token" s N)
      as [e E].
    exists e. now apply bind_thrown.
  - intros Sc D.
    rewrite (prop_defined body "code" (Sn _ Sc)), bind_ret.
    rewrite not_success_code, Sc. cbn [negb].
    rewrite (prop_defined body "data" (Sn _ Sc)), bind_ret.
    rewrite (prop_defined _ "access_token" D), bind_ret.
    rewrite (prop_defined _ "refresh_token" D), bind_ret.
    now rewrite bind_Date_now, bind_set_tokens.
Qed.

(** [refreshToken] up to the answer of the server. *)
Lemma refreshToken_sent (w : env) (s : state) (tk : WyzeTokens)
    (creds : WyzeCredentials) :
  currentTokens s = Some tk ->
  credentials s = Some creds ->
  let s1 := sending (refresh_request tk creds (clock w (reads s)))
                    (tick 1 s) in
  refreshToken w s
  = match server w (List.length (sent s)) with
    | Responded body =>
        match refresh_parse w body s1 with
        | (Ok (Some tokens), s2) => (Ok tokens, s2)
        | (Ok None, s2) => login w s2
        | (Throw _, s2) => login w s2
        end
    | Rejected _ => login w s1
    end.
Proof.
  intros T C s1. unfold refreshToken.
  rewrite bind_gets, T, bind_gets, C.
  unfold bind at 1. unfold try_catch, refresh_try.
  rewrite bind_Date_now. unfold axios_post. rewrite bind_axios.
  cbn [tick sent]. fold s1.
  destruct (server w (List.length (sent s))) as [body | e].
  - fold (refresh_request tk creds (clock w (reads s))). fold s1.
    destruct (refresh_parse w body s1) as [[[t|]|e] s2]; reflexivity.
  - reflexivity.
Qed.

(** C3. Without a stored pair [refreshToken] is [login].  With one,
    whenever the refresh request does not succeed (it is rejected, the
    code of the response is neither ["1"] nor [1], or reading the
    response throws because it has no [data]), [refreshToken] goes on
    as [login] from the state the attempt left; so whatever
    [refreshToken] throws was thrown by [login]. *)
Theorem refreshToken_falls_back_to_login :
  forall (w : env) (s : state),
    (currentTokens s = None -> refreshToken w s = login w s)
    /\ (forall tk creds,
          currentTokens s = Some tk ->
          credentials s = Some creds ->
          let s1 := sending (refresh_request tk creds (clock w (reads s)))
                            (tick 1 s) in
          (forall e,
              server w (List.length (sent s)) = Rejected e ->
              refreshToken w s = login w s1)
          /\ (forall body,
                server w (List.length (sent s)) = Responded body ->
                success_code (get_opt body "code") = false
                \/ is_nullish (get_opt body "data") = true ->
                refreshToken w s = login w s1))
    /\ (forall e s',
          refreshToken w s = (Throw e, s') ->
          exists s0, login w s0 = (Throw e, s')).
Proof.
  intros w s.
  assert (Fallback : forall tk creds body,
            currentTokens s = Some tk ->
            credentials s = Some creds ->
            server w (List.length (sent s)) = Responded body ->
            success_code (get_opt body "code") = false
            \/ is_nullish (get_opt body "data") = true ->
            refreshToken w s
            = login w (sending (refresh_request tk creds (clock w (reads s)))
                               (tick 1 s))).
  { intros tk creds body T C R H.
    rewrite (refreshToken_sent w s tk creds T C), R.
    set (s1 := sending _ _).
    destruct (refresh_parse_cases w body s1) as (P1 & P2 & P3 & _).
    destruct (is_nullish body) eqn:N.
    - destruct (P1 eq_refl) as [e ->]. reflexivity.
    - destruct (success_code (get_opt body "code")) eqn:Sc.
      + destruct H as [H|H]; [discriminate|].
        destruct (P3 eq_refl H) as [e ->]. reflexivity.
      + now rewrite (P2 eq_refl eq_refl). }
  split; [|split].
  - intros T. unfold refreshToken. now rewrite bind_gets, T.
  - intros tk creds T C s1. split.
    + intros e R. now rewrite (refreshToken_sent w s tk creds T C), R.
    + intros body R H. exact (Fallback tk creds body T C R H).
  - intros e s' E.
    destruct (currentTokens s) as [tk|] eqn:T.
    + destruct (credentials s) as [creds|] eqn:C.
      * rewrite (refreshToken_sent w s tk creds T C) in E.
        destruct (server w (List.length (sent s))) as [body|e0];
          [|eexists; exact E].
        destruct (refresh_parse w body _) as [[[t|]|e0] s2];
          [discriminate | eexists; exact E | eexists; exact E].
      * exists s. rewrite <- E. unfold refreshToken.
        rewrite bind_gets, T, bind_gets, C. unfold login.
        now rewrite bind_gets, C.
    + exists s. rewrite <- E. unfold refreshToken.
      now rewrite bind_gets, T.
Qed.

(** A refresh answered with a failure code, then a login that
    succeeds: the caller gets the new pair.  A refresh and a login that
    both time out: the caller gets the error of [login]. *)
Lemma refreshToken_falls_back_to_login_witness :
  let s := holding (Some (issued_at 0)) in
  let refused := Responded (Obj [("code", Num 2001);
                                 ("msg", Str "refresh token expired")]) in
  let granted := Responded (Obj [("access_token", Str "access-2");
                                 ("refresh_token", Str "refresh-2")]) in
  fst (refreshToken (scripted 5000 [refused; granted]) s)
  = Ok {| accessToken := Str "access-2";
          Types.refreshToken := Str "refresh-2";
          expiresAt := 5000 + TOKEN_REFRESH_INTERVAL |}
  /\ fst (refreshToken (scripted 5000 [Rejected timed_out;
                                       Rejected timed_out]) s)
     = Throw (Error "Login request failed (undefined): timeout of 30000ms exceeded").
Proof.
  intros s refused granted. split.
  - destruct (refreshToken_falls_back_to_login
                (scripted 5000 [refused; granted]) s) as (_ & F & _).
    destruct (F (issued_at 0) sample_credentials eq_refl eq_refl) as (_ & B).
    rewrite (B _ eq_refl (or_introl eq_refl)). reflexivity.
  - destruct (refreshToken_falls_back_to_login
                (scripted 5000 [Rejected timed_out; Rejected timed_out]) s)
      as (_ & F & _).
    destruct (F (issued_at 0) sample_credentials eq_refl eq_refl) as (R & _).
    rewrite (R _ eq_refl). reflexivity.
Defined.

(** ** The stored pair *)

Lemma stateless_ret {A} (a : A) : stateless (ret a).
Proof. intros s. now exists (Ok a). Qed.

Lemma stateless_throw {A} (e : exn) : stateless (@throw A e).
Proof. intros s. now exists (Throw e). Qed.

Lemma stateless_prop (v : value) (k : string) : stateless (prop v k).
Proof.
  unfold prop. destruct (get v k);
    [apply stateless_ret | apply stateless_throw].
Qed.

Lemma stateless_bind {A B} (m : M A) (k : A -> M B) :
  stateless m -> (forall a, stateless (k a)) -> stateless (x <- m ;; k x).
Proof.
  intros Hm Hk s. unfold bind.
  destruct (Hm s) as [[a|e] ->]; [apply Hk | now exists (Throw e)].
Qed.

Lemma stateless_lift {A} (o : outcome A) : stateless (lift o).
Proof. intros s. now exists o. Qed.

Ltac stateless_tac :=
  repeat first
    [ apply stateless_ret
    | apply stateless_throw
    | apply stateless_prop
    | apply stateless_lift
    | apply stateless_bind; [|intros ?]
    | match goal with
      | |- stateless (if ?b then _ else _) => destruct b
      | |- stateless (match ?v with Arr _ => _ | _ => _ end) => destruct v
      end ].

Lemma stateless_login_extract (data : value) : stateless (login_extract data).
Proof. unfold login_extract. stateless_tac. Qed.

Lemma stateless_login_check (data a : value) : stateless (login_check data a).
Proof. unfold login_check. stateless_tac. Qed.

Lemma login_catch_throws (e : exn) (s : state) :
  exists e', login_catch e s = (Throw e', s).
Proof.
  unfold login_catch. destruct e as [ae| | |]; try (eexists; reflexivity).
  destruct (response ae) as [r|]; [|eexists; reflexivity].
  destruct (status r =? 401); [eexists; reflexivity|].
  unfold bind, lift, ToString.
  destruct (printable _); eexists; reflexivity.
Qed.

(** [login_parse] either throws and leaves the state alone, or stores
    and returns a pair of two accepted tokens expiring 48 hours after
    the clock read it makes. *)
Lemma login_parse_outcome (w : env) (body : value) (s : state) :
  (exists e, login_parse w body s = (Throw e, s))
  \/ (exists a r,
        truthy a = true /\ truthy r = true
        /\ login_parse w body s
           = (Ok {| accessToken := a; Types.refreshToken := r;
                    expiresAt := clock w (reads s) + TOKEN_REFRESH_INTERVAL |},
              storing {| accessToken := a; Types.refreshToken := r;
                         expiresAt := clock w (reads s)
                                      + TOKEN_REFRESH_INTERVAL |}
                      (tick 1 s))).
Proof.
  unfold login_parse.
  destruct (stateless_login_extract body s) as [[[a r]|e] E].
  2:{ left. exists e. now apply bind_thrown. }
  rewrite (bind_ok _ _ _ _ _ E). cbn [fst snd].
  destruct (stateless_login_check body a s) as [[[]|e] E'].
  2:{ left. exists e. now apply bind_thrown. }
  rewrite (bind_ok _ _ _ _ _ E').
  destruct (truthy a) eqn:Ta; [destruct (truthy r) eqn:Tr|].
  - right. exists a, r. repeat split; try assumption.
    now apply login_store_ok.
  - left. unfold login_store. rewrite Ta, Tr. eexists; reflexivity.
  - left. unfold login_store. rewrite Ta. eexists; reflexivity.
Qed.

(** [login] keeps the stored pair whole: when it returns, the store
    holds the returned pair, both tokens of which passed the test of
    [login_store], expiring 48 hours after the moment of storing; when
    it throws, the store is as it was. *)
Lemma login_keeps_pair_whole (w : env) (s : state) :
  match login w s with
  | (Ok tk, s') =>
      currentTokens s' = Some tk /\ populated tk = true
      /\ expiresAt tk = clock w (S (reads s)) + TOKEN_REFRESH_INTERVAL
  | (Throw _, s') => currentTokens s' = currentTokens s
  end.
Proof.
  destruct (credentials s) as [creds|] eqn:C.
  - destruct (server w (List.length (sent s))) as [body|e] eqn:R.
    + rewrite (login_responded w s creds body C R). unfold try_catch.
      set (s1 := sending _ _).
      destruct (login_parse_outcome w body s1) as [[e ->] | (a & r & Ta & Tr & ->)].
      * destruct (login_catch_throws e s1) as [e' ->]. reflexivity.
      * unfold populated. cbn. now rewrite Ta, Tr.
    + rewrite (login_rejected w s creds e C R).
      destruct (login_catch_throws e
                  (sending (login_request creds (clock w (reads s)))
                           (tick 1 s))) as [e' ->].
      reflexivity.
  - unfold login. now rewrite bind_gets, C.
Qed.

Lemma setCredentials_keeps_pair (creds : WyzeCredentials) (s : state) :
  currentTokens (snd (setCredentials creds s)) = currentTokens s.
Proof. reflexivity. Qed.

(** A refresh that is accepted replaces the pair at once, by whatever
    the response has under [data], with the expiry estimate of the
    moment; the two tokens are not looked at. *)
Lemma refreshToken_accepted (w : env) (s : state) (tk : WyzeTokens)
    (creds : WyzeCredentials) (body : value) :
  currentTokens s = Some tk ->
  credentials s = Some creds ->
  server w (List.length (sent s)) = Responded body ->
  success_code (get_opt body "code") = true ->
  is_nullish (get_opt body "data") = false ->
  let d := get_opt body "data" in
  let tokens :=
    {| accessToken := get_opt d "access_token";
       Types.refreshToken := get_opt d "refresh_token";
       expiresAt := clock w (S (reads s)) + TOKEN_REFRESH_INTERVAL |} in
  refreshToken w s
  = (Ok tokens,
     storing tokens
       (tick 1 (sending (refresh_request tk creds (clock w (reads s)))
                        (tick 1 s)))).
Proof.
  intros T C R Sc D d tokens.
  rewrite (refreshToken_sent w s tk creds T C), R.
  destruct (refresh_parse_cases w body
              (sending (refresh_request tk creds (clock w (reads s)))
                       (tick 1 s))) as (_ & _ & _ & P).
  now rewrite (P Sc D).
Qed.

(** C7.  The store is whole before and after [setCredentials] and
    [login] (the two lemmas above), but [refreshToken] stores what the
    response carries without the test [login] makes.  At 47h01 after
    issuance, a refresh answered with code [1], a new access token and
    an empty refresh token replaces a whole pair by one whose refresh
    token is empty, where [login] refuses the same response and leaves
    the store alone; answered with code [1] and an empty [data], it
    stores a pair with neither token, and [ensureValidToken] hands
    [undefined] to its caller as the access token. *)
Theorem refreshToken_stores_unchecked_pair :
  let now := 47 * hour + minute in
  let s := holding (Some (issued_at 0)) in
  let half := Obj [("code", Num 1); ("msg", Str "");
                   ("data", Obj [("access_token", Str "access-2");
                                 ("refresh_token", Str "");
                                 ("user_id", Str "user-1")])] in
  let bare := Obj [("code", Num 1); ("data", Obj [])] in
  let half_pair := {| accessToken := Str "access-2";
                      Types.refreshToken := Str "";
                      expiresAt := now + TOKEN_REFRESH_INTERVAL |} in
  let bare_pair := {| accessToken := Undefined;
                      Types.refreshToken := Undefined;
                      expiresAt := now + TOKEN_REFRESH_INTERVAL |} in
  populated (issued_at 0) = true
  /\ fst (refreshToken (scripted now [Responded half]) s) = Ok half_pair
  /\ currentTokens (snd (refreshToken (scripted now [Responded half]) s))
     = Some half_pair
  /\ populated half_pair = false
  /\ fst (login (scripted now [Responded half]) s)
     = Throw (Error "Login failed: No access token in response")
  /\ currentTokens (snd (login (scripted now [Responded half]) s))
     = Some (issued_at 0)
  /\ currentTokens (snd (refreshToken (scripted now [Responded bare]) s))
     = Some bare_pair
  /\ populated bare_pair = false
  /\ fst (ensureValidToken (scripted now [Responded bare]) s) = Ok Undefined.
Proof.
  intros now s half bare half_pair bare_pair.
  repeat split; vm_compute; reflexivity.
Qed.

(** ** Brightness and colour temperature *)

Lemma round_nearest (q : Q) : nearest_integer q (Qfloor (q + (1 # 2))).
Proof.
  unfold nearest_integer.
  pose proof (Qlt_floor (q + (1 # 2))) as H.
  pose proof (Qfloor_le (q + (1 # 2))) as H'.
  rewrite inject_Z_plus in H.
  change (inject_Z 1) with 1%Q in H. split; lra.
Qed.

Lemma nearest_unique (q : Q) (z : Z) :
  nearest_integer q z -> z = Qfloor (q + (1 # 2)).
Proof.
  intros [Lo Hi].
  assert (A : (z <= Qfloor (q + (1 # 2)))%Z).
  { rewrite <- (Qfloor_Z z). now apply Qfloor_resp_le. }
  assert (B : (Qfloor (q + (1 # 2)) < z + 1)%Z).
  { rewrite Zlt_Qlt. pose proof (Qfloor_le (q + (1 # 2))) as H.
    rewrite inject_Z_plus. change (inject_Z 1) with 1%Q. lra. }
  lia.
Qed.

Lemma decimal_not_NaN (z : Z) : decimal z <> "NaN".
Proof.
  unfold decimal. intros E.
  assert (P : NilZero.int_of_string (NilZero.string_of_int (Z.to_int z))
              = None) by now rewrite E.
  destruct (Z.to_int z) as [[| | | | | | | | | |]|[| | | | | | | | | |]] eqn:D;
    try discriminate E;
    rewrite NilZero.isi in P; discriminate.
Qed.

Lemma stateless_check_code (what : string) (data : value) :
  stateless (check_code what data).
Proof. unfold check_code. stateless_tac. Qed.

(** What [setDeviceProperty] sends once it has a token. *)
Lemma setDeviceProperty_sends (w : env) (s s1 : state) (token : value)
    (deviceMac deviceModel propertyId propertyValue : string) :
  ensureValidToken w s = (Ok token, s1) ->
  exists r,
    sent (snd (setDeviceProperty w deviceMac deviceModel propertyId
                 propertyValue s)) = r :: sent s1
    /\ url r = API_BASE_URL ++ "/app/v2/device/set_property"
    /\ get_opt (payload r) "pid" = Str propertyId
    /\ get_opt (payload r) "pvalue" = Str propertyValue.
Proof.
  intros E. unfold setDeviceProperty.
  rewrite (bind_ok _ _ _ _ _ E).
  unfold createBasePayload. rewrite bind_bind, bind_Date_now, bind_ret.
  unfold axios_post. rewrite bind_axios.
  eexists. split; [|split; [|split]].
  - destruct (server w (List.length (sent (tick 1 s1)))) as [body|e].
    + match goal with
      | |- context [check_code ?what ?b ?st] =>
          destruct (stateless_check_code what b st) as [o ->]
      end.
      reflexivity.
    + reflexivity.
  - reflexivity.
  - reflexivity.
  - reflexivity.
Qed.

Lemma nearest_of_integer (z : Z) : nearest_integer (inject_Z z) z.
Proof. unfold nearest_integer. split; lra. Qed.

Lemma clamp_bounds (lo hi z : Z) : lo <= hi -> lo <= clamp lo hi z <= hi.
Proof. unfold clamp. lia. Qed.

Lemma clamp_idempotent (lo hi z : Z) :
  lo <= hi -> clamp lo hi (clamp lo hi z) = clamp lo hi z.
Proof. unfold clamp. lia. Qed.

(** C8, as the code has it.  For every input other than NaN,
    [setDeviceBrightness] passes to [setDeviceProperty], and so puts in
    the [pvalue] of the request, the decimal form of an integer of
    [1, 100], and [setDeviceColorTemp] that of an integer of
    [2700, 6500]: for a finite input, the nearest integer clamped to
    the interval; for +Infinity the upper bound and for -Infinity the
    lower one.  Nothing is thrown on the way: the call goes on exactly
    as for the integer sent. *)
Theorem clamped_before_sending :
  forall (w : env) (deviceMac deviceModel : string) (x : number),
    x <> NaN ->
    exists b c : Z,
      1 <= b <= 100 /\ 2700 <= c <= 6500
      /\ setDeviceBrightness w deviceMac deviceModel x
         = setDeviceProperty w deviceMac deviceModel PropertyId.BRIGHTNESS
             (decimal b)
      /\ setDeviceColorTemp w deviceMac deviceModel x
         = setDeviceProperty w deviceMac deviceModel PropertyId.COLOR_TEMP
             (decimal c)
      /\ (forall q z,
            x = Finite q -> nearest_integer q z ->
            b = clamp 1 100 z /\ c = clamp 2700 6500 z)
      /\ (x = Infinity false -> b = 100 /\ c = 6500)
      /\ (x = Infinity true -> b = 1 /\ c = 2700)
      /\ setDeviceBrightness w deviceMac deviceModel x
         = setDeviceBrightness w deviceMac deviceModel (Finite (inject_Z b))
      /\ setDeviceColorTemp w deviceMac deviceModel x
         = setDeviceColorTemp w deviceMac deviceModel (Finite (inject_Z c))
      /\ (forall s s1 token,
            ensureValidToken w s = (Ok token, s1) ->
            exists r,
              sent (snd (setDeviceBrightness w deviceMac deviceModel x s))
              = r :: sent s1
              /\ get_opt (payload r) "pid" = Str "P1501"
              /\ get_opt (payload r) "pvalue" = Str (decimal b)).
Proof.
  intros w deviceMac deviceModel x Hx.
  assert (Back : forall lo hi z, lo <= hi ->
            clamp lo hi (Qfloor (inject_Z (clamp lo hi z) + (1 # 2)))
            = clamp lo hi z).
  { intros lo hi z L.
    rewrite <- (nearest_unique _ _ (nearest_of_integer (clamp lo hi z))).
    now apply clamp_idempotent. }
  assert (Sends : forall b,
            setDeviceBrightness w deviceMac deviceModel x
            = setDeviceProperty w deviceMac deviceModel PropertyId.BRIGHTNESS
                (decimal b) ->
            forall s s1 token,
              ensureValidToken w s = (Ok token, s1) ->
              exists r,
                sent (snd (setDeviceBrightness w deviceMac deviceModel x s))
                = r :: sent s1
                /\ get_opt (payload r) "pid" = Str "P1501"
                /\ get_opt (payload r) "pvalue" = Str (decimal b)).
  { intros b E s s1 token V. rewrite E.
    destruct (setDeviceProperty_sends w s s1 token deviceMac deviceModel
                PropertyId.BRIGHTNESS (decimal b) V) as (r & S & _ & P & PV).
    now exists r. }
  destruct x as [|[|]|q]; [congruence| | |].
  - exists 1, 2700.
    split; [lia|]. split; [lia|]. split; [reflexivity|].
    split; [reflexivity|]. split; [intros; discriminate|].
    split; [intros; discriminate|].
    split; [intros _; split; reflexivity|].
    split; [reflexivity|]. split; [reflexivity|].
    now apply Sends.
  - exists 100, 6500.
    split; [lia|]. split; [lia|]. split; [reflexivity|].
    split; [reflexivity|]. split; [intros; discriminate|].
    split; [intros _; split; reflexivity|].
    split; [intros; discriminate|].
    split; [reflexivity|]. split; [reflexivity|].
    now apply Sends.
  - exists (clamp 1 100 (Qfloor (q + (1 # 2)))),
           (clamp 2700 6500 (Qfloor (q + (1 # 2)))).
    split; [apply clamp_bounds; lia|].
    split; [apply clamp_bounds; lia|].
    split; [reflexivity|]. split; [reflexivity|].
    split.
    { intros q' z [= <-] N. now rewrite (nearest_unique q z N). }
    split; [intros; discriminate|]. split; [intros; discriminate|].
    split.
    { unfold setDeviceBrightness, Math_round, Math_min, Math_max.
      fold (clamp 1 100 (Qfloor (q + (1 # 2)))).
      fold (clamp 1 100
              (Qfloor (inject_Z (clamp 1 100 (Qfloor (q + (1 # 2))))
                       + (1 # 2)))).
      rewrite Back by lia. reflexivity. }
    split.
    { unfold setDeviceColorTemp, Math_round, Math_min, Math_max.
      fold (clamp 2700 6500 (Qfloor (q + (1 # 2)))).
      fold (clamp 2700 6500
              (Qfloor (inject_Z (clamp 2700 6500 (Qfloor (q + (1 # 2))))
                       + (1 # 2)))).
      rewrite Back by lia. reflexivity. }
    now apply Sends.
Qed.

(** The examples of the specification: brightness 150 is sent as
    ["100"], brightness 0 as ["1"], and 2000 K as ["2700"]. *)
Lemma clamped_before_sending_witness :
  let w := frozen hour (Rejected (Error "offline")) in
  setDeviceBrightness w "AA:BB:CC" "WLPA19" (Finite 150)
  = setDeviceProperty w "AA:BB:CC" "WLPA19" "P1501" "100"
  /\ setDeviceBrightness w "AA:BB:CC" "WLPA19" (Finite 0)
     = setDeviceProperty w "AA:BB:CC" "WLPA19" "P1501" "1"
  /\ setDeviceColorTemp w "AA:BB:CC" "WLPA19" (Finite 2000)
     = setDeviceProperty w "AA:BB:CC" "WLPA19" "P1502" "2700".
Proof.
  intros w.
  assert (Ne : forall q, Finite q <> NaN) by (intros q; discriminate).
  split; [|split].
  - destruct (clamped_before_sending w "AA:BB:CC" "WLPA19" (Finite 150)
                (Ne _)) as (b & c & _ & _ & B & _ & R & _).
    destruct (R 150%Q 150 eq_refl (nearest_of_integer 150)) as [-> _].
    exact B.
  - destruct (clamped_before_sending w "AA:BB:CC" "WLPA19" (Finite 0)
                (Ne _)) as (b & c & _ & _ & B & _ & R & _).
    destruct (R 0%Q 0 eq_refl (nearest_of_integer 0)) as [-> _].
    exact B.
  - destruct (clamped_before_sending w "AA:BB:CC" "WLPA19" (Finite 2000)
                (Ne _)) as (b & c & _ & _ & _ & C & R & _).
    destruct (R 2000%Q 2000 eq_refl (nearest_of_integer 2000)) as [_ ->].
    exact C.
Defined.

(** C8 as stated fails at NaN, which is a number: [Math.round],
    [Math.min] and [Math.max] all yield NaN, and the request carries
    the text ["NaN"], the decimal form of no integer. *)
Lemma clamped_before_sending_counterexample :
  let w := frozen hour (Responded (Obj [("code", Num 1)])) in
  let s := holding (Some (issued_at 0)) in
  map (fun r => get_opt (payload r) "pvalue")
      (sent (snd (setDeviceBrightness w "AA:BB:CC" "WLPA19" NaN s)))
  = [Str "NaN"]
  /\ map (fun r => get_opt (payload r) "pvalue")
         (sent (snd (setDeviceColorTemp w "AA:BB:CC" "WLPA19" NaN s)))
     = [Str "NaN"]
  /\ fst (setDeviceBrightness w "AA:BB:CC" "WLPA19" NaN s) = Ok tt
  /\ forall z : Z, Str (decimal z) <> Str "NaN".
Proof.
  intros w s. split; [|split; [|split]]; try (vm_compute; reflexivity).
  intros z [= E]. now apply (decimal_not_NaN z).
Qed.

(** ** The error classifier *)

(** The check of the envelope on a body that is not [null]. *)
Lemma check_code_outcome (what : string) (body : value) (s : state) :
  is_nullish body = false ->
  check_code what body s
  = if success_code (get_opt body "code") then (Ok tt, s)
    else (Throw (if printable (get_opt body "msg")
                 then Error (what ++ ": " ++ to_string (get_opt body "msg"))
                 else unprintable), s).
Proof.
  intros D. unfold check_code.
  rewrite (prop_defined body "code" D), bind_ret, not_success_code.
  destruct (success_code (get_opt body "code")); cbn [negb]; [reflexivity|].
  rewrite (prop_defined body "msg" D), bind_ret. unfold ToString.
  destruct (printable (get_opt body "msg")); now repeat step.
Qed.

Lemma check_code_nullish (what : string) (body : value) (s : state) :
  is_nullish body = true ->
  exists m, check_code what body s = (Throw (TypeError m), s).
Proof.
  intros N. unfold check_code.
  destruct body; try discriminate; eexists; reflexivity.
Qed.






(** * Further properties of the code *)

(** ** Start-up configuration *)

(** X1. [initAuthFromEnv] fails for the first of WYZE_EMAIL,
    WYZE_PASSWORD, WYZE_API_KEY, WYZE_KEY_ID that is unset or empty,
    with an error naming that variable and without touching the state;
    when none is, it stores the four values as the credentials, all
    four non-empty, and touches nothing else. *)
Theorem initAuthFromEnv_first_missing :
  forall (process_env : string -> option string) (s : state),
    match find (fun name => negb (env_present (process_env name)))
               required_variables with
    | Some name =>
        initAuthFromEnv process_env s
        = (Throw (Error (name ++ " environment variable is required")), s)
    | None =>
        exists creds,
          initAuthFromEnv process_env s
          = (Ok tt, {| currentTokens := currentTokens s;
                       credentials := Some creds;
                       reads := reads s; sent := sent s |})
          /\ process_env "WYZE_EMAIL" = Some (email creds)
          /\ process_env "WYZE_PASSWORD" = Some (password creds)
          /\ process_env "WYZE_API_KEY" = Some (apiKey creds)
          /\ process_env "WYZE_KEY_ID" = Some (keyId creds)
          /\ email creds <> "" /\ password creds <> ""
          /\ apiKey creds <> "" /\ keyId creds <> ""
    end.
Proof.
  intros process_env s. unfold initAuthFromEnv, required_variables.
  cbn [find].
  destruct (process_env "WYZE_EMAIL") as [e|] eqn:E; cbn [env_present negb];
    [destruct (String.eqb_spec e ""); cbn [negb]|]; try reflexivity.
  destruct (process_env "WYZE_PASSWORD") as [p|] eqn:P;
    cbn [env_present negb];
    [destruct (String.eqb_spec p ""); cbn [negb]|]; try reflexivity.
  destruct (process_env "WYZE_API_KEY") as [a|] eqn:A;
    cbn [env_present negb];
    [destruct (String.eqb_spec a ""); cbn [negb]|]; try reflexivity.
  destruct (process_env "WYZE_KEY_ID") as [k|] eqn:K;
    cbn [env_present negb];
    [destruct (String.eqb_spec k ""); cbn [negb]|]; try reflexivity.
  exists {| email := e; password := p; apiKey := a; keyId := k |}.
  cbn. repeat (split; [first [reflexivity | assumption]|]). assumption.
Qed.

(** ** What the token functions leave behind *)

Lemma login_catch_outcome (e : exn) (s : state) :
  exists e', login_catch e s = (Throw e', s) /\ is_axios_error e' = false.
Proof.
  unfold login_catch. destruct e as [ae| | |];
    try (eexists; split; reflexivity).
  destruct (response ae) as [r|]; [|eexists; split; reflexivity].
  destruct (status r =? 401); [eexists; split; reflexivity|].
  unfold bind, lift, ToString.
  destruct (printable _); eexists; split; reflexivity.
Qed.

(** Everything [login] can leave behind. *)
Lemma login_outcome (w : env) (s : state) :
  match login w s with
  | (Ok tk, s') =>
      currentTokens s' = Some tk /\ populated tk = true
      /\ expiresAt tk = clock w (S (reads s)) + TOKEN_REFRESH_INTERVAL
      /\ credentials s' = credentials s
      /\ exists creds,
           credentials s = Some creds
           /\ sent s' = login_request creds (clock w (reads s)) :: sent s
  | (Throw e, s') =>
      currentTokens s' = currentTokens s /\ is_axios_error e = false
      /\ credentials s' = credentials s
      /\ (sent s' = sent s
          \/ exists creds,
               credentials s = Some creds
               /\ sent s' = login_request creds (clock w (reads s)) :: sent s)
  end.
Proof.
  destruct (credentials s) as [creds|] eqn:C.
  - destruct (server w (List.length (sent s))) as [body|e] eqn:R.
    + rewrite (login_responded w s creds body C R). unfold try_catch.
      set (s1 := sending _ _).
      destruct (login_parse_outcome w body s1)
        as [[e ->] | (a & r & Ta & Tr & ->)].
      * destruct (login_catch_outcome e s1) as (e' & -> & Na).
        repeat split; try assumption. right. now exists creds.
      * unfold populated. cbn. rewrite Ta, Tr.
        repeat split; try assumption. now exists creds.
    + rewrite (login_rejected w s creds e C R).
      destruct (login_catch_outcome e
                  (sending (login_request creds (clock w (reads s)))
                           (tick 1 s))) as (e' & -> & Na).
      repeat split; try assumption. right. now exists creds.
  - unfold login. rewrite bind_gets, C. cbn. repeat split; try assumption.
    now left.
Qed.

(** Everything [refreshToken] can leave behind. *)
Lemma refreshToken_outcome (w : env) (s : state) :
  match refreshToken w s with
  | (Ok tk, s') =>
      currentTokens s' = Some tk
      /\ (exists n, expiresAt tk = clock w n + TOKEN_REFRESH_INTERVAL)
      /\ credentials s' = credentials s
      /\ exists new,
           sent s' = (new ++ sent s)%list /\ (List.length new <= 2)%nat
           /\ Forall (fun r => url r = login_url \/ url r = refresh_url) new
  | (Throw e, s') =>
      (exists s0, login w s0 = (Throw e, s'))
      /\ is_axios_error e = false
      /\ credentials s' = credentials s
      /\ exists new,
           sent s' = (new ++ sent s)%list /\ (List.length new <= 2)%nat
           /\ Forall (fun r => url r = login_url \/ url r = refresh_url) new
  end.
Proof.
  assert (After : forall s0 pre,
            credentials s0 = credentials s ->
            sent s0 = (pre ++ sent s)%list -> (List.length pre <= 1)%nat ->
            Forall (fun r => url r = login_url \/ url r = refresh_url) pre ->
            match login w s0 with
            | (Ok tk, s') =>
                currentTokens s' = Some tk
                /\ (exists n, expiresAt tk = clock w n + TOKEN_REFRESH_INTERVAL)
                /\ credentials s' = credentials s
                /\ exists new,
                     sent s' = (new ++ sent s)%list
                     /\ (List.length new <= 2)%nat
                     /\ Forall (fun r => url r = login_url
                                         \/ url r = refresh_url) new
            | (Throw e, s') =>
                (exists s1, login w s1 = (Throw e, s'))
                /\ is_axios_error e = false
                /\ credentials s' = credentials s
                /\ exists new,
                     sent s' = (new ++ sent s)%list
                     /\ (List.length new <= 2)%nat
                     /\ Forall (fun r => url r = login_url
                                         \/ url r = refresh_url) new
            end).
  { intros s0 pre Cs Ss Lp Fp. pose proof (login_outcome w s0) as L.
    destruct (login w s0) as [[tk|e] s'] eqn:E.
    - destruct L as (T & _ & X & C' & creds & _ & S').
      split; [exact T|]. split; [eexists; exact X|].
      split; [congruence|].
      exists (login_request creds (clock w (reads s0)) :: pre).
      rewrite S', Ss. split; [reflexivity|]. split; [simpl; lia|].
      constructor; [now left | exact Fp].
    - destruct L as (_ & Na & C' & S').
      split; [now exists s0|]. split; [exact Na|]. split; [congruence|].
      destruct S' as [S' | (creds & _ & S')].
      + exists pre. rewrite S', Ss. repeat split; [lia | exact Fp].
      + exists (login_request creds (clock w (reads s0)) :: pre).
        rewrite S', Ss. split; [reflexivity|]. split; [simpl; lia|].
        constructor; [now left | exact Fp]. }
  destruct (currentTokens s) as [tk|] eqn:T.
  - destruct (credentials s) as [creds|] eqn:C.
    + rewrite (refreshToken_sent w s tk creds T C).
      set (rq := refresh_request tk creds (clock w (reads s))).
      set (s1 := sending rq (tick 1 s)).
      assert (F1 : Forall (fun r => url r = login_url \/ url r = refresh_url)
                     [rq]) by (constructor; [now right | constructor]).
      assert (A1 := After s1 [rq] C eq_refl (le_n 1) F1).
      destruct (server w (List.length (sent s))) as [body|e0];
        [|exact A1].
      destruct (refresh_parse_cases w body s1) as (P1 & P2 & P3 & P4).
      destruct (is_nullish body) eqn:N.
      * destruct (P1 eq_refl) as [e ->]. exact A1.
      * destruct (success_code (get_opt body "code")) eqn:Sc.
        -- destruct (is_nullish (get_opt body "data")) eqn:D.
           ++ destruct (P3 eq_refl eq_refl) as [e ->]. exact A1.
           ++ rewrite (P4 eq_refl eq_refl). cbn.
              split; [reflexivity|]. split; [eexists; reflexivity|].
              split; [exact C|].
              exists [rq]. split; [reflexivity|]. split; [simpl; lia|].
              exact F1.
        -- rewrite (P2 eq_refl eq_refl). exact A1.
    + unfold refreshToken. rewrite bind_gets, T, bind_gets, C.
      unfold throw. cbv beta iota.
      split.
      { exists s. unfold login. now rewrite bind_gets, C. }
      split; [reflexivity|]. split; [exact C|].
      exists []. split; [reflexivity|]. split; [simpl; lia | constructor].
  - unfold refreshToken. rewrite bind_gets, T.
    apply (After s []); [reflexivity | reflexivity | simpl; lia | constructor].
Qed.

Lemma current_access_token_of (s : state) (tk : WyzeTokens) :
  currentTokens s = Some tk ->
  current_access_token s = (Ok (accessToken tk), s).
Proof. intros T. unfold current_access_token. now rewrite bind_gets, T. Qed.

(** Everything [ensureValidToken] can leave behind: on success the
    store holds the pair whose access token is returned, and that pair
    is either the one that was there, still more than an hour from its
    expiry estimate, or a pair stored during the call; on failure the
    exception is one [login] threw. *)
Lemma ensureValidToken_outcome (w : env) (s : state) :
  match ensureValidToken w s with
  | (Ok v, s') =>
      credentials s' = credentials s
      /\ (exists new,
            sent s' = (new ++ sent s)%list /\ (List.length new <= 2)%nat
            /\ Forall (fun r => url r = login_url \/ url r = refresh_url) new)
      /\ exists tk,
           currentTokens s' = Some tk /\ accessToken tk = v
           /\ ((currentTokens s = Some tk /\ s' = tick 2 s
                /\ clock w (S (reads s)) < expiresAt tk - 60 * 60 * 1000)
               \/ exists n, expiresAt tk = clock w n + TOKEN_REFRESH_INTERVAL)
  | (Throw e, s') =>
      credentials s' = credentials s
      /\ (exists new,
            sent s' = (new ++ sent s)%list /\ (List.length new <= 2)%nat
            /\ Forall (fun r => url r = login_url \/ url r = refresh_url) new)
      /\ (exists s0, login w s0 = (Throw e, s'))
      /\ is_axios_error e = false
  end.
Proof.
  assert (ViaLogin : forall s0,
            credentials s0 = credentials s -> sent s0 = sent s ->
            match (login w ;; current_access_token) s0 with
            | (Ok v, s') =>
                credentials s' = credentials s
                /\ (exists new,
                      sent s' = (new ++ sent s)%list
                      /\ (List.length new <= 2)%nat
                      /\ Forall (fun r => url r = login_url
                                          \/ url r = refresh_url) new)
                /\ exists tk,
                     currentTokens s' = Some tk /\ accessToken tk = v
                     /\ ((currentTokens s = Some tk /\ s' = tick 2 s
                          /\ clock w (S (reads s))
                             < expiresAt tk - 60 * 60 * 1000)
                         \/ exists n,
                              expiresAt tk
                              = clock w n + TOKEN_REFRESH_INTERVAL)
            | (Throw e, s') =>
                credentials s' = credentials s
                /\ (exists new,
                      sent s' = (new ++ sent s)%list
                      /\ (List.length new <= 2)%nat
                      /\ Forall (fun r => url r = login_url
                                          \/ url r = refresh_url) new)
                /\ (exists s1, login w s1 = (Throw e, s'))
                /\ is_axios_error e = false
            end).
  { intros s0 Cs Ss. pose proof (login_outcome w s0) as L.
    destruct (login w s0) as [[tk|e] s'] eqn:E.
    - rewrite (bind_ok _ _ _ _ _ E).
      destruct L as (T & _ & X & C' & creds & _ & S').
      rewrite (current_access_token_of s' tk T).
      split; [congruence|]. split.
      { exists [login_request creds (clock w (reads s0))].
        rewrite S', Ss. split; [reflexivity|]. split; [simpl; lia|].
        constructor; [now left | constructor]. }
      exists tk. split; [exact T|]. split; [reflexivity|].
      right. eexists; exact X.
    - rewrite (bind_thrown _ _ _ _ _ E).
      destruct L as (_ & Na & C' & S').
      split; [congruence|]. split.
      { destruct S' as [S' | (creds & _ & S')].
        - exists []. rewrite S', Ss. split; [reflexivity|].
          split; [simpl; lia | constructor].
        - exists [login_request creds (clock w (reads s0))].
          rewrite S', Ss. split; [reflexivity|]. split; [simpl; lia|].
          constructor; [now left | constructor]. }
      split; [now exists s0 | exact Na]. }
  pose proof (ensureValidToken_decision w s) as D.
  destruct (currentTokens s) as [tk0|] eqn:T.
  - destruct (expiresAt tk0 <=? clock w (reads s)).
    + rewrite D. now apply ViaLogin.
    + destruct (Z.leb_spec (expiresAt tk0 - 60 * 60 * 1000)
                  (clock w (S (reads s)))) as [Near|Far].
      * rewrite D. pose proof (refreshToken_outcome w (tick 2 s)) as R.
        destruct (refreshToken w (tick 2 s)) as [[tk|e] s'] eqn:E.
        -- rewrite (bind_ok _ _ _ _ _ E).
           destruct R as (T' & X & C' & F).
           rewrite (current_access_token_of s' tk T').
           split; [exact C'|]. split; [exact F|].
           exists tk. split; [exact T'|]. split; [reflexivity|].
           now right.
        -- rewrite (bind_thrown _ _ _ _ _ E).
           destruct R as (P & Na & C' & F).
           split; [exact C'|]. split; [exact F|]. split; assumption.
      * rewrite D. split; [reflexivity|]. split.
        { exists []. split; [reflexivity|].
          split; [simpl; lia | constructor]. }
        exists tk0. split; [exact T|]. split; [reflexivity|].
        left. split; [reflexivity|]. split; [reflexivity | exact Far].
  - rewrite D. now apply ViaLogin.
Qed.

(** ** Failures of authentication *)

(** X2. When [login] throws, the store is as it was and the exception
    is never an [AxiosError].  A request rejected with an HTTP response
    of status 401 is turned into the invalid-credentials error; with
    any other status it is turned into the error "Login request failed"
    that carries the status and the message of the response, or, when
    that message cannot be converted to a string, into the TypeError of
    the conversion; so the invalid-credentials error is thrown exactly
    when the status is 401. *)
Theorem login_normalises_errors :
  forall (w : env) (s : state),
    match login w s with
    | (Throw e, s') =>
        is_axios_error e = false /\ currentTokens s' = currentTokens s
    | (Ok _, _) => True
    end
    /\ forall creds a r,
         credentials s = Some creds ->
         server w (List.length (sent s)) = Rejected (AxiosError a) ->
         response a = Some r ->
         let invalid :=
           Error "Invalid credentials. Please check your email, password, API key, and key ID." in
         let errorMsg :=
           or_ (or_ (or_ (get_opt (data r) "msg") (get_opt (data r) "message"))
                    (get_opt (data r) "description"))
               (Str (message a)) in
         fst (login w s)
         = Throw (if status r =? 401 then invalid
                  else if printable errorMsg
                       then Error ("Login request failed ("
                                   ++ decimal (status r) ++ "): "
                                   ++ to_string errorMsg)
                       else unprintable)
         /\ (fst (login w s) = Throw invalid <-> status r = 401).
Proof.
  intros w s. split.
  - pose proof (login_outcome w s) as L.
    destruct (login w s) as [[tk|e] s']; [exact I|].
    destruct L as (T & Na & _). now split.
  - intros creds a r C R Rs invalid errorMsg.
    rewrite (login_rejected w s creds _ C R).
    unfold login_catch. rewrite Rs. fold errorMsg.
    destruct (Z.eqb_spec (status r) 401) as [E|N].
    + split; [reflexivity|]. now split.
    + unfold ToString. destruct (printable errorMsg); repeat step;
        (split; [reflexivity|]); (split; [|contradiction]);
        simpl; discriminate.
Qed.

(** A login rejected with status 401, one rejected with status 429,
    and one rejected with a message that cannot be printed. *)
Lemma login_normalises_errors_witness :
  let rejected st msg :=
    Rejected (AxiosError {| response := Some {| status := st;
                                                data := Obj [("msg", msg)] |};
                            code := Some "ERR_BAD_REQUEST";
                            message := "Request failed" |}) in
  fst (login (frozen 5000 (rejected 401 (Str "slow down"))) (holding None))
  = Throw (Error "Invalid credentials. Please check your email, password, API key, and key ID.")
  /\ fst (login (frozen 5000 (rejected 429 (Str "slow down"))) (holding None))
     = Throw (Error "Login request failed (429): slow down")
  /\ fst (login (frozen 5000 (rejected 500 (Obj [("toString", Num 1)])))
            (holding None))
     = Throw (TypeError "Cannot convert object to primitive value").
Proof.
  intros rejected. split; [|split].
  - destruct (login_normalises_errors
                (frozen 5000 (rejected 401 (Str "slow down")))
                (holding None)) as (_ & H).
    destruct (H sample_credentials _ _ eq_refl eq_refl eq_refl) as (E & _).
    exact E.
  - destruct (login_normalises_errors
                (frozen 5000 (rejected 429 (Str "slow down")))
                (holding None)) as (_ & H).
    destruct (H sample_credentials _ _ eq_refl eq_refl eq_refl) as (E & _).
    exact E.
  - destruct (login_normalises_errors
                (frozen 5000 (rejected 500 (Obj [("toString", Num 1)])))
                (holding None)) as (_ & H).
    destruct (H sample_credentials _ _ eq_refl eq_refl eq_refl) as (E & _).
    exact E.
Defined.

(** X3. When [ensureValidToken] returns, the store holds a pair and
    the value returned is the access token of that pair; the guard
    "Failed to obtain access token" at its end is never what stops it:
    whatever [ensureValidToken] throws was thrown by [login]. *)
Theorem ensureValidToken_returns_stored_token :
  forall (w : env) (s : state),
    match ensureValidToken w s with
    | (Ok v, s') =>
        exists tk, currentTokens s' = Some tk /\ accessToken tk = v
    | (Throw e, s') => exists s0, login w s0 = (Throw e, s')
    end.
Proof.
  intros w s. pose proof (ensureValidToken_outcome w s) as O.
  destruct (ensureValidToken w s) as [[v|e] s'].
  - destruct O as (_ & _ & tk & T & A & _). now exists tk.
  - now destruct O as (_ & _ & L & _).
Qed.

(** X4. A failure to authenticate is never classified by HTTP
    status: what [ensureValidToken] throws is not an [AxiosError], so
    [handleApiError] reports it as "Error: " followed by the message of
    [login] (a login refused with 401 or 429 does not get the
    classifier's own texts for these statuses); a thrown value that is
    no error object is printed after "Error: " as [String] prints
    it. *)
Theorem auth_failure_reported_verbatim :
  forall (w : env) (s : state),
    match ensureValidToken w s with
    | (Throw e, _) =>
        is_axios_error e = false
        /\ handleApiError e
           = and_then (exn_text e) (fun text => Ok ("Error: " ++ text))
    | (Ok _, _) => True
    end.
Proof.
  intros w s. pose proof (ensureValidToken_outcome w s) as O.
  destruct (ensureValidToken w s) as [[v|e] s']; [exact I|].
  destruct O as (_ & _ & _ & Na). split; [exact Na|].
  destruct e; [discriminate | reflexivity | reflexivity | reflexivity].
Qed.

(** X5. [ensureValidToken] never changes the credentials and sends
    at most two requests, each to the login or to the refresh endpoint:
    there is no retry beyond the one fall-back from refresh to
    login. *)
Theorem ensureValidToken_request_budget :
  forall (w : env) (s : state),
    credentials (snd (ensureValidToken w s)) = credentials s
    /\ exists new,
         sent (snd (ensureValidToken w s)) = (new ++ sent s)%list
         /\ (List.length new <= 2)%nat
         /\ Forall (fun r => url r = login_url \/ url r = refresh_url) new.
Proof.
  intros w s. pose proof (ensureValidToken_outcome w s) as O.
  destruct (ensureValidToken w s) as [[v|e] s'];
    destruct O as (C & F & _); now split.
Qed.

(** X6. At one instant the token is fetched once: when a call of
    [ensureValidToken] has returned a token, a second call, the clock
    not having moved, returns the same token and sends nothing. *)
Theorem ensureValidToken_idempotent_at_an_instant :
  forall (w : env) (now : Z) (s s1 : state) (v : value),
    (forall n, clock w n = now) ->
    ensureValidToken w s = (Ok v, s1) ->
    ensureValidToken w s1 = (Ok v, tick 2 s1).
Proof.
  intros w now s s1 v Frozen E.
  pose proof (ensureValidToken_outcome w s) as O. rewrite E in O.
  destruct O as (_ & _ & tk & T & A & Fresh).
  assert (Far : now < expiresAt tk - 60 * 60 * 1000).
  { destruct Fresh as [(_ & _ & Lt) | [n X]].
    - now rewrite Frozen in Lt.
    - rewrite X, Frozen. unfold TOKEN_REFRESH_INTERVAL. lia. }
  pose proof (ensureValidToken_decision w s1) as D.
  rewrite T, !Frozen in D.
  destruct (Z.leb_spec (expiresAt tk) now) as [Le|_]; [lia|].
  destruct (Z.leb_spec (expiresAt tk - 60 * 60 * 1000) now) as [Le|_]; [lia|].
  now rewrite D, A.
Qed.

(** A first call that logs in, and the call that follows it. *)
Lemma ensureValidToken_idempotent_at_an_instant_witness :
  let w := frozen 5000 (Responded (Obj [("access_token", Str "access-2");
                                        ("refresh_token", Str "refresh-2")])) in
  fst (ensureValidToken w (holding None)) = Ok (Str "access-2")
  /\ ensureValidToken w (snd (ensureValidToken w (holding None)))
     = (Ok (Str "access-2"), tick 2 (snd (ensureValidToken w (holding None)))).
Proof.
  intros w.
  assert (E : fst (ensureValidToken w (holding None)) = Ok (Str "access-2"))
    by reflexivity.
  split; [exact E|].
  apply (ensureValidToken_idempotent_at_an_instant w 5000 (holding None)).
  - reflexivity.
  - rewrite <- E. now destruct (ensureValidToken w (holding None)).
Defined.

(** ** The device and lock calls *)

Lemma success_code_iff (c : value) :
  success_code c = true <-> c = Str "1" \/ c = Num 1.
Proof.
  unfold success_code. split.
  - destruct c; simpl; try discriminate.
    + intros H. apply Z.eqb_eq in H. right. now subst.
    + rewrite orb_false_r. intros H. apply String.eqb_eq in H. left.
      now subst.
  - intros [-> | ->]; reflexivity.
Qed.


(** X8. A standard call succeeds exactly when the [code] of the
    response is the string "1" or the number 1.  With any other code,
    a response that arrived with HTTP success is a failure carrying the
    [msg] of the response as it is, or, when the [msg] cannot be
    converted to a string, the TypeError of the conversion; a response
    whose body is [null] is a TypeError. *)
Theorem standard_call_envelope :
  forall (w : env) (s s1 : state) (token body : value)
         (mac model pid pvalue instance provider action : string)
         (params : value),
    ensureValidToken w s = (Ok token, s1) ->
    server w (List.length (sent s1)) = Responded body ->
    let set := fst (setDeviceProperty w mac model pid pvalue s) in
    let run := fst (runDeviceAction w instance provider action params s) in
    let code := get_opt body "code" in
    let msg := get_opt body "msg" in
    (is_nullish body = false ->
     (set = Ok tt <-> code = Str "1" \/ code = Num 1)
     /\ (run = Ok tt <-> code = Str "1" \/ code = Num 1)
     /\ (success_code code = false ->
         set = Throw (if printable msg
                      then Error ("Failed to set property: " ++ to_string msg)
                      else unprintable)
         /\ run = Throw (if printable msg
                         then Error ("Failed to run action: "
                                     ++ to_string msg)
                         else unprintable)))
    /\ (is_nullish body = true ->
        (exists m, set = Throw (TypeError m))
        /\ (exists m, run = Throw (TypeError m))).
Proof.
  intros w s s1 token body mac model pid pvalue instance provider action
         params E R set run code msg.
  assert (HSet : exists rq,
            setDeviceProperty w mac model pid pvalue s
            = check_code "Failed to set property" body rq).
  { unfold setDeviceProperty. rewrite (bind_ok _ _ _ _ _ E).
    unfold createBasePayload. rewrite bind_bind, bind_Date_now, bind_ret.
    unfold axios_post. rewrite bind_axios. cbn [tick sent]. rewrite R.
    eexists. reflexivity. }
  assert (HRun : exists rq,
            runDeviceAction w instance provider action params s
            = check_code "Failed to run action" body rq).
  { unfold runDeviceAction. rewrite (bind_ok _ _ _ _ _ E).
    unfold createBasePayload. rewrite bind_bind, bind_Date_now, bind_ret.
    unfold axios_post. rewrite bind_axios. cbn [tick sent]. rewrite R.
    eexists. reflexivity. }
  destruct HSet as [rq1 HSet]. destruct HRun as [rq2 HRun].
  unfold set, run. rewrite HSet, HRun. split.
  - intros D. rewrite !(check_code_outcome _ body _ D). fold code msg.
    rewrite <- (success_code_iff code).
    destruct (success_code code); cbn [fst].
    + repeat split; try reflexivity; discriminate.
    + destruct (printable msg);
        repeat split; try reflexivity; discriminate.
  - intros N.
    destruct (check_code_nullish "Failed to set property" body rq1 N)
      as [m1 ->].
    destruct (check_code_nullish "Failed to run action" body rq2 N)
      as [m2 ->].
    split; eexists; reflexivity.
Qed.

(** A property set answered with code 2001 and the message
    "device offline", and one answered with a message that cannot be
    printed. *)
Lemma standard_call_envelope_witness :
  let answered msg :=
    frozen hour (Responded (Obj [("code", Num 2001); ("msg", msg)])) in
  let s := holding (Some (issued_at 0)) in
  fst (setDeviceProperty (answered (Str "device offline"))
         "AA:BB:CC" "WLPA19" "P3" "1" s)
  = Throw (Error "Failed to set property: device offline")
  /\ fst (setDeviceProperty (answered (Obj [("toString", Num 1)]))
            "AA:BB:CC" "WLPA19" "P3" "1" s)
     = Throw (TypeError "Cannot convert object to primitive value").
Proof.
  intros answered s. split.
  - destruct (standard_call_envelope (answered (Str "device offline")) s
                (tick 2 s) (Str "access-1")
                (Obj [("code", Num 2001); ("msg", Str "device offline")])
                "AA:BB:CC" "WLPA19" "P3" "1" "" "" "" Null
                eq_refl eq_refl) as (H & _).
    destruct (H eq_refl) as (_ & _ & F).
    destruct (F eq_refl) as (-> & _). reflexivity.
  - destruct (standard_call_envelope (answered (Obj [("toString", Num 1)])) s
                (tick 2 s) (Str "access-1")
                (Obj [("code", Num 2001); ("msg", Obj [("toString", Num 1)])])
                "AA:BB:CC" "WLPA19" "P3" "1" "" "" "" Null
                eq_refl eq_refl) as (H & _).
    destruct (H eq_refl) as (_ & _ & F).
    destruct (F eq_refl) as (-> & _). reflexivity.
Defined.

(** [getDeviceList] once it has a token and a response. *)
Lemma getDeviceList_responded (w : env) (s s1 : state) (token body : value) :
  ensureValidToken w s = (Ok token, s1) ->
  server w (List.length (sent s1)) = Responded body ->
  exists rq,
    url rq = API_BASE_URL ++ "/app/v2/home_page/get_object_list"
    /\ get_opt (payload rq) "access_token" = token
    /\ getDeviceList w s
       = (check_code "Failed to get device list" body ;;
          d <- prop body "data" ;;
          device_list <- prop d "device_list" ;;
          ret (or_ device_list (Arr []))) (sending rq (tick 1 s1)).
Proof.
  intros E R. unfold getDeviceList. rewrite (bind_ok _ _ _ _ _ E).
  unfold createBasePayload. rewrite bind_bind, bind_Date_now, bind_ret.
  unfold axios_post. rewrite bind_axios. cbn [tick sent]. rewrite R.
  eexists. split; [|split]. 3: reflexivity. all: reflexivity.
Qed.

(** X9. [getDeviceList], for a response with a success code: a
    [device_list] that is missing, [null] or otherwise falsy gives the
    empty list and no error; a list is returned as it is; a response
    without [data] is a TypeError.  With any other code the call fails
    with the [msg] of the response, or, when the [msg] cannot be
    converted to a string, with the TypeError of the conversion. *)
Theorem getDeviceList_defaults_to_empty :
  forall (w : env) (s s1 : state) (token body : value),
    ensureValidToken w s = (Ok token, s1) ->
    server w (List.length (sent s1)) = Responded body ->
    is_nullish body = false ->
    let data := get_opt body "data" in
    let device_list := get_opt data "device_list" in
    (success_code (get_opt body "code") = true ->
     (is_nullish data = false -> truthy device_list = false ->
      fst (getDeviceList w s) = Ok (Arr []))
     /\ (forall l, device_list = Arr l ->
                   fst (getDeviceList w s) = Ok (Arr l))
     /\ (is_nullish data = true ->
         exists m, fst (getDeviceList w s) = Throw (TypeError m)))
    /\ (success_code (get_opt body "code") = false ->
        fst (getDeviceList w s)
        = Throw (if printable (get_opt body "msg")
                 then Error ("Failed to get device list: "
                             ++ to_string (get_opt body "msg"))
                 else unprintable)).
Proof.
  intros w s s1 token body E R D data device_list.
  subst data device_list.
  destruct (getDeviceList_responded w s s1 token body E R)
    as (rq & _ & _ & G).
  assert (G' : getDeviceList w s
               = if success_code (get_opt body "code") then
                   (device_list <- prop (get_opt body "data") "device_list" ;;
                    ret (or_ device_list (Arr []))) (sending rq (tick 1 s1))
                 else
                   (Throw (if printable (get_opt body "msg")
                           then Error ("Failed to get device list: "
                                       ++ to_string (get_opt body "msg"))
                           else unprintable),
                    sending rq (tick 1 s1))).
  { rewrite G. unfold bind at 1. rewrite (check_code_outcome _ body _ D).
    destruct (success_code (get_opt body "code")); [|reflexivity].
    now rewrite (prop_defined body "data" D), bind_ret. }
  rewrite G'. clear G G'.
  split.
  - intros Sc. rewrite Sc.
    split; [|split].
    + intros Dd F. rewrite (prop_defined _ "device_list" Dd), bind_ret.
      unfold or_. now rewrite F.
    + intros l L.
      assert (Dd : is_nullish (get_opt body "data") = false).
      { apply get_opt_truthy_defined with "device_list". now rewrite L. }
      rewrite (prop_defined _ "device_list" Dd), bind_ret.
      now rewrite L.
    + intros N.
      destruct (get_opt body "data"); try discriminate;
        eexists; reflexivity.
  - intros F. now rewrite F.
Qed.

(** A success response whose [data] has no [device_list], and a
    refusal whose [msg] cannot be printed. *)
Lemma getDeviceList_defaults_to_empty_witness :
  let body := Obj [("code", Str "1"); ("data", Obj [])] in
  let refusal := Obj [("code", Num 2001);
                      ("msg", Obj [("toString", Num 1)])] in
  fst (getDeviceList (frozen hour (Responded body))
         (holding (Some (issued_at 0)))) = Ok (Arr [])
  /\ fst (getDeviceList (frozen hour (Responded refusal))
            (holding (Some (issued_at 0))))
     = Throw (TypeError "Cannot convert object to primitive value").
Proof.
  intros body refusal. split.
  - destruct (getDeviceList_defaults_to_empty (frozen hour (Responded body))
                (holding (Some (issued_at 0)))
                (tick 2 (holding (Some (issued_at 0)))) (Str "access-1") body
                eq_refl eq_refl eq_refl) as (H & _).
    destruct (H eq_refl) as (Empty & _).
    now apply Empty.
  - destruct (getDeviceList_defaults_to_empty
                (frozen hour (Responded refusal))
                (holding (Some (issued_at 0)))
                (tick 2 (holding (Some (issued_at 0)))) (Str "access-1")
                refusal eq_refl eq_refl eq_refl) as (_ & F).
    now rewrite (F eq_refl).
Defined.

(** ** The requests to the lock service *)

Lemma createFordSignature_perm (method path : string)
    (params params' : list (string * value)) (t t' : string) :
  NoDup (Object_keys params) -> Permutation params params' ->
  createFordSignature method path params' t'
  = createFordSignature method path params t.
Proof.
  intros N P.
  destruct (sorted_entries_exist _ N) as (entries & Pe & Se).
  rewrite (createFordSignature_sorted_entries _ _ params entries t N Pe Se).
  apply createFordSignature_sorted_entries; [|now rewrite Pe | exact Se].
  eapply Permutation_NoDup; [apply Permutation_map; exact P | exact N].
Qed.

Lemma sent_after_axios {A} (w : env) (rq : request) (k : value -> M A)
    (s : state) :
  (forall body, stateless (k body)) ->
  sent (snd ((data <- axios w rq ;; k data) s)) = rq :: sent s.
Proof.
  intros St. rewrite bind_axios.
  destruct (server w (List.length (sent s))) as [body|e]; [|reflexivity].
  now destruct (St body (sending rq s)) as [o ->].
Qed.

Lemma createFordSignature_returns (method path : string)
    (params : list (string * value)) (t : string) :
  NoDup (Object_keys params) ->
  forallb printable (map snd params) = true ->
  exists sign, createFordSignature method path params t = Ok sign.
Proof.
  intros N Pr. destruct (sorted_entries_exist _ N) as (entries & Pe & Se).
  rewrite (createFordSignature_sorted_entries _ _ params entries t N Pe Se).
  assert (Pr' : forallb printable (map snd entries) = true).
  { rewrite forallb_forall in *. intros v I. apply Pr.
    eapply Permutation_in; [apply Permutation_map; exact Pe | exact I]. }
  rewrite Pr'. now eexists.
Qed.

(** X10. The requests to the lock service verify.  With a token that
    is a string, [controlLock] sends by POST to the control path the
    token, the application key, the time of the call, the action and
    the device, and [getLockInfo] sends by GET to the info path the
    token, the application key, the time of the call, the device and
    [with_keypad]; in both the fields have distinct names, none of
    them [sign], and the [sign] sent with them is the signature of
    exactly these fields for the method and path of the request, in
    whatever order the receiver goes through them.  With a token that
    cannot be converted to a string, both calls throw the TypeError of
    the conversion and send nothing. *)
Theorem controlLock_request_verifies :
  forall (w : env) (s s1 : state) (token : value) (mac model : string)
         (which : lock_action),
    ensureValidToken w s = (Ok token, s1) ->
    let timestamp := Str (decimal (clock w (reads s1))) in
    let control :=
      [("access_token", token);
       ("key", Str FORD_APP_KEY);
       ("timestamp", timestamp);
       ("action", Str (action_name which));
       ("uuid", Str mac)] in
    let info :=
      [("access_token", token);
       ("key", Str FORD_APP_KEY);
       ("timestamp", timestamp);
       ("uuid", Str mac);
       ("with_keypad", Str "1")] in
    ((exists access, token = Str access) ->
     (exists sign,
        sent (snd (controlLock w mac model which s))
        = {| verb := "POST";
             url := LOCK_BASE_URL ++ "/openapi/lock/v1/control";
             headers := json_headers;
             payload := Obj (control ++ [("sign", Str sign)]) |} :: sent s1
        /\ NoDup (map fst control)
        /\ ~ In "sign" (map fst control)
        /\ forall received t,
             Permutation control received ->
             createFordSignature "POST" "/openapi/lock/v1/control" received t
             = Ok sign)
     /\ (exists sign,
           sent (snd (getLockInfo w mac s))
           = {| verb := "GET";
                url := LOCK_BASE_URL ++ "/openapi/lock/v1/info";
                headers := [];
                payload := Obj (info ++ [("sign", Str sign)]) |} :: sent s1
           /\ NoDup (map fst info)
           /\ ~ In "sign" (map fst info)
           /\ forall received t,
                Permutation info received ->
                createFordSignature "GET" "/openapi/lock/v1/info" received t
                = Ok sign))
    /\ (printable token = false ->
        controlLock w mac model which s = (Throw unprintable, tick 1 s1)
        /\ getLockInfo w mac s = (Throw unprintable, tick 1 s1)).
Proof.
  intros w s s1 token mac model which E timestamp control info.
  assert (Nc : NoDup (Object_keys control)).
  { repeat constructor; simpl; intuition discriminate. }
  assert (Ni : NoDup (Object_keys info)).
  { repeat constructor; simpl; intuition discriminate. }
  split.
  - intros [access ->].
    destruct (createFordSignature_returns "POST" "/openapi/lock/v1/control"
                control (decimal (clock w (reads s1))) Nc eq_refl)
      as [sign1 S1].
    destruct (createFordSignature_returns "GET" "/openapi/lock/v1/info"
                info (decimal (clock w (reads s1))) Ni eq_refl)
      as [sign2 S2].
    split.
    + unfold controlLock. rewrite (bind_ok _ _ _ _ _ E), bind_Date_now.
      cbv zeta. fold timestamp. fold control. rewrite S1, bind_lift_ok.
      unfold axios_post.
      rewrite sent_after_axios by (intros; apply stateless_check_code).
      exists sign1. split; [reflexivity|].
      split; [exact Nc|].
      split; [simpl; intuition discriminate|].
      intros received t P. rewrite <- S1.
      now apply createFordSignature_perm.
    + unfold getLockInfo. rewrite (bind_ok _ _ _ _ _ E), bind_Date_now.
      cbv zeta. fold timestamp. fold info. rewrite S2, bind_lift_ok.
      unfold axios_get.
      rewrite sent_after_axios
        by (intros; apply stateless_bind;
            [apply stateless_check_code | intros; apply stateless_prop]).
      exists sign2. split; [reflexivity|].
      split; [exact Ni|].
      split; [simpl; intuition discriminate|].
      intros received t P. rewrite <- S2.
      now apply createFordSignature_perm.
  - intros U.
    assert (Sc : forall t, createFordSignature "POST"
                             "/openapi/lock/v1/control" control t
                           = Throw unprintable).
    { intros t.
      destruct (sorted_entries_exist _ Nc) as (entries & Pe & Se).
      rewrite (createFordSignature_sorted_entries _ _ control entries t
                 Nc Pe Se).
      destruct (forallb printable (map snd entries)) eqn:F; [|reflexivity].
      rewrite forallb_forall in F. rewrite (F token) in U; [discriminate|].
      eapply Permutation_in;
        [symmetry; apply Permutation_map; exact Pe | now left]. }
    assert (Si : forall t, createFordSignature "GET"
                             "/openapi/lock/v1/info" info t
                           = Throw unprintable).
    { intros t.
      destruct (sorted_entries_exist _ Ni) as (entries & Pe & Se).
      rewrite (createFordSignature_sorted_entries _ _ info entries t
                 Ni Pe Se).
      destruct (forallb printable (map snd entries)) eqn:F; [|reflexivity].
      rewrite forallb_forall in F. rewrite (F token) in U; [discriminate|].
      eapply Permutation_in;
        [symmetry; apply Permutation_map; exact Pe | now left]. }
    split.
    + unfold controlLock. rewrite (bind_ok _ _ _ _ _ E), bind_Date_now.
      cbv zeta. fold timestamp. fold control. now rewrite Sc.
    + unfold getLockInfo. rewrite (bind_ok _ _ _ _ _ E), bind_Date_now.
      cbv zeta. fold timestamp. fold info. now rewrite Si.
Qed.

(** An unlock at 1 700 000 000 000 ms with a cached token: the
    signature sent is the one of the fields sent, read backwards. *)
Lemma controlLock_request_verifies_witness :
  let w := frozen 1700000000000 (Responded (Obj [("code", Num 1)])) in
  let s := {| currentTokens := Some (issued_at 1700000000000);
              credentials := Some sample_credentials;
              reads := 0; sent := [] |} in
  exists sign,
    createFordSignature "POST" "/openapi/lock/v1/control"
      [("uuid", Str "AA:BB:CC"); ("action", Str "unlock");
       ("timestamp", Str "1700000000000"); ("key", Str FORD_APP_KEY);
       ("access_token", Str "access-1")] "" = Ok sign
    /\ map payload (sent (snd (controlLock w "AA:BB:CC" "YD.LO1" unlock s)))
       = [Obj [("access_token", Str "access-1");
               ("key", Str FORD_APP_KEY);
               ("timestamp", Str "1700000000000");
               ("action", Str "unlock");
               ("uuid", Str "AA:BB:CC");
               ("sign", Str sign)]].
Proof.
  intros w s.
  destruct (controlLock_request_verifies w s (tick 2 s) (Str "access-1")
              "AA:BB:CC" "YD.LO1" unlock eq_refl) as (Sends & _).
  destruct (Sends (ex_intro _ "access-1" eq_refl))
    as ((sign & Sent & _ & _ & V) & _).
  exists sign. split.
  - apply V.
    apply (Permutation_rev
             [("access_token", Str "access-1");
              ("key", Str FORD_APP_KEY);
              ("timestamp", Str "1700000000000");
              ("action", Str "unlock");
              ("uuid", Str "AA:BB:CC")]).
  - rewrite Sent. reflexivity.
Defined.

Lemma append_assoc (a b c : string) : (a ++ b) ++ c = a ++ (b ++ c).
Proof. induction a as [|x a IH]; simpl; [reflexivity | now rewrite IH]. Qed.

(** X11. The signature does not delimit its values: as names and
    values are joined without any encoding, a mapping with the two
    entries [k = v] and [k' = v'], [k] before [k'], has the same
    signature as the mapping with the single entry
    [k = v&k'=v']. *)
Theorem signature_does_not_delimit_values :
  forall (method path k v k' v' t : string),
    str_le k k' -> k <> k' ->
    createFordSignature method path [(k, Str v); (k', Str v')] t
    = createFordSignature method path
        [(k, Str (v ++ "&" ++ k' ++ "=" ++ v'))] t.
Proof.
  intros method path k v k' v' t Le Ne.
  unfold createFordSignature, Object_keys, sort.
  cbn [map fst fold_right insert]. rewrite Le.
  cbn [Array_map_pure]. unfold own. cbn [lookup].
  assert (E : (k' =? k)%string = false)
    by (apply String.eqb_neq; congruence).
  rewrite !String.eqb_refl, E. unfold ToString.
  cbn [printable to_string and_then concat].
  do 4 f_equal. now rewrite !append_assoc.
Qed.

(** Two lock parameters against one. *)
Lemma signature_does_not_delimit_values_witness :
  createFordSignature "POST" "/openapi/lock/v1/control"
    [("action", Str "lock"); ("uuid", Str "AA:BB:CC")] ""
  = createFordSignature "POST" "/openapi/lock/v1/control"
      [("action", Str "lock&uuid=AA:BB:CC")] "".
Proof.
  apply (signature_does_not_delimit_values "POST" "/openapi/lock/v1/control"
           "action" "lock" "uuid" "AA:BB:CC" "").
  - reflexivity.
  - discriminate.
Defined.

(** ** Finding a device *)

Lemma named_fields (d : value) :
  named d = true ->
  exists m n, get d "mac" = Some (Str m) /\ get d "nickname" = Some (Str n).
Proof.
  unfold named. destruct (get d "mac") as [[| | | |m| |]|]; try discriminate.
  destruct (get d "nickname") as [[| | | |n| |]|]; try discriminate.
  intros _. now exists m, n.
Qed.

Lemma named_truthy (d : value) : named d = true -> truthy d = true.
Proof. destruct d; try reflexivity; discriminate. Qed.

Lemma prop_of_get (v x : value) (k : string) :
  get v k = Some x -> prop v k = ret x.
Proof. intros G. unfold prop. now rewrite G. Qed.

Lemma device_matches_named (lc : string -> string) (identifier : string)
    (d : value) (s : state) :
  named d = true ->
  device_matches lc (lc identifier) d s
  = (Ok (answers_to lc identifier d), s).
Proof.
  intros N. destruct (named_fields d N) as (m & n & Gm & Gn).
  unfold device_matches, answers_to, mac_is, nickname_is.
  rewrite Gm, Gn, (prop_of_get d _ _ Gm), bind_ret.
  cbn [lower]. rewrite bind_ret.
  destruct (lc m =? lc identifier)%string; [reflexivity|].
  rewrite (prop_of_get d _ _ Gn), bind_ret. cbn [lower].
  now rewrite bind_ret.
Qed.

Lemma Array_find_named (lc : string -> string) (identifier : string)
    (l : list value) (s : state) :
  forallb named l = true ->
  Array_find (device_matches lc (lc identifier)) l s
  = (Ok (match find (answers_to lc identifier) l with
         | Some d => d
         | None => Undefined
         end), s).
Proof.
  induction l as [|d l IH]; intros N; [reflexivity|].
  cbn [forallb] in N. apply andb_prop in N as [Nd Nl].
  cbn [Array_find find].
  rewrite (bind_ok _ _ _ _ _ (device_matches_named lc identifier d s Nd)).
  destruct (answers_to lc identifier d); [reflexivity | now apply IH].
Qed.

(** X12. Over a device list in which every device has a MAC address
    and a nickname that are strings, [findDevice] returns the first
    device, in the order of the list, whose MAC address or nickname is
    the identifier up to the case mapping, and [null] when there is
    none; it sends nothing beyond what [getDeviceList] sends. *)
Theorem findDevice_first_match :
  forall (w : env) (lc : string -> string) (identifier : string)
         (s s1 : state) (l : list value),
    getDeviceList w s = (Ok (Arr l), s1) ->
    forallb named l = true ->
    findDevice w lc identifier s
    = (Ok (match find (answers_to lc identifier) l with
           | Some d => d
           | None => Null
           end), s1).
Proof.
  intros w lc identifier s s1 l G N. unfold findDevice.
  rewrite (bind_ok _ _ _ _ _ G).
  rewrite (bind_ok _ _ _ _ _ (Array_find_named lc identifier l s1 N)).
  destruct (find (answers_to lc identifier) l) as [d|] eqn:F;
    [|reflexivity].
  apply find_some in F as [I _].
  rewrite forallb_forall in N. unfold ret, or_.
  now rewrite (named_truthy d (N d I)).
Qed.

(** X13. [findDevice] does not skip a device it cannot read: when
    the devices before it do not answer to the identifier and a device
    has a MAC address that does not match and lacks a string for its
    nickname or its MAC address, [findDevice] throws a TypeError,
    whatever follows in the list. *)
Theorem findDevice_stops_at_unreadable_device :
  forall (w : env) (lc : string -> string) (identifier : string)
         (s s1 : state) (before after : list value) (bad : value),
    getDeviceList w s = (Ok (Arr (before ++ bad :: after)), s1) ->
    forallb named before = true ->
    find (answers_to lc identifier) before = None ->
    named bad = false ->
    mac_is lc identifier bad = false ->
    exists m, findDevice w lc identifier s = (Throw (TypeError m), s1).
Proof.
  intros w lc identifier s s1 before after bad G N F Nb Mb.
  unfold findDevice. rewrite (bind_ok _ _ _ _ _ G).
  assert (A : exists m,
            Array_find (device_matches lc (lc identifier))
              (before ++ bad :: after) s1 = (Throw (TypeError m), s1)).
  { clear G. induction before as [|d before IH].
    - cbn [app Array_find]. unfold device_matches.
      assert (B : exists m,
                (mac <- prop bad "mac" ;;
                 m <- lower lc "d.mac" mac ;;
                 if (m =? lc identifier)%string then ret true
                 else
                   nickname <- prop bad "nickname" ;;
                   n <- lower lc "d.nickname" nickname ;;
                   ret (n =? lc identifier)%string) s1
                = (Throw (TypeError m), s1)).
      { unfold named, mac_is in *. unfold prop.
        destruct (get bad "mac") as [mac|] eqn:Gm;
          [|eexists; reflexivity].
        rewrite bind_ret.
        destruct mac as [| | | |m| |]; try (eexists; reflexivity).
        cbn [lower]. rewrite bind_ret, Mb.
        destruct (get bad "nickname") as [nick|] eqn:Gn;
          [|eexists; reflexivity].
        rewrite bind_ret.
        destruct nick; try discriminate; eexists; reflexivity. }
      destruct B as [m B]. exists m. now apply bind_thrown.
    - cbn [forallb] in N. apply andb_prop in N as [Nd Nl].
      cbn [find] in F.
      destruct (answers_to lc identifier d) eqn:Ad; [discriminate|].
      cbn [app Array_find].
      rewrite (bind_ok _ _ _ _ _ (device_matches_named lc identifier d s1 Nd)).
      rewrite Ad. now apply IH. }
  destruct A as [m A]. exists m. now apply bind_thrown.
Qed.

(** Three devices, the third of which has the MAC address of the
    second as its nickname. *)
Lemma findDevice_first_match_witness :
  let w := frozen hour (listing [porch; kitchen; decoy]) in
  let s := holding (Some (issued_at 0)) in
  fst (findDevice w ascii_lower "bb22" s) = Ok kitchen
  /\ fst (findDevice w ascii_lower "KITCHEN plug" s) = Ok kitchen
  /\ fst (findDevice w ascii_lower "garage" s) = Ok Null.
Proof.
  intros w s.
  assert (G : getDeviceList w s
              = (Ok (Arr [porch; kitchen; decoy]), snd (getDeviceList w s))).
  { rewrite (surjective_pairing (getDeviceList w s)) at 1. reflexivity. }
  split; [|split].
  - now rewrite (findDevice_first_match w ascii_lower "bb22" s _ _ G eq_refl).
  - now rewrite (findDevice_first_match w ascii_lower "KITCHEN plug" s _ _ G
                   eq_refl).
  - now rewrite (findDevice_first_match w ascii_lower "garage" s _ _ G
                   eq_refl).
Defined.

(** A device without a nickname ahead of the device looked for. *)
Lemma findDevice_stops_at_unreadable_device_witness :
  let unnamed := Obj [("mac", Str "AA11")] in
  let w := frozen hour (listing [unnamed; kitchen]) in
  let s := holding (Some (issued_at 0)) in
  fst (findDevice w ascii_lower "kitchen plug" s)
  = Throw (TypeError "Cannot read properties of undefined (reading 'toLowerCase')").
Proof.
  intros unnamed w s.
  assert (G : getDeviceList w s
              = (Ok (Arr ([] ++ unnamed :: [kitchen])),
                 snd (getDeviceList w s))).
  { rewrite (surjective_pairing (getDeviceList w s)) at 1. reflexivity. }
  destruct (findDevice_stops_at_unreadable_device w ascii_lower
              "kitchen plug" s _ [] [kitchen] unnamed G eq_refl eq_refl
              eq_refl eq_refl) as [m E].
  assert (M : fst (findDevice w ascii_lower "kitchen plug" s)
              = Throw (TypeError m)) by now rewrite E.
  rewrite M. f_equal. f_equal.
  assert (C : fst (findDevice w ascii_lower "kitchen plug" s)
              = Throw (TypeError "Cannot read properties of undefined (reading 'toLowerCase')"))
    by reflexivity.
  rewrite M in C. now injection C.
Defined.

(** ** Device information and status *)

Lemma toDeviceInfo_defined (device : value) (s : state) :
  is_nullish device = false ->
  toDeviceInfo device s
  = (Ok (Obj (map (fun k => (k, get_opt device k)) info_names)), s).
Proof.
  intros D. unfold toDeviceInfo.
  now rewrite !(prop_defined device _ D), !bind_ret.
Qed.

(** X14. [toDeviceInfo] keeps six fields and nothing else: for a
    device that is not [null] it returns an object whose names are
    mac, nickname, product_type, product_model, is_online and
    firmware_ver, each with the value the device has under that name;
    every other name of the device (its [enr], its [p2p_id], ...) reads
    as undefined in the result; and applied to its own result it
    changes nothing. *)
Theorem toDeviceInfo_keeps_six_fields :
  forall (device : value) (s : state),
    is_nullish device = false ->
    exists info,
      toDeviceInfo device s = (Ok (Obj info), s)
      /\ map fst info = info_names
      /\ (forall k, In k info_names -> own k info = get_opt device k)
      /\ (forall k, ~ In k info_names -> own k info = Undefined)
      /\ toDeviceInfo (Obj info) s = (Ok (Obj info), s).
Proof.
  intros device s D.
  exists (map (fun k => (k, get_opt device k)) info_names).
  split; [now apply toDeviceInfo_defined|].
  split; [reflexivity|].
  split.
  { intros k I. unfold info_names in I. simpl in I.
    repeat (destruct I as [<- | I]; [reflexivity|]). contradiction. }
  split.
  { intros k I. unfold own, info_names in *. cbn [map lookup].
    repeat match goal with
           | |- context [(k =? ?n)%string] =>
               destruct (String.eqb_spec k n) as [->|_];
               [exfalso; apply I; simpl; tauto|]
           end.
    reflexivity. }
  now rewrite (toDeviceInfo_defined (Obj _) s eq_refl).
Qed.

(** A camera with its secrets. *)
Lemma toDeviceInfo_keeps_six_fields_witness :
  fst (toDeviceInfo porch (holding None))
  = Ok (Obj [("mac", Str "AA11"); ("nickname", Str "Porch");
             ("product_type", Str "Camera");
             ("product_model", Str "WYZE_CAKP2JFUS");
             ("is_online", Bool true); ("firmware_ver", Undefined)])
  /\ get_opt porch "enr" = Str "secret-enr".
Proof.
  destruct (toDeviceInfo_keeps_six_fields porch (holding None) eq_refl)
    as (info & E & _).
  split; reflexivity.
Defined.

Lemma lookup_assign_same (k : string) (v : value)
    (ps : list (string * value)) :
  lookup k (assign k v ps) = Some v.
Proof.
  induction ps as [|[k' v'] ps IH]; simpl.
  - now rewrite String.eqb_refl.
  - destruct (String.eqb_spec k k') as [->|N]; simpl.
    + now rewrite String.eqb_refl.
    + destruct (String.eqb_spec k k'); [contradiction | exact IH].
Qed.

Lemma lookup_assign_other (k k' : string) (v : value)
    (ps : list (string * value)) :
  k <> k' -> lookup k (assign k' v ps) = lookup k ps.
Proof.
  intros N. induction ps as [|[k0 v0] ps IH]; simpl.
  - destruct (String.eqb_spec k k'); [contradiction | reflexivity].
  - destruct (String.eqb_spec k' k0) as [->|N0]; simpl.
    + destruct (String.eqb_spec k k0); [contradiction | reflexivity].
    + destruct (String.eqb_spec k k0); [reflexivity | exact IH].
Qed.

Lemma assign_keys (k : string) (v : value) (ps : list (string * value)) :
  forall x, In x (map fst (assign k v ps)) -> x = k \/ In x (map fst ps).
Proof.
  induction ps as [|[k' v'] ps IH]; simpl; intros x.
  - intros [E|[]]. now left.
  - destruct (String.eqb_spec k k') as [->|N]; simpl; [tauto|].
    intros [E|I]; [tauto|]. destruct (IH x I); tauto.
Qed.

Lemma assign_NoDup (k : string) (v : value) (ps : list (string * value)) :
  NoDup (map fst ps) -> NoDup (map fst (assign k v ps)).
Proof.
  induction ps as [|[k' v'] ps IH]; simpl; intros N.
  - repeat constructor. tauto.
  - inversion N as [|? ? Nin N']; subst.
    destruct (String.eqb_spec k k') as [->|Ne]; simpl.
    + now constructor.
    + constructor; [|now apply IH].
      intros I. destruct (assign_keys k v ps k' I) as [E|I'];
        [now apply Ne | now apply Nin].
Qed.

Lemma find_last {A} (p : A -> bool) (l : list A) (x : A) :
  find p (l ++ [x])
  = match find p l with
    | Some y => Some y
    | None => if p x then Some x else None
    end.
Proof.
  induction l as [|y l IH]; simpl; [reflexivity|].
  destruct (p y); [reflexivity | exact IH].
Qed.

(** What the loop of [getDeviceStatus] files under a name: the value
    of the last item with that name. *)
Lemma collect_last_wins (items : list value) :
  forallb readable items = true ->
  forall (acc : list (string * value)) (k : string),
    k <> "__proto__" ->
    lookup k (collect items acc)
    = match last_filed k items with
      | Some item => Some (get_opt item "value")
      | None => lookup k acc
      end.
Proof.
  unfold last_filed.
  induction items as [|item items IH]; intros R acc k Nk; [reflexivity|].
  cbn [forallb] in R. apply andb_prop in R as [Ri Rs].
  apply andb_prop in Ri as [Ri Pi]. apply negb_true_iff in Ri.
  cbn [collect rev]. rewrite find_last.
  assert (G : get item "pid" = Some (get_opt item "pid")).
  { destruct item; try discriminate; reflexivity. }
  rewrite G, (ToString_printable _ Pi), (IH Rs _ k Nk).
  destruct (find _ (rev items)); [reflexivity|].
  unfold set_property.
  destruct (String.eqb_spec (to_string (get_opt item "pid")) k) as [E|N].
  - rewrite E. destruct (String.eqb_spec k "__proto__"); [contradiction|].
    apply lookup_assign_same.
  - destruct (to_string (get_opt item "pid") =? "__proto__")%string;
      [reflexivity|].
    apply lookup_assign_other. congruence.
Qed.

Lemma collect_NoDup (items : list value) :
  forall acc, NoDup (map fst acc) -> NoDup (map fst (collect items acc)).
Proof.
  induction items as [|item items IH]; intros acc N; [exact N|].
  cbn [collect]. destruct (get item "pid") as [pid|]; [|exact N].
  destruct (ToString pid) as [name|]; [|exact N].
  apply IH. unfold set_property.
  destruct (name =? "__proto__")%string;
    [exact N | now apply assign_NoDup].
Qed.

(** The loop goes no further than the first item it cannot file. *)
Lemma collect_reached (items : list value) (acc : list (string * value)) :
  collect items acc = collect (reached items) acc.
Proof.
  revert acc. induction items as [|item items IH]; intros acc; [reflexivity|].
  cbn [collect reached]. unfold readable.
  destruct (is_nullish item) eqn:D.
  - now destruct item.
  - assert (G : get item "pid" = Some (get_opt item "pid")).
    { destruct item; try discriminate; reflexivity. }
    rewrite G. cbn [negb andb]. unfold ToString.
    destruct (printable (get_opt item "pid")) eqn:P; [|reflexivity].
    cbn [collect]. rewrite G. unfold ToString. rewrite P. apply IH.
Qed.

Lemma reached_readable (items : list value) :
  forallb readable (reached items) = true.
Proof.
  induction items as [|item items IH]; [reflexivity|]. cbn [reached].
  destruct (readable item) eqn:R; [|reflexivity]. cbn [forallb].
  now rewrite R, IH.
Qed.

(** [getDeviceStatus] in terms of what its [try] block leaves. *)
Lemma getDeviceStatus_shape (w : env) (device : value) (s : state) :
  is_nullish device = false ->
  getDeviceStatus w device s
  = match getDeviceProperties w (get_opt device "mac")
            (get_opt device "product_model") s with
    | (Ok props, s1) =>
        let properties :=
          match get props "property_list" with
          | Some property_list =>
              match iterate (or_ property_list (Arr [])) with
              | Some items => collect items []
              | None => []
              end
          | None => []
          end in
        (Ok (Obj (map (fun k => (k, get_opt device k)) info_names
                  ++ [("properties", Obj properties)])%list), s1)
    | (Throw _, s1) =>
        (Ok (Obj (map (fun k => (k, get_opt device k)) info_names
                  ++ [("properties", Obj [])])%list), s1)
    end.
Proof.
  intros D. unfold getDeviceStatus.
  unfold bind at 1. unfold try_catch.
  rewrite (prop_defined device "mac" D), bind_ret.
  rewrite (prop_defined device "product_model" D), bind_ret.
  unfold bind at 1.
  destruct (getDeviceProperties w _ _ s) as [[props|e] s1].
  - unfold prop. destruct (get props "property_list") as [pl|].
    + rewrite bind_ret.
      destruct (iterate (or_ pl (Arr []))) as [items|];
        cbv beta iota zeta; unfold ret, throw;
        now rewrite (bind_ok _ _ _ _ _ (toDeviceInfo_defined device s1 D)).
    + rewrite bind_throw. cbv beta iota zeta. unfold ret.
      now rewrite (bind_ok _ _ _ _ _ (toDeviceInfo_defined device s1 D)).
  - cbv beta iota zeta. unfold ret.
    now rewrite (bind_ok _ _ _ _ _ (toDeviceInfo_defined device s1 D)).
Qed.

(** X15. [getDeviceStatus] never throws for a device that is not
    [null]: it returns the six fields of [toDeviceInfo] followed by
    [properties], an object with distinct names; and whenever the
    query of the properties fails, for want of a token, on the network
    or by the code of the response, [properties] is empty, as for a
    device that has none. *)
Theorem getDeviceStatus_never_throws :
  forall (w : env) (device : value) (s : state),
    is_nullish device = false ->
    exists properties s',
      getDeviceStatus w device s
      = (Ok (Obj (map (fun k => (k, get_opt device k)) info_names
                  ++ [("properties", Obj properties)])%list), s')
      /\ NoDup (map fst properties)
      /\ forall e s1,
           getDeviceProperties w (get_opt device "mac")
             (get_opt device "product_model") s = (Throw e, s1) ->
           properties = [] /\ s' = s1.
Proof.
  intros w device s D. rewrite (getDeviceStatus_shape w device s D).
  destruct (getDeviceProperties w _ _ s) as [[props|e] s1].
  - eexists. exists s1. split; [reflexivity|]. split; [|discriminate].
    destruct (get props "property_list") as [pl|]; [|constructor].
    destruct (iterate (or_ pl (Arr []))) as [items|]; [|constructor].
    apply collect_NoDup. constructor.
  - exists [], s1. split; [reflexivity|]. split; [constructor|].
    now intros e' s1' [= _ <-].
Qed.

(** The status of a plug while the service is unreachable. *)
Lemma getDeviceStatus_never_throws_witness :
  let w := frozen hour (Rejected timed_out) in
  fst (getDeviceStatus w kitchen (holding (Some (issued_at 0))))
  = Ok (Obj [("mac", Str "BB22"); ("nickname", Str "Kitchen Plug");
             ("product_type", Str "Plug"); ("product_model", Str "WLPP1");
             ("is_online", Bool false); ("firmware_ver", Str "1.2.0.80");
             ("properties", Obj [])]).
Proof.
  intros w.
  destruct (getDeviceStatus_never_throws w kitchen
              (holding (Some (issued_at 0))) eq_refl)
    as (properties & s' & E & _ & F).
  rewrite E.
  destruct (F timed_out (snd (getDeviceProperties w (get_opt kitchen "mac")
                                (get_opt kitchen "product_model")
                                (holding (Some (issued_at 0))))))
    as [-> _]; [|reflexivity].
  rewrite (surjective_pairing (getDeviceProperties w _ _ _)) at 1.
  reflexivity.
Defined.

(** X16. When the query of the properties returns a list, the
    [properties] of the status file each value under the text of its
    [pid], and a [pid] listed more than once keeps the value of its
    last item; a name no item has is absent.  The loop stops, without
    an error, at the first item that is [null] or whose [pid] cannot be
    made a name: what stands after that item is not filed. *)
Theorem getDeviceStatus_last_value_wins :
  forall (w : env) (device props : value) (items : list value)
         (s s1 : state),
    is_nullish device = false ->
    getDeviceProperties w (get_opt device "mac")
      (get_opt device "product_model") s = (Ok props, s1) ->
    get props "property_list" = Some (Arr items) ->
    exists properties,
      getDeviceStatus w device s
      = (Ok (Obj (map (fun k => (k, get_opt device k)) info_names
                  ++ [("properties", Obj properties)])%list), s1)
      /\ forall k,
           k <> "__proto__" ->
           lookup k properties
           = option_map (fun item => get_opt item "value")
               (last_filed k (reached items)).
Proof.
  intros w device props items s s1 D G L.
  rewrite (getDeviceStatus_shape w device s D), G, L.
  cbn [or_ truthy iterate]. eexists. split; [reflexivity|].
  intros k Nk. rewrite collect_reached.
  rewrite (collect_last_wins _ (reached_readable items) [] k Nk).
  now destruct (last_filed k (reached items)).
Qed.

(** A plug whose power property is listed twice, and after it an
    item that cannot be filed, followed by one more. *)
Lemma getDeviceStatus_last_value_wins_witness :
  let listed :=
    [Obj [("pid", Str "P3"); ("value", Str "0")];
     Obj [("pid", Str "P5"); ("value", Str "1")];
     Obj [("pid", Str "P3"); ("value", Str "1")];
     Obj [("pid", Obj [("toString", Num 1)]); ("value", Str "2")];
     Obj [("pid", Str "P7"); ("value", Str "3")]] in
  let w := frozen hour
             (Responded (Obj [("code", Num 1);
                              ("data", Obj [("property_list", Arr listed)])])) in
  fst (getDeviceStatus w kitchen (holding (Some (issued_at 0))))
  = Ok (Obj [("mac", Str "BB22"); ("nickname", Str "Kitchen Plug");
             ("product_type", Str "Plug"); ("product_model", Str "WLPP1");
             ("is_online", Bool false); ("firmware_ver", Str "1.2.0.80");
             ("properties", Obj [("P3", Str "1"); ("P5", Str "1")])]).
Proof.
  intros listed w.
  assert (G : getDeviceProperties w (get_opt kitchen "mac")
                (get_opt kitchen "product_model")
                (holding (Some (issued_at 0)))
              = (Ok (Obj [("property_list", Arr listed)]),
                 snd (getDeviceProperties w (get_opt kitchen "mac")
                        (get_opt kitchen "product_model")
                        (holding (Some (issued_at 0)))))).
  { rewrite (surjective_pairing (getDeviceProperties w _ _ _)) at 1.
    reflexivity. }
  destruct (getDeviceStatus_last_value_wins w kitchen _ listed _ _
              eq_refl G eq_refl) as (properties & E & _).
  reflexivity.
Defined.

(** ** Listing the devices *)

Lemma strict_eq_eq (a b : value) :
  primitive a = true -> strict_eq a b = true <-> a = b.
Proof.
  intros P. split.
  - destruct a, b; simpl; try discriminate; try reflexivity.
    + intros E. apply Bool.eqb_prop in E. now subst.
    + intros E. apply Z.eqb_eq in E. now subst.
    + intros E. apply String.eqb_eq in E. now subst.
  - intros <-. destruct a; simpl; try reflexivity; try discriminate P.
    + apply Bool.eqb_reflx.
    + apply Z.eqb_refl.
    + apply String.eqb_refl.
Qed.

Lemma strict_eq_neq (a b : value) :
  primitive a = true -> a <> b -> strict_eq a b = false.
Proof.
  intros P N. destruct (strict_eq a b) eqn:E; [|reflexivity].
  now apply strict_eq_eq in E.
Qed.

Lemma firsts_incl (l : list value) (k : value) : In k (firsts l) -> In k l.
Proof.
  induction l as [|a l IH]; simpl; [tauto|].
  intros [E|I]; [now left|]. apply filter_In in I. right. now apply IH.
Qed.

Lemma firsts_In (l : list value) (k : value) :
  Forall (fun a => primitive a = true) l -> In k l -> In k (firsts l).
Proof.
  induction 1 as [|a l P F IH]; simpl; [tauto|].
  intros [E|I]; [now left|].
  destruct (strict_eq a k) eqn:E.
  - left. now apply strict_eq_eq in E.
  - right. apply filter_In. split; [now apply IH | now rewrite E].
Qed.

Lemma firsts_NoDup (l : list value) :
  Forall (fun a => primitive a = true) l -> NoDup (firsts l).
Proof.
  induction 1 as [|a l P F IH]; simpl; constructor.
  - rewrite filter_In. intros [_ N].
    now rewrite (proj2 (strict_eq_eq a a P) eq_refl) in N.
  - now apply NoDup_filter.
Qed.

Lemma firsts_snoc (l : list value) (k : value) :
  firsts (l ++ [k])
  = if existsb (fun a => strict_eq a k) l then firsts l
    else (firsts l ++ [k])%list.
Proof.
  induction l as [|a l IH]; simpl; [reflexivity|]. rewrite IH.
  destruct (strict_eq a k) eqn:E;
    destruct (existsb (fun a => strict_eq a k) l); simpl; try reflexivity.
  - rewrite filter_app. simpl. rewrite E. simpl. now rewrite app_nil_r.
  - rewrite filter_app. simpl. now rewrite E.
Qed.

Lemma existsb_strict_eq (l : list value) (k : value) :
  Forall (fun a => primitive a = true) l ->
  existsb (fun a => strict_eq a k) l = true <-> In k l.
Proof.
  intros F. rewrite existsb_exists. split.
  - intros (a & I & E). rewrite Forall_forall in F.
    apply (strict_eq_eq a k (F a I)) in E. now subst.
  - intros I. exists k. split; [exact I|]. rewrite Forall_forall in F.
    now apply strict_eq_eq; [apply F|].
Qed.

Lemma byType_add_old (ks : list value) (k d : value)
    (F : value -> list value) :
  Forall (fun a => primitive a = true) ks -> NoDup ks -> In k ks ->
  byType_add k d (map (fun a => (a, F a)) ks)
  = map (fun a => (a, if strict_eq a k then (F a ++ [d])%list else F a)) ks.
Proof.
  induction ks as [|a ks IH]; intros P N I; [contradiction|].
  inversion P as [|? ? Pa Pks]; subst. inversion N as [|? ? Na Nks]; subst.
  simpl. destruct (strict_eq a k) eqn:E.
  - apply strict_eq_eq in E; [subst a | exact Pa]. f_equal.
    apply map_ext_in. intros b Ib.
    rewrite Forall_forall in Pks.
    rewrite (strict_eq_neq b k (Pks b Ib)); [reflexivity|].
    intros ->. contradiction.
  - f_equal. apply IH; try assumption.
    destruct I as [->|I]; [|exact I].
    now rewrite (proj2 (strict_eq_eq k k Pa) eq_refl) in E.
Qed.

Lemma byType_add_new (ks : list value) (k d : value)
    (F : value -> list value) :
  Forall (fun a => primitive a = true) ks -> ~ In k ks ->
  byType_add k d (map (fun a => (a, F a)) ks)
  = (map (fun a => (a, F a)) ks ++ [(k, [d])])%list.
Proof.
  induction ks as [|a ks IH]; intros P N; [reflexivity|].
  inversion P as [|? ? Pa Pks]; subst. simpl.
  rewrite (strict_eq_neq a k Pa).
  - f_equal. apply IH; [exact Pks|]. intros I. apply N. now right.
  - intros ->. apply N. now left.
Qed.

Lemma heading_primitive (d : value) :
  typed d = true -> primitive (heading d) = true.
Proof.
  unfold typed, heading, or_. intros T. apply andb_prop in T as [_ T].
  now destruct (truthy (get_opt d "product_type")).
Qed.

Lemma headings_primitive (devices : list value) :
  Forall (fun d => typed d = true) devices ->
  Forall (fun a => primitive a = true) (map heading devices).
Proof.
  induction 1; simpl; constructor; [now apply heading_primitive | assumption].
Qed.

Lemma filter_none {A} (p : A -> bool) (l : list A) :
  (forall x, In x l -> p x = false) -> filter p l = [].
Proof.
  induction l as [|a l IH]; intros N; [reflexivity|]. simpl.
  rewrite (N a (or_introl eq_refl)). apply IH. intros x I. apply N. now right.
Qed.

Lemma sections_snoc (done : list value) (d : value) :
  Forall (fun x => typed x = true) (done ++ [d])%list ->
  byType_add (heading d) d (sections done) = sections (done ++ [d])%list.
Proof.
  intros T. apply Forall_app in T as [Td Tl].
  inversion Tl as [|? ? Thd _]; subst.
  pose proof (headings_primitive done Td) as P.
  pose proof (heading_primitive d Thd) as Pk.
  assert (Pf : Forall (fun a => primitive a = true) (firsts (map heading done))).
  { rewrite Forall_forall in *. intros a I. apply P. now apply firsts_incl. }
  unfold sections. rewrite map_app. simpl map at 3. rewrite firsts_snoc.
  destruct (existsb (fun a => strict_eq a (heading d)) (map heading done))
    eqn:X.
  - apply (existsb_strict_eq _ _ P) in X.
    rewrite byType_add_old;
      [| exact Pf | now apply firsts_NoDup | now apply firsts_In].
    apply map_ext. intros a. f_equal. rewrite filter_app. simpl.
    change (under a d) with (strict_eq a (heading d)).
    destruct (strict_eq a (heading d)); [reflexivity | now rewrite app_nil_r].
  - assert (N : ~ In (heading d) (map heading done)).
    { intros I. apply (existsb_strict_eq _ _ P) in I. congruence. }
    rewrite byType_add_new;
      [| exact Pf | intros I; apply N; now apply firsts_incl].
    rewrite map_app. f_equal.
    + apply map_ext_in. intros a Ia. f_equal. rewrite filter_app. simpl.
      change (under a d) with (strict_eq a (heading d)).
      rewrite strict_eq_neq.
      * now rewrite app_nil_r.
      * rewrite Forall_forall in Pf. now apply Pf.
      * intros ->. apply N. now apply firsts_incl.
    + simpl. f_equal. f_equal. rewrite filter_app. simpl.
      change (under (heading d) d) with (strict_eq (heading d) (heading d)).
      rewrite (proj2 (strict_eq_eq _ _ Pk) eq_refl).
      rewrite filter_none; [reflexivity|].
      intros x Ix. unfold under. apply strict_eq_neq; [exact Pk|].
      intros E. apply N. rewrite E. now apply in_map.
Qed.

Lemma byType_fill_fold (devices : list value)
    (groups : list (value * list value)) (s : state) :
  Forall (fun d => is_nullish d = false) devices ->
  byType_fill devices groups s
  = (Ok (fold_left (fun g d => byType_add (heading d) d g) devices groups), s).
Proof.
  intros F. revert groups.
  induction F as [|d devices D F IH]; intros groups; [reflexivity|].
  simpl. rewrite (prop_defined d _ D), bind_ret. apply IH.
Qed.

Lemma fold_sections (devices : list value) :
  Forall (fun d => typed d = true) devices ->
  fold_left (fun g d => byType_add (heading d) d g) devices [] = sections devices.
Proof.
  induction devices as [|d done IH] using rev_ind; intros T; [reflexivity|].
  rewrite fold_left_app. simpl. rewrite IH.
  - now apply sections_snoc.
  - now apply Forall_app in T as [T _].
Qed.

Lemma typed_defined (devices : list value) :
  forallb typed devices = true ->
  Forall (fun d => typed d = true) devices
  /\ Forall (fun d => is_nullish d = false) devices.
Proof.
  rewrite forallb_forall, !Forall_forall. intros T. split; [exact T|].
  intros d I. specialize (T d I). unfold typed in T.
  apply andb_prop in T as [T _]. now destruct (is_nullish d).
Qed.

(** X17. [formatDevicesMarkdown] lays the devices out in sections:
    when no device is [null] and no [product_type] is an object or an
    array, the map it fills holds one entry for each distinct heading (the
    [product_type], or Unknown when that is empty or missing), the
    headings in the order in which they first appear in the list, and
    under each heading exactly the devices of the list with that
    heading, in the order of the list; the text is made of the lines of
    these sections below the title. *)
Theorem formatDevicesMarkdown_sections :
  forall (devices : list value) (s : state),
    forallb typed devices = true ->
    byType_fill devices [] s = (Ok (sections devices), s)
    /\ (devices <> [] ->
        formatDevicesMarkdown devices s
        = (lines <- groups_lines (sections devices) ;;
           ret (concat nl
                  (("# Wyze Devices ("
                    ++ decimal (Z.of_nat (List.length devices)) ++ " total)")
                   :: "" :: lines))) s).
Proof.
  intros devices s T. destruct (typed_defined devices T) as [Ty D].
  assert (B : byType_fill devices [] s = (Ok (sections devices), s)).
  { rewrite (byType_fill_fold devices [] s D). now rewrite fold_sections. }
  split; [exact B|]. intros N.
  destruct devices as [|d devices]; [contradiction|].
  unfold formatDevicesMarkdown. now rewrite (bind_ok _ _ s s _ B).
Qed.

(** Two plugs around a camera and a device without a type. *)
Lemma formatDevicesMarkdown_sections_witness :
  let untyped := Obj [("mac", Str "DD44"); ("nickname", Str "Shed")] in
  fst (byType_fill [kitchen; porch; untyped; decoy] [] (holding None))
  = Ok [(Str "Plug", [kitchen; decoy]); (Str "Camera", [porch]);
        (Str "Unknown", [untyped])].
Proof.
  intros untyped.
  destruct (formatDevicesMarkdown_sections [kitchen; porch; untyped; decoy]
              (holding None) eq_refl) as [B _].
  rewrite B. reflexivity.
Defined.

Lemma bind_inv_ok {A B} (m : M A) (k : A -> M B) (s s' : state) (b : B) :
  (x <- m ;; k x) s = (Ok b, s') ->
  exists a s1, m s = (Ok a, s1) /\ k a s1 = (Ok b, s').
Proof.
  unfold bind. destruct (m s) as [[a|e] s1]; [|discriminate].
  intros E. now exists a, s1.
Qed.

Lemma length_substring_le (n : nat) (t : string) :
  (String.length (substring 0 n t) <= n)%nat.
Proof.
  revert n. induction t as [|c t IH]; intros [|n]; simpl; try lia.
  specialize (IH n). lia.
Qed.

Lemma truncate_bound (t : string) :
  Z.of_nat (String.length (truncate t)) <= CHARACTER_LIMIT + 62.
Proof.
  unfold truncate.
  destruct (Z.ltb_spec CHARACTER_LIMIT (Z.of_nat (String.length t))) as [L|L];
    [|lia].
  rewrite !length_append.
  pose proof (length_substring_le (Z.to_nat CHARACTER_LIMIT) t) as S.
  change (String.length nl) with 1%nat.
  change (String.length
            "... (truncated, use device_type filter to see fewer results)")
    with 60%nat.
  unfold CHARACTER_LIMIT in *. lia.
Qed.

Lemma handleApiError_prefix (e : exn) (t : string) :
  handleApiError e = Ok t -> exists rest, t = "Error: " ++ rest.
Proof.
  destruct e as [e|m|m|v]; cbn [handleApiError].
  - destruct (response e) as [r|].
    + cbv zeta. unfold ToString.
      repeat match goal with
             | |- context [if ?c then _ else _] => destruct c
             end; cbn [and_then]; intros [= <-]; now eexists.
    + destruct (code e) as [c|]; [|intros [= <-]; now eexists].
      repeat match goal with
             | |- context [if ?c then _ else _] => destruct c
             end; intros [= <-]; now eexists.
  - intros [= <-]. now eexists.
  - intros [= <-]. now eexists.
  - unfold ToString. destruct (printable v); cbn [and_then];
      intros [= <-]; now eexists.
Qed.

(** The classifier fails on nothing the program throws itself, and
    only by a conversion. *)
Lemma handleApiError_throws (e e' : exn) :
  handleApiError e = Throw e' -> e' = unprintable /\ own_error e = false.
Proof.
  destruct e as [e|m|m|v]; cbn [handleApiError]; try discriminate.
  - destruct (response e) as [r|].
    + cbv zeta. unfold ToString.
      repeat match goal with
             | |- context [if ?c then _ else _] => destruct c
             end; cbn [and_then]; try discriminate.
      intros [= <-]. now split.
    + destruct (code e) as [c|]; [|discriminate].
      repeat match goal with
             | |- context [if ?c then _ else _] => destruct c
             end; discriminate.
  - unfold ToString. destruct (printable v); cbn [and_then];
      [discriminate|]. intros [= <-]. now split.
Qed.

(** Where the exceptions of the listing come from. *)
Lemma traced_ret {A} (w : env) (a : A) : traced w (ret a).
Proof. intros s e s' E. discriminate E. Qed.

Lemma traced_throw {A} (w : env) (e : exn) :
  own_error e = true -> traced w (@throw A e).
Proof. intros O s e' s' [= <- _]. now left. Qed.

Lemma traced_prop (w : env) (v : value) (k : string) : traced w (prop v k).
Proof.
  unfold prop. destruct (get v k); [apply traced_ret | now apply traced_throw].
Qed.

Lemma traced_ToString (w : env) (v : value) : traced w (lift (ToString v)).
Proof.
  intros s e s'. unfold lift, ToString.
  destruct (printable v); [discriminate|]. intros [= <- _]. now left.
Qed.

Lemma traced_bind {A B} (w : env) (m : M A) (k : A -> M B) :
  traced w m -> (forall a, traced w (k a)) -> traced w (x <- m ;; k x).
Proof.
  intros Tm Tk s e s'. unfold bind.
  destruct (m s) as [[a|e0] s0] eqn:E.
  - apply Tk.
  - intros [= <- <-]. now apply (Tm s e0 s0).
Qed.

Lemma traced_axios (w : env) (r : request) : traced w (axios w r).
Proof.
  intros s e s'. unfold axios.
  destruct (server w (List.length (sent s))) eqn:R; [discriminate|].
  intros [= <- _]. right. now exists (List.length (sent s)).
Qed.

Lemma traced_Date_now (w : env) : traced w (Date_now w).
Proof. intros s e s' E. discriminate E. Qed.

Ltac traced_tac :=
  repeat first
    [ apply traced_ret
    | apply traced_throw; reflexivity
    | apply traced_prop
    | apply traced_ToString
    | apply traced_axios
    | apply traced_Date_now
    | apply traced_bind; [|intros ?]
    | match goal with
      | |- traced _ (if ?b then _ else _) => destruct b
      | |- traced _ (match ?v with Arr _ => _ | _ => _ end) => destruct v
      | |- traced _ (match ?v with Str _ => _ | _ => _ end) => destruct v
      end ].

Lemma traced_login_parse (w : env) (data : value) :
  traced w (login_parse w data).
Proof.
  unfold login_parse, login_extract, login_check, login_store.
  traced_tac; try (intros s e s' E; discriminate E).
  - intros s e s'. unfold lift, greater_than_0.
    destruct (printable _); [discriminate|]. intros [= <- _]. now left.
  - intros s e s'. unfold lift, Array_join.
    destruct (forallb _ _); [discriminate|]. intros [= <- _]. now left.
Qed.

Lemma traced_login (w : env) : traced w (login w).
Proof.
  intros s e s'. unfold login. rewrite bind_gets.
  destruct (credentials s) as [creds|]; [|intros [= <- _]; now left].
  rewrite bind_Date_now. unfold try_catch, axios_post. rewrite bind_axios.
  cbn [tick sent].
  destruct (server w (List.length (sent s))) as [body|e0] eqn:R.
  - destruct (login_parse w body _) as [[tk|e1] s1] eqn:P; [discriminate|].
    pose proof (traced_login_parse w body _ _ _ P) as [O|N].
    + destruct e1; try discriminate O; intros [= <- _]; now left.
    + intros L. destruct (login_catch_outcome e1 s1) as (e2 & L' & _).
      rewrite L' in L. injection L as <- _.
      destruct e1 as [a| | |];
        [| injection L' as <-; exact (or_intror N) ..].
      unfold login_catch in L'.
      destruct (response a) as [r|]; [|injection L' as <-; now left].
      destruct (status r =? 401); [injection L' as <-; now left|].
      unfold bind, lift, ToString in L'.
      destruct (printable _); injection L' as <-; now left.
  - intros L. destruct e0 as [a| | |].
    + unfold login_catch in L.
      destruct (response a) as [r|]; [|injection L as <- _; now left].
      destruct (status r =? 401); [injection L as <- _; now left|].
      unfold bind, lift, ToString in L.
      destruct (printable _); injection L as <- _; now left.
    + injection L as <- _. now left.
    + injection L as <- _. now left.
    + injection L as <- _. right. now exists (List.length (sent s)).
Qed.

Lemma traced_ensureValidToken (w : env) : traced w (ensureValidToken w).
Proof.
  intros s e s' E. pose proof (ensureValidToken_outcome w s) as O.
  rewrite E in O. destruct O as (_ & _ & (s0 & L) & _).
  exact (traced_login w s0 e s' L).
Qed.

Lemma traced_check_code (w : env) (what : string) (data : value) :
  traced w (check_code what data).
Proof. unfold check_code. traced_tac. Qed.

Lemma traced_getDeviceList (w : env) : traced w (getDeviceList w).
Proof.
  unfold getDeviceList, createBasePayload, axios_post.
  apply traced_bind; [apply traced_ensureValidToken | intros ?].
  apply traced_bind; [traced_tac | intros ?].
  apply traced_bind; [apply traced_axios | intros ?].
  apply traced_bind; [apply traced_check_code | intros ?].
  traced_tac.
Qed.

Lemma traced_Array_filter (w : env) (test : value -> M bool)
    (l : list value) :
  (forall d, traced w (test d)) -> traced w (Array_filter test l).
Proof.
  intros T. induction l as [|d l IH]; cbn [Array_filter]; [apply traced_ret|].
  apply traced_bind; [apply T | intros keep].
  apply traced_bind; [exact IH | intros kept]. apply traced_ret.
Qed.

Lemma traced_Array_map (w : env) (f : value -> M value) (l : list value) :
  (forall d, traced w (f d)) -> traced w (Array_map f l).
Proof.
  intros T. induction l as [|d l IH]; cbn [Array_map]; [apply traced_ret|].
  apply traced_bind; [apply T | intros x].
  apply traced_bind; [exact IH | intros xs]. apply traced_ret.
Qed.

Lemma traced_formatDevicesMarkdown (w : env) (devices : list value) :
  traced w (formatDevicesMarkdown devices).
Proof.
  assert (F : forall l groups, traced w (byType_fill l groups)).
  { induction l as [|d l IH]; intros groups; cbn [byType_fill];
      [apply traced_ret|].
    apply traced_bind; [apply traced_prop | intros ?]. apply IH. }
  assert (D : forall l, traced w (devices_lines l)).
  { induction l as [|d l IH]; cbn [devices_lines]; [apply traced_ret|].
    apply traced_bind; [unfold device_lines; traced_tac | intros ?].
    apply traced_bind; [exact IH | intros ?]. apply traced_ret. }
  assert (G : forall groups, traced w (groups_lines groups)).
  { induction groups as [|[k ds] groups IH]; cbn [groups_lines];
      [apply traced_ret|].
    apply traced_bind; [apply traced_ToString | intros ?].
    apply traced_bind; [apply D | intros ?].
    apply traced_bind; [exact IH | intros ?]. apply traced_ret. }
  unfold formatDevicesMarkdown. destruct devices; [apply traced_ret|].
  apply traced_bind; [apply F | intros ?].
  apply traced_bind; [apply G | intros ?]. apply traced_ret.
Qed.

(** X18. What leaves [wyze_list_devices].  An answer that is not an
    error carries the count and the list of the devices as structured
    content and a text of at most [CHARACTER_LIMIT] + 62 characters,
    the limit plus the notice of the truncation; an answer that is an
    error has no structured content and a text that begins with Error.
    An exception leaves the handler in one case only: a request was
    rejected with an error that [handleApiError] itself cannot put into
    words, and the exception is the TypeError of that conversion
    thrown inside the [catch] block; whatever the program throws
    itself is answered. *)
Theorem wyze_list_devices_outcome :
  forall (w : env) (lc : string -> string) (params : ListDevicesParams)
         (s : state),
    match wyze_list_devices w lc params s with
    | (Ok res, _) =>
        if isError res
        then structuredContent res = Undefined
             /\ exists rest, text res = "Error: " ++ rest
        else Z.of_nat (String.length (text res)) <= CHARACTER_LIMIT + 62
             /\ exists infos,
                  structuredContent res
                  = Obj [("count", Num (Z.of_nat (List.length infos)));
                         ("devices", Arr infos)]
    | (Throw e, _) =>
        e = unprintable
        /\ exists n error,
             server w n = Rejected error
             /\ own_error error = false
             /\ handleApiError error = Throw unprintable
    end.
Proof.
  intros w lc params s. unfold wyze_list_devices, try_catch.
  match goal with
  | |- context [match ?b s with _ => _ end] =>
      assert (T : traced w b);
      [| destruct (b s) as [[res|error] s'] eqn:B]
  end.
  - apply traced_bind; [apply traced_getDeviceList | intros devices].
    apply traced_bind.
    { destruct (env_present (device_type params)); [|apply traced_ret].
      cbv zeta. destruct devices; try (apply traced_throw; reflexivity).
      apply traced_bind; [|intros ?; apply traced_ret].
      apply traced_Array_filter. intros d. unfold lower. traced_tac. }
    intros devices'. apply traced_bind.
    { destruct devices'; try (apply traced_throw; reflexivity).
      apply traced_Array_map. intros d. unfold toDeviceInfo. traced_tac. }
    intros infos. apply traced_bind; [|intros ?; apply traced_ret].
    destruct (response_format params);
      [apply traced_formatDevicesMarkdown | apply traced_ret].
  - apply bind_inv_ok in B as (devices & s1 & _ & B).
    apply bind_inv_ok in B as (devices' & s2 & _ & B).
    apply bind_inv_ok in B as (infos & s3 & _ & B).
    apply bind_inv_ok in B as (textContent & s4 & _ & B).
    unfold ret in B. injection B as <- _. simpl.
    split; [apply truncate_bound | now exists infos].
  - unfold bind, lift.
    destruct (handleApiError error) as [t|e'] eqn:H.
    + simpl. split; [reflexivity | now apply (handleApiError_prefix error)].
    + destruct (handleApiError_throws _ _ H) as [-> No].
      split; [reflexivity|].
      destruct (T s error s' B) as [O|[n R]]; [congruence|].
      now exists n, error.
Qed.

(** A listing whose request is rejected with status 500 and a message
    that cannot be printed. *)
Example wyze_list_devices_unanswered :
  let rejection :=
    Rejected (AxiosError
                {| response := Some {| status := 500;
                                       data := Obj [("msg", Obj [("toString", Num 1)])] |};
                   code := Some "ERR_BAD_RESPONSE";
                   message := "Request failed with status code 500" |}) in
  fst (wyze_list_devices (frozen hour rejection) ascii_lower
         {| device_type := None; response_format := MARKDOWN |}
         (holding (Some (issued_at 0))))
  = Throw (TypeError "Cannot convert object to primitive value").
Proof. reflexivity. Qed.

Lemma Array_filter_typed (lc : string -> string) (wanted : string)
    (l : list value) (s : state) :
  forallb has_type l = true ->
  Array_filter
    (fun d =>
       product_type <- prop d "product_type" ;;
       t <- lower lc "d.product_type" product_type ;;
       ret (t =? wanted)%string) l s
  = (Ok (filter (fun d => match get d "product_type" with
                          | Some (Str t) => (lc t =? wanted)%string
                          | _ => false
                          end) l), s).
Proof.
  induction l as [|d l IH]; intros T; [reflexivity|].
  simpl in T. apply andb_prop in T as [Td T]. simpl.
  unfold has_type in Td.
  destruct (get d "product_type") as [[| | | |t| |]|] eqn:G;
    try discriminate Td.
  rewrite (prop_of_get d _ _ G). repeat step. simpl lower. repeat step.
  rewrite (bind_ok _ _ s s _ (IH T)). now repeat step.
Qed.

Lemma Array_filter_stops (lc : string -> string) (wanted : string)
    (ok rest : list value) (bad : value) (s : state) :
  forallb has_type ok = true ->
  is_nullish bad = false -> get_opt bad "product_type" = Undefined ->
  Array_filter
    (fun d =>
       product_type <- prop d "product_type" ;;
       t <- lower lc "d.product_type" product_type ;;
       ret (t =? wanted)%string) (ok ++ bad :: rest)%list s
  = (Throw (TypeError
       "Cannot read properties of undefined (reading 'toLowerCase')"), s).
Proof.
  intros T D U. induction ok as [|d ok IH].
  - simpl. rewrite (prop_defined bad _ D), U. now repeat step.
  - simpl in T. apply andb_prop in T as [Td T]. simpl.
    unfold has_type in Td.
    destruct (get d "product_type") as [[| | | |t| |]|] eqn:G;
      try discriminate Td.
    rewrite (prop_of_get d _ _ G). repeat step. simpl lower. repeat step.
    now rewrite (bind_thrown _ _ s s _ (IH T)).
Qed.

Lemma Array_map_summary (l : list value) (s : state) :
  Forall (fun d => is_nullish d = false) l ->
  Array_map toDeviceInfo l s = (Ok (map summary l), s).
Proof.
  induction 1 as [|d l D F IH]; [reflexivity|]. simpl.
  rewrite (bind_ok _ _ s s _ (toDeviceInfo_defined d s D)).
  rewrite (bind_ok _ _ s s _ IH). reflexivity.
Qed.

Lemma presentable_fields (d : value) :
  presentable d = true ->
  printable (get_opt d "nickname") = true
  /\ printable (get_opt d "mac") = true
  /\ printable (get_opt d "product_model") = true
  /\ printable (get_opt d "product_type") = true
  /\ printable (get_opt d "firmware_ver") = true.
Proof.
  unfold presentable. cbn [forallb]. rewrite !andb_true_iff. tauto.
Qed.

Lemma device_lines_defined (d : value) (s : state) :
  is_nullish d = false -> presentable d = true ->
  exists lines, device_lines d s = (Ok lines, s).
Proof.
  intros D P. destruct (presentable_fields d P) as (Pn & Pm & Pp & _ & Pf).
  unfold device_lines.
  rewrite !(prop_defined d _ D). repeat step.
  rewrite (ToString_printable _ Pn). repeat step.
  rewrite (ToString_printable _ Pm). repeat step.
  rewrite (ToString_printable _ Pp). repeat step.
  destruct (truthy (get_opt d "firmware_ver")).
  - repeat step. rewrite (ToString_printable _ Pf). repeat step.
    now eexists.
  - repeat step. now eexists.
Qed.

Lemma devices_lines_defined (l : list value) (s : state) :
  Forall (fun d => is_nullish d = false /\ presentable d = true) l ->
  exists lines, devices_lines l s = (Ok lines, s).
Proof.
  induction 1 as [|d l [D P] F [more IH]]; [now eexists|]. simpl.
  destruct (device_lines_defined d s D P) as [lines E].
  rewrite (bind_ok _ _ s s _ E), (bind_ok _ _ s s _ IH). now eexists.
Qed.

Lemma groups_lines_defined (groups : list (value * list value)) (s : state) :
  Forall (fun g => printable (fst g) = true
                   /\ Forall (fun d => is_nullish d = false
                                       /\ presentable d = true) (snd g))
         groups ->
  exists lines, groups_lines groups s = (Ok lines, s).
Proof.
  induction 1 as [|[k ds] groups [Pk D] F [more IH]]; [now eexists|]. simpl.
  simpl in Pk. rewrite (ToString_printable _ Pk), bind_lift_ok.
  destruct (devices_lines_defined ds s D) as [lines E].
  rewrite (bind_ok _ _ s s _ E), (bind_ok _ _ s s _ IH). now eexists.
Qed.

Lemma byType_add_defined (k d : value) (groups : list (value * list value)) :
  printable k = true ->
  is_nullish d = false /\ presentable d = true ->
  Forall (fun g => printable (fst g) = true
                   /\ Forall (fun d => is_nullish d = false
                                       /\ presentable d = true) (snd g))
         groups ->
  Forall (fun g => printable (fst g) = true
                   /\ Forall (fun d => is_nullish d = false
                                       /\ presentable d = true) (snd g))
         (byType_add k d groups).
Proof.
  intros Pk D. induction 1 as [|[k' ds] groups [Pk' G] F IH]; simpl.
  - constructor; [|constructor]. simpl. split; [exact Pk | now constructor].
  - destruct (strict_eq k' k); constructor; try assumption.
    + simpl in *. split; [exact Pk'|].
      apply Forall_app. split; [exact G | now constructor].
    + now split.
Qed.

Lemma heading_printable (d : value) :
  presentable d = true -> printable (heading d) = true.
Proof.
  intros P. destruct (presentable_fields d P) as (_ & _ & _ & Pt & _).
  unfold heading, or_. now destruct (truthy (get_opt d "product_type")).
Qed.

Lemma formatDevicesMarkdown_defined (devices : list value) (s : state) :
  Forall (fun d => is_nullish d = false /\ presentable d = true) devices ->
  exists t, formatDevicesMarkdown devices s = (Ok t, s).
Proof.
  intros D. unfold formatDevicesMarkdown.
  destruct devices as [|d devices]; [now eexists|].
  assert (Dn : Forall (fun d => is_nullish d = false) (d :: devices)).
  { apply (Forall_impl _ (P := fun d => is_nullish d = false
                                        /\ presentable d = true));
      [tauto | exact D]. }
  rewrite (bind_ok _ _ s s _ (byType_fill_fold _ [] s Dn)).
  assert (G : forall l groups,
             Forall (fun d => is_nullish d = false /\ presentable d = true)
                    l ->
             Forall (fun g => printable (fst g) = true
                              /\ Forall (fun d => is_nullish d = false
                                                  /\ presentable d = true)
                                        (snd g))
                    groups ->
             Forall (fun g => printable (fst g) = true
                              /\ Forall (fun d => is_nullish d = false
                                                  /\ presentable d = true)
                                        (snd g))
                    (fold_left (fun g d => byType_add (heading d) d g) l
                       groups)).
  { induction l as [|x l IH]; intros groups Dl Dg; [exact Dg|].
    inversion Dl as [|? ? Dx Dl']; subst. simpl. apply IH; [assumption|].
    apply byType_add_defined; [apply heading_printable | |]; tauto. }
  destruct (groups_lines_defined _ s (G _ [] D (Forall_nil _))) as [lines E].
  rewrite (bind_ok _ _ s s _ E). now eexists.
Qed.

Lemma summary_presentable (l : list value) :
  forallb presentable l = true ->
  Forall (fun d => is_nullish d = false /\ presentable d = true)
         (map summary l).
Proof.
  induction l as [|d l IH]; simpl; intros P; constructor.
  - apply andb_prop in P as [P _]. split; [reflexivity | exact P].
  - apply andb_prop in P as [_ P]. now apply IH.
Qed.

(** X19. The filter of [wyze_list_devices]: when the account's devices
    come back as a list without [null] entries, the structured content
    holds the summaries of the devices in the order of the account and
    their count.  With a [device_type] given that is not empty, and
    every device carrying a [product_type] string, these are the
    devices whose type equals the one asked for once both are put in
    lower case; with no [device_type], or an empty one, they are all
    the devices.  This holds for the JSON format, and for the markdown
    format when the fields that format prints (nickname, mac, model,
    type, firmware) of the devices listed can be converted to
    strings. *)
Theorem wyze_list_devices_filter :
  forall (w : env) (lc : string -> string) (params : ListDevicesParams)
         (l : list value) (s s1 : state),
    getDeviceList w s = (Ok (Arr l), s1) ->
    forallb (fun d => negb (is_nullish d)) l = true ->
    (env_present (device_type params) = true -> forallb has_type l = true) ->
    (response_format params = MARKDOWN ->
     forallb presentable (listed lc (device_type params) l) = true) ->
    exists textContent,
      wyze_list_devices w lc params s
      = (Ok {| text := textContent;
               structuredContent :=
                 Obj [("count",
                       Num (Z.of_nat
                              (List.length
                                 (listed lc (device_type params) l))));
                      ("devices",
                       Arr (map summary (listed lc (device_type params) l)))];
               isError := false |}, s1).
Proof.
  intros w lc params l s s1 G D T P.
  assert (Dl : Forall (fun d => is_nullish d = false) l).
  { rewrite forallb_forall in D. rewrite Forall_forall. intros d I.
    specialize (D d I). now destruct (is_nullish d). }
  assert (K : Forall (fun d => is_nullish d = false)
                (listed lc (device_type params) l)).
  { unfold listed. destruct (env_present (device_type params)); [|exact Dl].
    rewrite Forall_forall in *. intros d I. apply filter_In in I. now apply Dl. }
  unfold wyze_list_devices, try_catch. rewrite (bind_ok _ _ s s1 _ G).
  assert (F : (if env_present (device_type params)
               then
                 let filterType := lc (env_text (device_type params)) in
                 kept <- Array_filter
                           (fun d =>
                              product_type <- prop d "product_type" ;;
                              t <- lower lc "d.product_type" product_type ;;
                              ret (t =? filterType)%string) l ;;
                 ret (Arr kept)
               else ret (Arr l)) s1
              = (Ok (Arr (listed lc (device_type params) l)), s1)).
  { unfold listed. destruct (env_present (device_type params)); [|reflexivity].
    cbv zeta. rewrite (bind_ok _ _ s1 s1 _ (Array_filter_typed lc _ l s1 (T eq_refl))).
    reflexivity. }
  rewrite (bind_ok _ _ s1 s1 _ F).
  rewrite (bind_ok _ _ s1 s1 _ (Array_map_summary _ s1 K)).
  rewrite length_map.
  destruct (response_format params).
  - destruct (formatDevicesMarkdown_defined _ s1
                (summary_presentable _ (P eq_refl)))
      as [t E].
    rewrite (bind_ok _ _ s1 s1 _ E). now eexists.
  - rewrite bind_ret. now eexists.
Qed.

(** The three devices, asked for plugs and asked for everything. *)
Lemma wyze_list_devices_filter_witness :
  let w := frozen hour (listing [porch; kitchen; decoy]) in
  let s := holding (Some (issued_at 0)) in
  structuredContent_of
    (fst (wyze_list_devices w ascii_lower
            {| device_type := Some "PLUG"; response_format := JSON |} s))
  = Some (Obj [("count", Num 2);
               ("devices", Arr [summary kitchen; summary decoy])])
  /\ structuredContent_of
       (fst (wyze_list_devices w ascii_lower
               {| device_type := None; response_format := MARKDOWN |} s))
     = Some (Obj [("count", Num 3);
                  ("devices",
                   Arr [summary porch; summary kitchen; summary decoy])]).
Proof.
  intros w s.
  assert (G : getDeviceList w s
              = (Ok (Arr [porch; kitchen; decoy]), snd (getDeviceList w s))).
  { rewrite (surjective_pairing (getDeviceList w s)) at 1. reflexivity. }
  split.
  - destruct (wyze_list_devices_filter w ascii_lower
                {| device_type := Some "PLUG"; response_format := JSON |}
                _ s _ G eq_refl (fun _ => eq_refl) (fun _ => eq_refl))
      as [t E].
    rewrite E. reflexivity.
  - destruct (wyze_list_devices_filter w ascii_lower
                {| device_type := None; response_format := MARKDOWN |}
                _ s _ G eq_refl (fun _ => eq_refl) (fun _ => eq_refl))
      as [t E].
    rewrite E. reflexivity.
Defined.

(** X20. The filter reads the [product_type] of every device: with a
    [device_type] given that is not empty, a device without a
    [product_type], behind devices that have theirs, makes the whole
    listing an error with the text of the type error of that read and
    no structured content, whatever the type asked for and whatever
    the devices after it are. *)
Theorem wyze_list_devices_filter_needs_types :
  forall (w : env) (lc : string -> string) (params : ListDevicesParams)
         (ok rest : list value) (bad : value) (s s1 : state),
    getDeviceList w s = (Ok (Arr (ok ++ bad :: rest)%list), s1) ->
    env_present (device_type params) = true ->
    forallb has_type ok = true ->
    is_nullish bad = false ->
    get_opt bad "product_type" = Undefined ->
    wyze_list_devices w lc params s
    = (Ok {| text := "Error: Cannot read properties of undefined (reading 'toLowerCase')";
             structuredContent := Undefined;
             isError := true |}, s1).
Proof.
  intros w lc params ok rest bad s s1 G P T D U.
  unfold wyze_list_devices, try_catch. rewrite (bind_ok _ _ s s1 _ G), P.
  cbv zeta. rewrite bind_bind.
  now rewrite (bind_thrown _ _ s1 s1 _
                 (Array_filter_stops lc _ ok rest bad s1 T D U)).
Qed.

(** A sensor without a type behind the camera. *)
Lemma wyze_list_devices_filter_needs_types_witness :
  let sensor := Obj [("mac", Str "DD44"); ("nickname", Str "Shed")] in
  let w := frozen hour (listing [porch; sensor; kitchen]) in
  let s := holding (Some (issued_at 0)) in
  fst (wyze_list_devices w ascii_lower
         {| device_type := Some "Camera"; response_format := MARKDOWN |} s)
  = Ok {| text := "Error: Cannot read properties of undefined (reading 'toLowerCase')";
          structuredContent := Undefined;
          isError := true |}
  /\ structuredContent_of
       (fst (wyze_list_devices w ascii_lower
               {| device_type := None; response_format := MARKDOWN |} s))
     = Some (Obj [("count", Num 3);
                  ("devices",
                   Arr [summary porch; summary sensor; summary kitchen])]).
Proof.
  intros sensor w s.
  assert (G : getDeviceList w s
              = (Ok (Arr ([porch] ++ sensor :: [kitchen])%list),
                 snd (getDeviceList w s))).
  { rewrite (surjective_pairing (getDeviceList w s)) at 1. reflexivity. }
  split; [|reflexivity].
  now rewrite (wyze_list_devices_filter_needs_types w ascii_lower
                 {| device_type := Some "Camera"; response_format := MARKDOWN |}
                 [porch] [kitchen] sensor s _ G eq_refl eq_refl eq_refl eq_refl).
Defined.
